(** * The request-gating pipeline of the CRUD backend, and the sum-to-n
      exercise: a shallow embedding and its verified properties.

    Conventions of the embedding.
    - A JavaScript [number] on which the program does arithmetic is a
      [Number.number], a double with its rounding; a number that is only
      stored, compared or counted (a status code, an instant, a counter) is
      a [Z].
    - A JavaScript string is a [string].
    - An exception is a value: a function that may throw returns a sum, a
      middleware returns an [Outcome].
    - Libraries that the repository only calls (jsonwebtoken, bcrypt, zod,
      Prisma, xss) are parameters, given by their observable results. *)

From Equations Require Import Equations.
From stdpp Require Import gmap strings list fin_maps pretty.
From Stdlib Require Import ZArith Lia Ascii.

Local Open Scope Z_scope.

(* ===================================================================== *)
(** * Part I: the program                                                *)
(* ===================================================================== *)

(** ** utils/errors.ts: the error classes *)
Module Errors.

(** One tag per subclass of [AppError]; [instanceof C] on an [AppError] is a
    comparison of tags. *)
Inductive ErrorClass :=
| BadRequest | Unauthorized | Forbidden | NotFound | Conflict
| Validation | RateLimit | InternalServer | ServiceUnavailable.

#[global] Instance ErrorClass_eq_dec : EqDecision ErrorClass.
Proof. solve_decision. Defined.

Record AppError := mkAppError {
  class : ErrorClass;
  message : string;
  statusCode : Z;
  isOperational : bool;
  errors : option (list string)
}.

#[global] Instance AppError_eq_dec : EqDecision AppError.
Proof. solve_decision. Defined.

Definition BadRequestError (msg : string) (errs : option (list string)) : AppError :=
  mkAppError BadRequest msg 400 true errs.
Definition UnauthorizedError (msg : string) : AppError :=
  mkAppError Unauthorized msg 401 true None.
Definition ForbiddenError (msg : string) : AppError :=
  mkAppError Forbidden msg 403 true None.
Definition NotFoundError (msg : string) : AppError :=
  mkAppError NotFound msg 404 true None.
Definition ConflictError (msg : string) : AppError :=
  mkAppError Conflict msg 409 true None.
Definition ValidationError (msg : string) (errs : option (list string)) : AppError :=
  mkAppError Validation msg 422 true errs.
Definition RateLimitError (msg : string) : AppError :=
  mkAppError RateLimit msg 429 true None.

(** What can reach [next(error)]: an [AppError], one of the two Prisma error
    classes the error handler knows, or any other error. *)
Inductive Exn :=
| EApp (e : AppError)
| EPrismaKnownRequest (code : string) (target : option (list string))
| EPrismaValidation
| EOther (name msg : string).

(** A computation that returns or throws. *)
Inductive Result (A : Type) :=
| Ok (a : A)
| Throw (e : Exn).
Arguments Ok {A} a.
Arguments Throw {A} e.

End Errors.
Export Errors.

(** ** JavaScript numbers

    A [number] is an IEEE 754 double. The numbers that the arithmetic of
    this program meets are integers, the two infinities and [NaN]: an
    integer stands for itself, and an operation rounds its exact result to
    the nearest double, ties to the even significand. The sign of zero is
    not kept. *)
Module NumberValues.

Inductive number := Num (z : Z) | Infinity | NegInfinity | NaN.

#[global] Instance number_eq_dec : EqDecision number.
Proof. solve_decision. Defined.

End NumberValues.
Export NumberValues.

(** The operators and the functions of [Math] that the program uses. *)
Module Number.

(** The nearest double to an integer: 53 significant bits. Below 2^53 every
    integer is a double; from there on the doubles are the multiples of the
    unit in the last place. *)
Definition round (z : Z) : Z :=
  let a := Z.abs z in
  if a <? 2 ^ 53 then z
  else
    let ulp := 2 ^ (Z.log2 a - 52) in
    let q := a / ulp in
    let r := a mod ulp in
    let up := (ulp <? 2 * r) || ((2 * r =? ulp) && Z.odd q) in
    Z.sgn z * ((if up then q + 1 else q) * ulp).

(** An exact result as a [number]: what rounds to 2^1024 or beyond is an
    infinity. *)
Definition of_Z (z : Z) : number :=
  let r := round z in
  if 2 ^ 1024 <=? r then Infinity
  else if r <=? - 2 ^ 1024 then NegInfinity
  else Num r.

Definition sign_of (x : number) : Z :=
  match x with
  | Num z => Z.sgn z
  | Infinity => 1
  | NegInfinity => -1
  | NaN => 0
  end.

Definition neg (x : number) : number :=
  match x with
  | Num z => Num (- z)
  | Infinity => NegInfinity
  | NegInfinity => Infinity
  | NaN => NaN
  end.

(** [x + y] *)
Definition add (x y : number) : number :=
  match x, y with
  | NaN, _ | _, NaN => NaN
  | Num a, Num b => of_Z (a + b)
  | Infinity, NegInfinity | NegInfinity, Infinity => NaN
  | Infinity, _ | _, Infinity => Infinity
  | NegInfinity, _ | _, NegInfinity => NegInfinity
  end.

(** [x - y] *)
Definition sub (x y : number) : number := add x (neg y).

(** [x * y]; an infinity times zero is [NaN]. *)
Definition mul (x y : number) : number :=
  match x, y with
  | NaN, _ | _, NaN => NaN
  | Num a, Num b => of_Z (a * b)
  | _, _ =>
      let s := sign_of x * sign_of y in
      if s =? 0 then NaN else if 0 <? s then Infinity else NegInfinity
  end.

(** [x / 2] for an even integer [x]: the quotient is exact. (Half of an odd
    integer is a fraction, which [number] does not hold.) *)
Definition half (x : number) : number :=
  match x with
  | Num z => Num (z / 2)
  | _ => x
  end.

(** [x <= y]; a comparison with [NaN] is false. *)
Definition leb (x y : number) : bool :=
  match x, y with
  | NaN, _ | _, NaN => false
  | Num a, Num b => a <=? b
  | NegInfinity, _ | _, Infinity => true
  | _, _ => false
  end.

(** [Math.max(x, y)] and [Math.min(x, y)]; [NaN] when an argument is. *)
Definition max (x y : number) : number :=
  match x, y with
  | NaN, _ | _, NaN => NaN
  | _, _ => if leb x y then y else x
  end.

Definition min (x y : number) : number :=
  match x, y with
  | NaN, _ | _, NaN => NaN
  | _, _ => if leb x y then x else y
  end.

(** The quotient [a / b] of two positive integers as a double: the
    significand [m] and the exponent [e] of the nearest [m * 2 ^ e] with
    [m] of 53 bits, ties to even. The exponent comes from the position of
    the leading bit of the quotient, [d] or [d - 1]. (Below 2^-1022 a double
    has fewer bits; the difference does not reach the ceiling taken of it.) *)
Definition quotient_double (a b : Z) : Z * Z :=
  let d := Z.log2 a - Z.log2 b in
  let reaches := if 0 <=? d then b * 2 ^ d <=? a else b <=? a * 2 ^ (- d) in
  let e := (if reaches then d else d - 1) - 52 in
  let num := if 0 <=? e then a else a * 2 ^ (- e) in
  let den := if 0 <=? e then b * 2 ^ e else b in
  let q := num / den in
  let r := num mod den in
  let up := (den <? 2 * r) || ((2 * r =? den) && Z.odd q) in
  (if up then q + 1 else q, e).

(** [Math.ceil] of [m * 2 ^ e]. *)
Definition ceil_scaled (m e : Z) : Z :=
  if 0 <=? e then m * 2 ^ e else - ((- m) / 2 ^ (- e)).

(** [Math.ceil(x / y)]. The quotient of two integers need not be an integer,
    so the division and the ceiling are taken together. A division by zero
    gives an infinity, or [NaN] for zero over zero. *)
Definition ceil_div (x y : number) : number :=
  match x, y with
  | NaN, _ | _, NaN => NaN
  | Num a, Num b =>
      if b =? 0 then
        if a =? 0 then NaN else if 0 <? a then Infinity else NegInfinity
      else if a =? 0 then Num 0
      else
        let '(m, e) := quotient_double (Z.abs a) (Z.abs b) in
        Num (ceil_scaled (Z.sgn a * Z.sgn b * m) e)
  | Num _, _ => Num 0
  | _, Num b =>
      if 0 <=? sign_of x * (if 0 <=? b then 1 else -1) then Infinity else NegInfinity
  | _, _ => NaN
  end.

End Number.

(** ** Problem 4: three ways to sum to n *)
Module SumToN.
Import Number.

(** [(n * (n + 1)) / 2]. The product of an integer and its successor is
    even, also after rounding, so the halving is exact. *)
Definition sum_to_n_a (n : number) : number := half (mul n (add n (Num 1))).

(** The [for] loop of [sum_to_n_b], entered with [i] and [sum]; [steps]
    bounds the number of tests of the loop condition, and [None] is a loop
    that is still running when they are used up. (With [n] above 2^53 the
    increment [i++] stops changing [i], and the loop never ends.) *)
Fixpoint sum_to_n_b_loop (steps : nat) (n i sum : number) : option number :=
  match steps with
  | O => None
  | S steps =>
      if leb i n then sum_to_n_b_loop steps n (add i (Num 1)) (add sum i)
      else Some sum
  end.

Definition sum_to_n_b (steps : nat) (n : number) : option number :=
  sum_to_n_b_loop steps n (Num 1) (Num 0).

(** What the engine throws when the call stack is full. *)
Definition stack_overflow : Exn :=
  EOther "RangeError" "Maximum call stack size exceeded".

(** [sum_to_n_c] is not a tail call: each level of the recursion holds a
    frame of the call stack until the levels below it have returned.
    [frames] is the number of frames the stack still has room for, a
    property of the engine and of the caller's depth. *)
Fixpoint sum_to_n_c (frames : nat) (n : number) : Result number :=
  match frames with
  | O => Throw stack_overflow
  | S frames =>
      if leb n (Num 1) then Ok n
      else
        match sum_to_n_c frames (sub n (Num 1)) with
        | Ok below => Ok (add n below)
        | Throw e => Throw e
        end
  end.

(** The sum 1 + 2 + ... + n written out, to compare the three against. *)
Definition sum_1_to (n : Z) : Z :=
  foldr Z.add 0 (Z.of_nat <$> seq 1 (Z.to_nat n)).

End SumToN.

(** ** services/auth.service.ts: parseExpirationTime *)
Module Ttl.
Import Number.

(** [\d] *)
Definition is_digit (c : ascii) : bool :=
  (48 <=? Z.of_nat (nat_of_ascii c)) && (Z.of_nat (nat_of_ascii c) <=? 57).

(** [[smhd]] *)
Definition is_unit (c : ascii) : bool :=
  bool_decide (c ∈ ["s"; "m"; "h"; "d"]%char).

(** The longest prefix of digits and what follows it: the greedy [\d*]. *)
Fixpoint take_digits (s : string) : string * string :=
  match s with
  | String c s' =>
      if is_digit c then let '(ds, rest) := take_digits s' in (String c ds, rest)
      else (EmptyString, s)
  | EmptyString => (EmptyString, EmptyString)
  end.

(** [expiration.match(/^(\d+)([smhd])$/)]: the two captured groups, or
    [None] for [null]. No unit letter is a digit, so the greedy match of the
    digits is the only candidate. *)
Definition regex_match (expiration : string) : option (string * ascii) :=
  match take_digits expiration with
  | (String d ds, String unit EmptyString) =>
      if is_unit unit then Some (String d ds, unit) else None
  | _ => None
  end.

Definition digit_value (c : ascii) : Z := Z.of_nat (nat_of_ascii c) - 48.

(** The leading digits read in base ten. *)
Fixpoint parseInt_go (s : string) (acc : Z) : Z :=
  match s with
  | String c s' => if is_digit c then parseInt_go s' (acc * 10 + digit_value c) else acc
  | EmptyString => acc
  end.

(** [parseInt(value, 10)] on a string without sign or leading blanks: the
    double nearest to the integer that the leading digits spell, [NaN] when
    there is none. *)
Definition parseInt (value : string) : number :=
  match value with
  | String c _ => if is_digit c then of_Z (parseInt_go value 0) else NaN
  | EmptyString => NaN
  end.

Definition parseExpirationTime (expiration : string) : number :=
  match regex_match expiration with
  | None => Num 86400
  | Some (value, unit) =>
      let num := parseInt value in
      if bool_decide (unit = "s"%char) then num
      else if bool_decide (unit = "m"%char) then mul num (Num 60)
      else if bool_decide (unit = "h"%char) then mul num (Num 3600)
      else if bool_decide (unit = "d"%char) then mul num (Num 86400)
      else Num 86400
  end.

End Ttl.

(** ** JSON values: what [express.json()] puts in [req.body] *)
Module Json.

(** An object is the list of its own enumerable properties, in the order in
    which [Object.entries] enumerates them; property names are distinct. *)
#[warnings="-register-all"] Inductive json :=
| JNull
| JBool (b : bool)
| JNum (n : Z)
| JStr (s : string)
| JArr (items : list json)
| JObj (props : list (string * json)).

(** [typeof v === 'object' && v !== null] *)
Definition is_object (v : json) : bool :=
  match v with JArr _ | JObj _ => true | _ => false end.

(** A plain assignment to a data property: the property keeps its place when
    it exists and is appended otherwise. *)
Fixpoint assign (props : list (string * json)) (key : string) (value : json)
  : list (string * json) :=
  match props with
  | [] => [(key, value)]
  | (k, v) :: rest =>
      if decide (k = key) then (k, value) :: rest
      else (k, v) :: assign rest key value
  end.

(** [o[key] = value] on an object created by the literal [{}]. The literal's
    prototype is [Object.prototype], whose accessor [__proto__] receives the
    assignment for that one key: the setter replaces the prototype (or does
    nothing for a primitive) and no own property is created. Every other key
    is a plain assignment. *)
Definition set_property (props : list (string * json)) (key : string) (value : json)
  : list (string * json) :=
  if decide (key = "__proto__") then props else assign props key value.

(** [Object.entries] of an array: the decimal index with each element. *)
Definition array_entries (items : list json) : list (string * json) :=
  imap (fun i item => (pretty i, item)) items.

(** The own property [key] of an object, if any. *)
Fixpoint get (props : list (string * json)) (key : string) : option json :=
  match props with
  | [] => None
  | (k, v) :: rest => if decide (k = key) then Some v else get rest key
  end.

End Json.
Export Json.

(** ** middleware/validate.middleware.ts: sanitizeBody and sanitizeObject *)
Module Sanitizer.

(** [s.includes(sub)] *)
Fixpoint includes (s sub : string) : bool :=
  String.prefix sub s ||
  match s with
  | String _ s' => includes s' sub
  | EmptyString => false
  end.

(** [key.startsWith('$') || key.includes('..')] *)
Definition dangerous (key : string) : bool :=
  String.prefix "$" key || includes key "..".

(** One turn of the loop body of [sanitizeObject], with [rec] the function
    itself. The three branches are those of the source: a non-null object
    that is not an array, an array, and anything else. *)
Definition sanitize_entry (rec : json -> json)
    (sanitized : list (string * json)) (key : string) (value : json)
  : list (string * json) :=
  if dangerous key then sanitized
  else match value with
       | JObj _ => set_property sanitized key (rec value)
       | JArr items =>
           set_property sanitized key
             (JArr ((fun item => if is_object item then rec item else item) <$> items))
       | _ => set_property sanitized key value
       end.

(** [sanitizeObject]. Its callers pass whatever has [typeof] ['object'] and
    is not [null], so an array can arrive where the type announces a record;
    [Object.entries] then enumerates its indices. The last case is not
    reached. *)
Fixpoint sanitizeObject (obj : json) : json :=
  match obj with
  | JObj props =>
      JObj ((fix loop (entries : list (string * json)) (sanitized : list (string * json)) :=
               match entries with
               | [] => sanitized
               | (key, value) :: entries' =>
                   loop entries' (sanitize_entry sanitizeObject sanitized key value)
               end) props [])
  | JArr items =>
      JObj ((fix loop (i : nat) (entries : list json) (sanitized : list (string * json)) :=
               match entries with
               | [] => sanitized
               | value :: entries' =>
                   loop (S i) entries' (sanitize_entry sanitizeObject sanitized (pretty i) value)
               end) 0%nat items [])
  | _ => JObj []
  end.

(** [sanitizeBody], on the body alone: the middleware always calls [next()]. *)
Definition sanitizeBody (body : option json) : option json :=
  match body with
  | Some b => if is_object b then Some (sanitizeObject b) else body
  | None => None
  end.

End Sanitizer.

(** ** models/types.ts and the rows of the database *)
Module Model.

(** Modelled from the spec: the [Role] enum of the Prisma schema, which is
    not among the sources; the spec lists GUEST, USER and ADMIN, and the code
    names [Role.USER] and [Role.ADMIN]. *)
Inductive Role := GUEST | USER | ADMIN.

#[global] Instance Role_eq_dec : EqDecision Role.
Proof. solve_decision. Defined.

(** A Prisma enum value is the string of its name. *)
Definition role_name (r : Role) : string :=
  match r with GUEST => "GUEST" | USER => "USER" | ADMIN => "ADMIN" end.

(** A row of the user table, with the columns the code reads. *)
Record User := mkUser {
  user_id : string;
  user_email : string;
  user_password : string;
  user_name : string;
  user_role : Role;
  user_isActive : bool
}.

(** [AuthenticatedRequest.user] *)
Record AuthUser := mkAuthUser {
  id : string;
  email : string;
  role : Role;
  isActive : bool
}.

#[global] Instance AuthUser_eq_dec : EqDecision AuthUser.
Proof. solve_decision. Defined.

Record JwtPayload := mkJwtPayload {
  userId : string;
  payload_email : string;
  payload_role : Role;
  iat : option Z;
  exp : option Z
}.

Record LoginDto := mkLoginDto {
  login_email : string;
  login_password : string
}.

Record LoginUser := mkLoginUser {
  lu_id : string;
  lu_email : string;
  lu_name : string;
  lu_role : Role
}.

Record LoginResponse := mkLoginResponse {
  login_user : LoginUser;
  accessToken : string;
  expiresIn : number
}.

(** The parts of an Express request that the pipeline reads or writes. *)
Record Request := mkRequest {
  authorization : option string;
  body : option json;
  query : json;
  params : list (string * string);
  path : string;
  ip : string;
  user : option AuthUser
}.

Definition set_user (req : Request) (u : AuthUser) : Request :=
  mkRequest (authorization req) (body req) (query req) (params req)
            (path req) (ip req) (Some u).

Definition set_body (req : Request) (b : option json) : Request :=
  mkRequest (authorization req) b (query req) (params req)
            (path req) (ip req) (user req).

(** A row of the resource table: its key, its owner, and the other columns. *)
Record Resource := mkResource {
  resource_id : string;
  ownerId : string;
  columns : json
}.

(** What [jwt.verify] throws. [TokenExpiredError] and [NotBeforeError] are
    subclasses of [JsonWebTokenError]. *)
Inductive JwtError :=
| TokenExpiredError (msg : string) (expiredAt : Z)
| NotBeforeError (msg : string)
| JsonWebTokenError (msg : string)
| ForeignError (name msg : string).

Definition instanceof_TokenExpiredError (error : JwtError) : bool :=
  match error with TokenExpiredError _ _ => true | _ => false end.

Definition instanceof_JsonWebTokenError (error : JwtError) : bool :=
  match error with
  | TokenExpiredError _ _ | NotBeforeError _ | JsonWebTokenError _ => true
  | ForeignError _ _ => false
  end.

Inductive JwtVerify :=
| Decoded (payload : JwtPayload)
| JwtThrows (error : JwtError).

(** How [jwt.sign(payload, secret, { expiresIn })] ends: with the token, or
    with the error it throws for a secret or a time span it does not
    accept. *)
Inductive JwtSign :=
| Signed (token : string)
| SignThrows (name msg : string).

(** The ambient environment of a request: the user repository (its module
    is not among the sources), the libraries, and [process.env]. It is the
    environment at the instant of the request: jsonwebtoken reads the clock
    when it signs and when it verifies, so [jwt_sign] and [jwt_verify] of
    two requests need not be the same functions. *)
Record Ambient := mkAmbient {
  findById : string -> option User;
  findByEmail : string -> option User;
  jwt_verify : string -> string -> JwtVerify;
  jwt_sign : JwtPayload -> string -> string -> JwtSign;
  bcrypt_compare : string -> string -> bool;
  xss : string -> string;
  JWT_SECRET : option string;
  JWT_EXPIRES_IN : option string;
  NODE_ENV : option string
}.

(** [process.env.X || fallback]: the empty string is falsy as well. *)
Definition env_or (v : option string) (fallback : string) : string :=
  match v with
  | Some (String c s) => String c s
  | _ => fallback
  end.

(** A middleware ends in [next()] with the request as it left it, or in
    [next(error)]. *)
Inductive Outcome :=
| Next (req : Request)
| NextErr (error : Exn).

Definition Middleware := Ambient -> Request -> Outcome.

End Model.
Export Model.

(** ** services/auth.service.ts *)
Module AuthService.

Definition jwtSecret (A : Ambient) : string :=
  env_or (JWT_SECRET A) "development-secret-key-change-in-production".

Definition jwtExpiresIn (A : Ambient) : string :=
  env_or (JWT_EXPIRES_IN A) "24h".

(** [generateLoginResponse]; what [jwt.sign] throws is not caught here. *)
Definition generateLoginResponse (A : Ambient) (user : User) : Result LoginResponse :=
  let payload := mkJwtPayload (user_id user) (user_email user) (user_role user) None None in
  match jwt_sign A payload (jwtSecret A) (jwtExpiresIn A) with
  | SignThrows name msg => Throw (EOther name msg)
  | Signed accessToken =>
      let expiresIn := Ttl.parseExpirationTime (jwtExpiresIn A) in
      Ok (mkLoginResponse
            (mkLoginUser (user_id user) (user_email user) (user_name user) (user_role user))
            accessToken expiresIn)
  end.

Definition login (A : Ambient) (data : LoginDto) : Result LoginResponse :=
  match findByEmail A (login_email data) with
  | None => Throw (EApp (UnauthorizedError "Invalid credentials"))
  | Some user =>
      if negb (user_isActive user) then
        Throw (EApp (UnauthorizedError "Account is inactive"))
      else
        let isPasswordValid := bcrypt_compare A (login_password data) (user_password user) in
        if negb isPasswordValid then
          Throw (EApp (UnauthorizedError "Invalid credentials"))
        else generateLoginResponse A user
  end.

Definition verifyToken (A : Ambient) (token : string) : Result JwtPayload :=
  match jwt_verify A token (jwtSecret A) with
  | Decoded decoded => Ok decoded
  | JwtThrows error =>
      if instanceof_TokenExpiredError error then
        Throw (EApp (UnauthorizedError "Token has expired"))
      else if instanceof_JsonWebTokenError error then
        Throw (EApp (UnauthorizedError "Invalid token"))
      else Throw (EApp (UnauthorizedError "Token verification failed"))
  end.

End AuthService.

(** ** middleware/auth.middleware.ts *)
Module AuthMiddleware.

(** [s.substring(n)] *)
Definition substring_from (n : nat) (s : string) : string :=
  String.substring n (String.length s - n) s.

Definition authenticate : Middleware := fun A req =>
  match authorization req with
  | None => NextErr (EApp (UnauthorizedError "No token provided"))
  | Some authHeader =>
      if bool_decide (authHeader = "") || negb (String.prefix "Bearer " authHeader) then
        NextErr (EApp (UnauthorizedError "No token provided"))
      else
        let token := substring_from 7 authHeader in
        match AuthService.verifyToken A token with
        | Throw error => NextErr error
        | Ok decoded =>
            match findById A (userId decoded) with
            | None => NextErr (EApp (UnauthorizedError "User not found"))
            | Some user =>
                if negb (user_isActive user) then
                  NextErr (EApp (UnauthorizedError "Account is inactive"))
                else
                  Next (set_user req
                          (mkAuthUser (user_id user) (user_email user)
                                      (user_role user) (user_isActive user)))
            end
        end
  end.

(** [optionalAuthenticate]: every failure on the way, a rejected token
    included, ends in a plain [next()]. *)
Definition optionalAuthenticate : Middleware := fun A req =>
  match authorization req with
  | None => Next req
  | Some authHeader =>
      if bool_decide (authHeader = "") || negb (String.prefix "Bearer " authHeader) then
        Next req
      else
        let token := substring_from 7 authHeader in
        match AuthService.verifyToken A token with
        | Throw _ => Next req
        | Ok decoded =>
            match findById A (userId decoded) with
            | Some user =>
                if user_isActive user then
                  Next (set_user req
                          (mkAuthUser (user_id user) (user_email user)
                                      (user_role user) (user_isActive user)))
                else Next req
            | None => Next req
            end
        end
  end.

(** [authenticateApiKey], with its two inputs made explicit: the variable
    [API_KEY] of the environment and the header [x-api-key] of the request. *)
Definition authenticateApiKey (API_KEY x_api_key : option string) : Middleware := fun _ req =>
  match x_api_key with
  | Some (String c s) =>
      let apiKey := String c s in
      match API_KEY with
      | Some (String c' s') =>
          let validApiKey := String c' s' in
          if bool_decide (apiKey <> validApiKey) then
            NextErr (EApp (UnauthorizedError "Invalid API key"))
          else Next req
      | _ => NextErr (EApp (UnauthorizedError "Invalid API key"))
      end
  | _ => NextErr (EApp (UnauthorizedError "API key required"))
  end.

End AuthMiddleware.

(** ** middleware/rbac.middleware.ts *)
Module Rbac.

Definition requireRole (allowedRoles : list Role) : Middleware := fun _ req =>
  match user req with
  | None => NextErr (EApp (UnauthorizedError "Authentication required"))
  | Some u =>
      if negb (bool_decide (role u ∈ allowedRoles)) then
        NextErr (EApp (ForbiddenError
          ("Access denied. Required role(s): "
             +:+ String.concat ", " (role_name <$> allowedRoles))))
      else Next req
  end.

Definition requireAdmin : Middleware := requireRole [ADMIN].

Definition requireUserOrAdmin : Middleware := requireRole [USER; ADMIN].

(** After the administrator's shortcut the middleware reads the resource id and
    the user id, compares nothing, and calls [next()]. *)
Definition requireOwnershipOrAdmin (resourceIdParam : string) : Middleware := fun _ req =>
  match user req with
  | None => NextErr (EApp (UnauthorizedError "Authentication required"))
  | Some u =>
      if bool_decide (role u = ADMIN) then Next req
      else
        let resourceId := (list_to_map (params req) : gmap string string) !! resourceIdParam in
        let userId := id u in
        Next req
  end.

Definition requireActiveAccount : Middleware := fun _ req =>
  match user req with
  | None => NextErr (EApp (UnauthorizedError "Authentication required"))
  | Some u =>
      if negb (isActive u) then
        NextErr (EApp (ForbiddenError "Account is inactive. Please contact support."))
      else Next req
  end.

End Rbac.

(** ** utils/helpers.ts: the XSS sanitizer of the service layer *)
Module Helpers.

Definition sanitizeInput (A : Ambient) (input : string) : string := xss A input.

Fixpoint sanitizeObject (A : Ambient) (obj : json) : json :=
  let step (sanitized : list (string * json)) (key : string) (value : json) :=
    match value with
    | JStr s => set_property sanitized key (JStr (sanitizeInput A s))
    | JArr items =>
        set_property sanitized key
          (JArr ((fun item => match item with
                              | JStr s => JStr (sanitizeInput A s)
                              | _ => item
                              end) <$> items))
    | JObj _ => set_property sanitized key (sanitizeObject A value)
    | _ => set_property sanitized key value
    end in
  match obj with
  | JObj props =>
      JObj ((fix loop (entries : list (string * json)) (sanitized : list (string * json)) :=
               match entries with
               | [] => sanitized
               | (key, value) :: entries' => loop entries' (step sanitized key value)
               end) props [])
  | JArr items =>
      JObj ((fix loop (i : nat) (entries : list json) (sanitized : list (string * json)) :=
               match entries with
               | [] => sanitized
               | value :: entries' => loop (S i) entries' (step sanitized (pretty i) value)
               end) 0%nat items [])
  | _ => JObj []
  end.

(** [getPaginationParams]; an absent argument takes its default. *)
Record PaginationParams := mkPagination {
  page : number;
  limit : number;
  skip : number
}.

Definition getPaginationParams (page limit : option number) : PaginationParams :=
  let page := default (Num 1) page in
  let limit := default (Num 10) limit in
  let validPage := Number.max (Num 1) page in
  let validLimit := Number.min (Number.max (Num 1) limit) (Num 100) in
  let skip := Number.mul (Number.sub validPage (Num 1)) validLimit in
  mkPagination validPage validLimit skip.

(** [calculateTotalPages]: [Math.ceil(total / limit)]. *)
Definition calculateTotalPages (total limit : number) : number :=
  Number.ceil_div total limit.

(** [maskSensitiveData], on the own properties of its argument. The spread
    copies them; [field in masked] finds a property there, the prototype of
    the copy having none of the five names. *)
Definition sensitiveFields : list string :=
  ["password"; "token"; "refreshToken"; "apiKey"; "secret"].

Definition has_property (props : list (string * json)) (field : string) : bool :=
  bool_decide (is_Some (get props field)).

Definition maskSensitiveData (data : list (string * json)) : list (string * json) :=
  foldl (fun masked field =>
           if has_property masked field then set_property masked field (JStr "***REDACTED***")
           else masked)
        data sensitiveFields.

(** [value.split(',')]: the pieces between the commas, at least one. *)
Fixpoint split_commas (value : string) : list string :=
  match value with
  | EmptyString => [EmptyString]
  | String c rest =>
      if Ascii.eqb c "," then EmptyString :: split_commas rest
      else match split_commas rest with
           | piece :: pieces => String c piece :: pieces
           | [] => [String c EmptyString]
           end
  end.

(** The white space and line terminators among the first 256 code units. *)
Definition is_space (c : ascii) : bool :=
  bool_decide (nat_of_ascii c ∈ [9; 10; 11; 12; 13; 32; 160]%nat).

Fixpoint trimStart (s : string) : string :=
  match s with
  | String c rest => if is_space c then trimStart rest else s
  | EmptyString => EmptyString
  end.

(** [trimEnd], from the right: a blank is dropped when all that follows it
    is dropped. *)
Fixpoint trimEnd (s : string) : string :=
  match s with
  | String c rest =>
      match trimEnd rest with
      | EmptyString => if is_space c then EmptyString else String c EmptyString
      | kept => String c kept
      end
  | EmptyString => EmptyString
  end.

Definition trim (s : string) : string := trimEnd (trimStart s).

(** [parseArray]; [filter(Boolean)] drops the empty strings. *)
Definition parseArray (value : option string) : option (list string) :=
  match value with
  | Some (String c rest) =>
      Some (filter (fun item => item <> EmptyString) (trim <$> split_commas (String c rest)))
  | _ => None
  end.

End Helpers.

(** ** services/resource.service.ts: the single-resource operations

    The resource table is passed in and out. [prisma_update row data] is the
    row that Prisma's [update] writes and returns for an existing row. *)
Module ResourceService.

Section Operations.
Context (A : Ambient) (prisma_update : Resource -> json -> Resource).

Definition getById (db : gmap string Resource) (id userId : string) (userRole : Role)
  : Result Resource :=
  match db !! id with
  | None => Throw (EApp (NotFoundError "Resource not found"))
  | Some resource =>
      if bool_decide (userRole ≠ ADMIN) && bool_decide (ownerId resource ≠ userId) then
        Throw (EApp (ForbiddenError "You do not have permission to view this resource"))
      else Ok resource
  end.

Definition update (db : gmap string Resource) (id : string) (data : json)
    (userId : string) (userRole : Role)
  : Result Resource * gmap string Resource :=
  match db !! id with
  | None => (Throw (EApp (NotFoundError "Resource not found")), db)
  | Some resource =>
      if bool_decide (userRole ≠ ADMIN) && bool_decide (ownerId resource ≠ userId) then
        (Throw (EApp (ForbiddenError "You do not have permission to update this resource")), db)
      else
        let sanitizedData := Helpers.sanitizeObject A data in
        let updatedResource := prisma_update resource sanitizedData in
        (Ok updatedResource, <[id := updatedResource]> db)
  end.

Definition delete (db : gmap string Resource) (id userId : string) (userRole : Role)
  : Result unit * gmap string Resource :=
  match db !! id with
  | None => (Throw (EApp (NotFoundError "Resource not found")), db)
  | Some resource =>
      if bool_decide (userRole ≠ ADMIN) && bool_decide (ownerId resource ≠ userId) then
        (Throw (EApp (ForbiddenError "You do not have permission to delete this resource")), db)
      else (Ok tt, base.delete id db)
  end.

End Operations.

(** [list], with [findMany] and [buildWhereClause] of the resource
    repository. The query itself is Prisma's: [prisma_findMany where skip take]
    are the rows it returns and [prisma_count where] their number. *)
Record ResourceFilters := mkFilters {
  filter_status : option string;
  filter_category : option string;
  filter_tags : option (list string);
  filter_ownerId : option string;
  filter_search : option string;
  filter_startDate : option Z;
  filter_endDate : option Z
}.

Record WhereInput := mkWhere {
  where_status : option string;
  where_category : option string;
  where_tags_hasSome : option (list string);
  where_ownerId : option string;
  where_OR_contains : option string;
  where_createdAt : option (option Z * option Z)
}.

(** [if (s)] on an optional string: present and not empty. *)
Definition truthy (s : option string) : option string :=
  match s with
  | Some (String c r) => Some (String c r)
  | _ => None
  end.

Definition buildWhereClause (filters : ResourceFilters) : WhereInput :=
  mkWhere
    (truthy (filter_status filters))
    (truthy (filter_category filters))
    (match filter_tags filters with
     | Some (t :: ts) => Some (t :: ts)
     | _ => None
     end)
    (truthy (filter_ownerId filters))
    (truthy (filter_search filters))
    (match filter_startDate filters, filter_endDate filters with
     | None, None => None
     | gte, lte => Some (gte, lte)
     end).

Section Listing.
Context (prisma_findMany : WhereInput -> number -> number -> list Resource)
        (prisma_count : WhereInput -> Z).

Definition findMany (filters : ResourceFilters) (pagination : Helpers.PaginationParams)
  : list Resource * Z :=
  let whereInput := buildWhereClause filters in
  (prisma_findMany whereInput (Helpers.skip pagination) (Helpers.limit pagination),
   prisma_count whereInput).

(** [list] of the service (primed: [list] is taken). *)
Definition list' (filters : ResourceFilters) (pagination : Helpers.PaginationParams)
    (userId : string) (userRole : Role) : list Resource * Z :=
  let filters :=
    if bool_decide (userRole <> ADMIN) then
      mkFilters (filter_status filters) (filter_category filters) (filter_tags filters)
                (Some userId) (filter_search filters)
                (filter_startDate filters) (filter_endDate filters)
    else filters in
  findMany filters pagination.

End Listing.

End ResourceService.

(** ** middleware/validate.middleware.ts: validate *)
Module Validate.

(** An element of [ZodIssue.path]: a property name or an array index. *)
Inductive PathSegment :=
| PKey (name : string)
| PIndex (i : nat).

Definition segment_text (seg : PathSegment) : string :=
  match seg with PKey name => name | PIndex i => pretty i end.

Record ZodIssue := mkZodIssue {
  issue_path : list PathSegment;
  issue_message : string
}.

(** How [schema.parseAsync] ends: it resolves, rejects with a [ZodError]
    carrying its issues, or rejects with something else. *)
Inductive ParseResult :=
| Parsed
| ZodError (issues : list ZodIssue)
| Rejected (error : Exn).

(** A schema, by what it does to [{ body, query, params }]. *)
Definition AnyZodObject : Type :=
  option json -> json -> list (string * string) -> ParseResult.

(** [err.path.join('.') || 'unknown'] *)
Definition issue_field (err : ZodIssue) : string :=
  match String.concat "." (segment_text <$> issue_path err) with
  | EmptyString => "unknown"
  | joined => joined
  end.

Definition format_issue (err : ZodIssue) : string :=
  issue_field err +:+ ": " +:+ issue_message err.

Definition validate (schema : AnyZodObject) : Middleware := fun _ req =>
  match schema (body req) (query req) (params req) with
  | Parsed => Next req
  | ZodError issues =>
      let errors := format_issue <$> issues in
      NextErr (EApp (ValidationError "Validation failed" (Some errors)))
  | Rejected error => NextErr error
  end.

End Validate.

(** ** middleware/errorHandler.middleware.ts *)
Module ErrorHandler.

(** The JSON body of an error response; [stack] records whether a stack
    trace is attached. *)
Record ErrorResponse := mkErrorResponse {
  status : string;
  resp_message : string;
  resp_errors : option (list string);
  stack : bool
}.

Record Response := mkResponse {
  http_status : Z;
  json_body : ErrorResponse
}.

Definition handlePrismaError (code : string) (target : option (list string)) : Z * string :=
  if bool_decide (code = "P2002") then
    (409, "Duplicate value for " +:+
          match target with
          | Some t => match String.concat ", " t with
                      | EmptyString => "field"
                      | joined => joined
                      end
          | None => "field"
          end)
  else if bool_decide (code = "P2025") then (404, "Resource not found")
  else if bool_decide (code = "P2003") then (400, "Invalid reference to related resource")
  else if bool_decide (code = "P2014") then (400, "Operation would violate data integrity")
  else (500, "Database error occurred").

Definition errorHandler (A : Ambient) (error : Exn) : Response :=
  let isDevelopment := bool_decide (NODE_ENV A = Some "development") in
  match error with
  | EApp e =>
      mkResponse (statusCode e)
        (mkErrorResponse "error" (message e)
           (match errors e with
            | Some (x :: l) => Some (x :: l)
            | _ => None
            end)
           isDevelopment)
  | EPrismaKnownRequest code target =>
      let '(sc, msg) := handlePrismaError code target in
      mkResponse sc (mkErrorResponse "error" msg None false)
  | EPrismaValidation =>
      mkResponse 400 (mkErrorResponse "error" "Invalid data provided" None false)
  | EOther _ msg =>
      mkResponse 500
        (mkErrorResponse "error"
           (if isDevelopment then msg else "Internal server error")
           None isDevelopment)
  end.

(** A route: its middlewares in order, then the controller. A middleware
    that ends in [next(error)] hands the error to the error handler, and
    nothing after it on the route runs. *)
Fixpoint run_route {R : Type} (A : Ambient) (render : Response -> R)
    (chain : list Middleware) (controller : Request -> R) (req : Request) : R :=
  match chain with
  | [] => controller req
  | m :: rest =>
      match m A req with
      | Next req' => run_route A render rest controller req'
      | NextErr error => render (errorHandler A error)
      end
  end.

End ErrorHandler.

(** ** middleware/rateLimiter.middleware.ts *)
Module RateLimiter.

(** The options the source passes to [rateLimit], and the message of its
    [handler]. *)
Record Policy := mkPolicy {
  windowMs : Z;
  max : Z;
  skipSuccessfulRequests : bool;
  handler_message : string
}.

Definition apiLimiter : Policy :=
  mkPolicy (15 * 60 * 1000) 100 false "Too many requests, please try again later".

Definition authLimiter : Policy :=
  mkPolicy (15 * 60 * 1000) 5 true
           "Too many authentication attempts, please try again later".

Definition createResourceLimiter : Policy :=
  mkPolicy (60 * 60 * 1000) 50 false
           "Too many resources created, please try again later".

(** The [handler] of the three limiters: status 429 and the error shape. *)
Definition handler (p : Policy) : ErrorHandler.Response :=
  ErrorHandler.mkResponse 429
    (ErrorHandler.mkErrorResponse "error" (handler_message p) None false).

Record Bucket := mkBucket {
  windowStart : Z;
  count : Z
}.

Inductive Decision := Allow | Deny.

(** Modelled from the spec: the function [rateLimit] of the library
    express-rate-limit, which holds the counters, is not among the sources.
    The spec (4.3): if there is no bucket or the window expired, create or
    reset the bucket with count 1 and allow; else increment, and deny when
    the resulting count exceeds the maximum, without decrementing. The window
    of a bucket has elapsed once [windowMs] has passed since its start. *)
Definition check (p : Policy) (now : Z) (key : string) (buckets : gmap string Bucket)
  : Decision * gmap string Bucket :=
  match buckets !! key with
  | Some b =>
      if bool_decide (windowStart b + windowMs p <= now) then
        (Allow, <[key := mkBucket now 1]> buckets)
      else
        let c := count b + 1 in
        (if bool_decide (c > max p) then Deny else Allow,
         <[key := mkBucket (windowStart b) c]> buckets)
  | None => (Allow, <[key := mkBucket now 1]> buckets)
  end.

(** Modelled from the spec: the policy option that excludes successful
    attempts from the count ([skipSuccessfulRequests], "Don't count
    successful requests" in the source). When the response of an allowed
    request has a status below 400 the hit is taken back. *)
Definition settle (p : Policy) (key : string) (response_status : Z)
    (buckets : gmap string Bucket) : gmap string Bucket :=
  if skipSuccessfulRequests p && bool_decide (response_status < 400) then
    match buckets !! key with
    | Some b => <[key := mkBucket (windowStart b) (count b - 1)]> buckets
    | None => buckets
    end
  else buckets.

(** A request as the limiter sees it: when it arrives, its key ([req.ip]),
    and the status with which the rest of the route answers if let through. *)
Record Hit := mkHit {
  at_time : Z;
  hit_key : string;
  downstream_status : Z
}.

(** One request through the limiter: the status the client receives, and the
    buckets afterwards. *)
Definition serve (p : Policy) (h : Hit) (buckets : gmap string Bucket)
  : Z * gmap string Bucket :=
  match check p (at_time h) (hit_key h) buckets with
  | (Deny, buckets') => (ErrorHandler.http_status (handler p), buckets')
  | (Allow, buckets') =>
      (downstream_status h, settle p (hit_key h) (downstream_status h) buckets')
  end.

(** Requests served one after the other. *)
Fixpoint serve_all (p : Policy) (hits : list Hit) (buckets : gmap string Bucket)
  : list Z * gmap string Bucket :=
  match hits with
  | [] => ([], buckets)
  | h :: rest =>
      let '(st, buckets') := serve p h buckets in
      let '(sts, buckets'') := serve_all p rest buckets' in
      (st :: sts, buckets'')
  end.

End RateLimiter.

(** ** services/auth.service.ts: register and changePassword

    The user repository is not among the sources: it is an interface here,
    over a state of rows that is passed in and out. [bcrypt_hash] is the
    hashing function of the library. *)
Module Accounts.

Record RegisterUserDto := mkRegisterDto {
  register_email : string;
  register_password : string;
  register_name : string
}.

Record CreateUserInput := mkCreateUser {
  create_email : string;
  create_password : string;
  create_name : string;
  create_role : Role
}.

Record UserRepository (Repo : Type) := mkUserRepository {
  repo_findById : Repo -> string -> option User;
  repo_findByEmail : Repo -> string -> option User;
  repo_create : Repo -> CreateUserInput -> User * Repo;
  repo_update_password : Repo -> string -> string -> Repo
}.
Arguments repo_findById {Repo} _ _ _.
Arguments repo_findByEmail {Repo} _ _ _.
Arguments repo_create {Repo} _ _ _.
Arguments repo_update_password {Repo} _ _ _ _.

(** The environment of a request when the repository is in state [repo]. *)
Definition ambient_on {Repo : Type} (ops : UserRepository Repo) (A : Ambient) (repo : Repo)
  : Ambient :=
  mkAmbient (repo_findById ops repo) (repo_findByEmail ops repo)
            (jwt_verify A) (jwt_sign A) (bcrypt_compare A) (xss A)
            (JWT_SECRET A) (JWT_EXPIRES_IN A) (NODE_ENV A).

Definition saltRounds : Z := 10.

(** The row [u] with another stored hash. *)
Definition with_password (hashed : string) (u : User) : User :=
  mkUser (user_id u) (user_email u) hashed (user_name u) (user_role u) (user_isActive u).

Section Service.
Context {Repo : Type} (ops : UserRepository Repo) (bcrypt_hash : string -> Z -> string)
        (A : Ambient).

Definition register (repo : Repo) (data : RegisterUserDto) : Result LoginResponse * Repo :=
  match repo_findByEmail ops repo (register_email data) with
  | Some existingUser =>
      (Throw (EApp (ConflictError "User with this email already exists")), repo)
  | None =>
      let hashedPassword := bcrypt_hash (register_password data) saltRounds in
      let '(user, repo') :=
        repo_create ops repo
          (mkCreateUser (register_email data) hashedPassword (register_name data) USER) in
      (AuthService.generateLoginResponse A user, repo')
  end.

Definition changePassword (repo : Repo) (userId currentPassword newPassword : string)
  : Result unit * Repo :=
  match repo_findById ops repo userId with
  | None => (Throw (EApp (BadRequestError "User not found" None)), repo)
  | Some user =>
      let isPasswordValid := bcrypt_compare A currentPassword (user_password user) in
      if negb isPasswordValid then
        (Throw (EApp (UnauthorizedError "Current password is incorrect")), repo)
      else
        let hashedPassword := bcrypt_hash newPassword saltRounds in
        (Ok tt, repo_update_password ops repo userId hashedPassword)
  end.

End Service.

End Accounts.

(** ** controllers/resource.controller.ts and routes/resource.routes.ts:
       reading one resource *)
Module ResourceController.
Import ErrorHandler.

Record ApiResponse (T : Type) := mkApiResponse {
  api_status : string;
  api_message : option string;
  api_data : option T
}.
Arguments mkApiResponse {T} _ _ _.
Arguments api_status {T} _.
Arguments api_message {T} _.
Arguments api_data {T} _.

(** [createResponse] without its [meta]; an empty message is left out. *)
Definition createResponse {T : Type} (status : string) (data : option T)
    (message : option string) : ApiResponse T :=
  mkApiResponse status
    (match message with
     | Some (String c s) => Some (String c s)
     | _ => None
     end)
    data.

(** What the client receives: an error rendered by the error handler, or
    [res.status(code).json(body)]. *)
Inductive HttpResponse (T : Type) :=
| Failed (response : Response)
| Sent (code : Z) (body : ApiResponse T).
Arguments Failed {T} response.
Arguments Sent {T} code body.

(** [getResource] under [asyncHandler]: what the service throws goes to the
    error handler. Express fills [req.params.id] on the route [/:id]; without
    it the query has no key and Prisma rejects it. Reading [req.user!.id]
    without a user is a [TypeError]. *)
Definition getResource (A : Ambient) (db : gmap string Resource) (req : Request)
  : HttpResponse Resource :=
  match user req with
  | None =>
      Failed (errorHandler A
                (EOther "TypeError" "Cannot read properties of undefined (reading 'id')"))
  | Some u =>
      match (list_to_map (params req) : gmap string string) !! "id" with
      | None => Failed (errorHandler A EPrismaValidation)
      | Some rid =>
          match ResourceService.getById db rid (id u) (role u) with
          | Ok resource =>
              Sent 200 (createResponse "success" (Some resource)
                          (Some "Resource retrieved successfully"))
          | Throw e => Failed (errorHandler A e)
          end
      end
  end.

(** [GET /:id] of the resource router: the two middlewares of the router,
    the validation of the route, the controller. *)
Definition get_resource_route (A : Ambient) (resourceIdSchema : Validate.AnyZodObject)
    (db : gmap string Resource) (req : Request) : HttpResponse Resource :=
  run_route A Failed
    [AuthMiddleware.authenticate; Rbac.requireUserOrAdmin; Validate.validate resourceIdSchema]
    (getResource A db) req.

End ResourceController.

(** ** A small deployment to run the definitions on

    Three users as the seed script creates them (one of them deactivated
    afterwards), and stand-ins for the libraries that answer on a handful of
    inputs. *)
Module Demo.

Definition admin : User :=
  mkUser "u-admin" "admin@example.com" "hash(Password123!)" "Admin User" ADMIN true.
Definition regular : User :=
  mkUser "u-user" "user@example.com" "hash(Password123!)" "Regular User" USER true.
Definition retired : User :=
  mkUser "u-retired" "retired@example.com" "hash(Password123!)" "Former User" USER false.

Definition users : list User := [admin; regular; retired].

Definition payload_of (u : User) : JwtPayload :=
  mkJwtPayload (user_id u) (user_email u) (user_role u) (Some 1700000000) (Some 1700086400).

(** Tokens are recognised by name: one per user, one for a user that was
    deleted, one expired, one not yet valid; anything else is malformed. *)
Definition verify (token secret : string) : JwtVerify :=
  if bool_decide (token = "token.of.admin") then Decoded (payload_of admin)
  else if bool_decide (token = "token.of.user") then Decoded (payload_of regular)
  else if bool_decide (token = "token.of.retired") then Decoded (payload_of retired)
  else if bool_decide (token = "token.of.ghost") then
    Decoded (mkJwtPayload "u-ghost" "ghost@example.com" USER None None)
  else if bool_decide (token = "token.expired") then
    JwtThrows (TokenExpiredError "jwt expired" 1700086400)
  else if bool_decide (token = "token.early") then
    JwtThrows (NotBeforeError "jwt not active")
  else if bool_decide (token = "token.crash") then
    JwtThrows (ForeignError "TypeError" "Cannot read properties of undefined")
  else JwtThrows (JsonWebTokenError "jwt malformed").

Definition ambient : Ambient :=
  mkAmbient
    (fun i => List.find (fun u => bool_decide (user_id u = i)) users)
    (fun e => List.find (fun u => bool_decide (user_email u = e)) users)
    verify
    (fun payload _ _ => Signed ("token.of." +:+ userId payload))
    (fun plain hash => bool_decide (hash = "hash(" +:+ plain +:+ ")"))
    (fun s => s)
    None None (Some "production").

Definition request (auth : option string) (u : option AuthUser) : Request :=
  mkRequest auth (Some (JObj [])) (JObj []) [("id", "r-1")] "/api/resources/r-1" "203.0.113.7" u.

Definition with_body (b : json) : Request :=
  mkRequest None (Some b) (JObj []) [] "/api/resources" "203.0.113.7"
            (Some (mkAuthUser "u-user" "user@example.com" USER true)).

(** The name zod gives to the type of a value in its messages. *)
Definition zod_type (v : json) : string :=
  match v with
  | JNull => "null"
  | JBool _ => "boolean"
  | JNum _ => "number"
  | JStr _ => "string"
  | JArr _ => "array"
  | JObj _ => "object"
  end.

(** A stand-in for zod on two fields of [createResourceSchema]: the title
    is a string of at least 3 characters, and there are at most 10 tags. *)
Definition title_issues (props : list (string * json)) : list Validate.ZodIssue :=
  match get props "title" with
  | Some (JStr t) =>
      if (String.length t <? 3)%nat then
        [Validate.mkZodIssue [Validate.PKey "body"; Validate.PKey "title"]
           "Title must be at least 3 characters"]
      else []
  | Some v =>
      [Validate.mkZodIssue [Validate.PKey "body"; Validate.PKey "title"]
         ("Expected string, received " +:+ zod_type v)]
  | None =>
      [Validate.mkZodIssue [Validate.PKey "body"; Validate.PKey "title"] "Required"]
  end.

Definition tags_issues (props : list (string * json)) : list Validate.ZodIssue :=
  match get props "tags" with
  | Some (JArr tags) =>
      if (10 <? length tags)%nat then
        [Validate.mkZodIssue [Validate.PKey "body"; Validate.PKey "tags"]
           "Maximum 10 tags allowed"]
      else []
  | Some v =>
      [Validate.mkZodIssue [Validate.PKey "body"; Validate.PKey "tags"]
         ("Expected array, received " +:+ zod_type v)]
  | None => []
  end.

Definition createResourceSchema : Validate.AnyZodObject := fun body _ _ =>
  match body with
  | Some (JObj props) =>
      match title_issues props ++ tags_issues props with
      | [] => Validate.Parsed
      | issues => Validate.ZodError issues
      end
  | Some v =>
      Validate.ZodError
        [Validate.mkZodIssue [Validate.PKey "body"] ("Expected object, received " +:+ zod_type v)]
  | None => Validate.ZodError [Validate.mkZodIssue [Validate.PKey "body"] "Required"]
  end.

Definition bad_body : json :=
  JObj [("title", JStr "ab"); ("tags", JStr "none")].

(** Stand-ins for zod on the two schemas of [PUT /:id]. Of
    [resourceIdSchema]: the id has the 36 characters of a UUID. Of
    [updateResourceSchema]: the title, when there is one, is a string of at
    least 3 characters. *)
Definition resourceIdSchema : Validate.AnyZodObject := fun _ _ params =>
  match (list_to_map params : gmap string string) !! "id" with
  | Some i =>
      if bool_decide (String.length i = 36%nat) then Validate.Parsed
      else Validate.ZodError
             [Validate.mkZodIssue [Validate.PKey "params"; Validate.PKey "id"]
                "Invalid resource ID format"]
  | None =>
      Validate.ZodError
        [Validate.mkZodIssue [Validate.PKey "params"; Validate.PKey "id"] "Required"]
  end.

Definition updateResourceSchema : Validate.AnyZodObject := fun body _ _ =>
  match body with
  | Some (JObj props) =>
      match get props "title" with
      | None => Validate.Parsed
      | Some (JStr t) =>
          if (String.length t <? 3)%nat then
            Validate.ZodError
              [Validate.mkZodIssue [Validate.PKey "body"; Validate.PKey "title"]
                 "Title must be at least 3 characters"]
          else Validate.Parsed
      | Some v =>
          Validate.ZodError
            [Validate.mkZodIssue [Validate.PKey "body"; Validate.PKey "title"]
               ("Expected string, received " +:+ zod_type v)]
      end
  | Some v =>
      Validate.ZodError
        [Validate.mkZodIssue [Validate.PKey "body"] ("Expected object, received " +:+ zod_type v)]
  | None => Validate.ZodError [Validate.mkZodIssue [Validate.PKey "body"] "Required"]
  end.

(** [PUT /api/resources/42] with the body [{"title": "ab"}]: neither the id
    nor the title is acceptable. *)
Definition bad_put : Request :=
  mkRequest None (Some (JObj [("title", JStr "ab")])) (JObj []) [("id", "42")]
            "/api/resources/42" "203.0.113.7"
            (Some (mkAuthUser "u-user" "user@example.com" USER true)).

Definition resources : gmap string Resource :=
  {[ "r-1" := mkResource "r-1" "u-admin" (JObj [("title", JStr "Getting Started Guide")]);
     "r-3" := mkResource "r-3" "u-user" (JObj [("title", JStr "API Reference")]) ]}.

(** A stand-in for Prisma's [update]: the given columns replace the old. *)
Definition replace_columns (row : Resource) (data : json) : Resource :=
  mkResource (resource_id row) (ownerId row) data.

End Demo.

(** ** A second deployment, with a repository that can be written to

    The rows are a list; a token names its user and nothing else. *)
Module Demo2.
Import Accounts.

Definition set_password (h : string) (u : User) : User :=
  mkUser (user_id u) (user_email u) h (user_name u) (user_role u) (user_isActive u).

Definition rows : UserRepository (list User) :=
  mkUserRepository (list User)
    (fun repo i => List.find (fun u => bool_decide (user_id u = i)) repo)
    (fun repo e => List.find (fun u => bool_decide (user_email u = e)) repo)
    (fun repo input =>
       let u := mkUser ("id:" +:+ create_email input) (create_email input)
                       (create_password input) (create_name input) (create_role input) true in
       (u, repo ++ [u]))
    (fun repo i h =>
       (fun u => if bool_decide (user_id u = i) then set_password h u else u) <$> repo).

Definition hash (plain : string) (rounds : Z) : string := "bcrypt(" +:+ plain +:+ ")".

(** A stand-in for jsonwebtoken: it refuses to sign with the time span
    "soon". *)
Definition sign (payload : JwtPayload) (secret expires : string) : JwtSign :=
  if bool_decide (expires = "soon") then
    SignThrows "Error" "expiresIn should be a number of seconds or a timespan"
  else Signed ("jwt:" +:+ userId payload).

Definition verify (token secret : string) : JwtVerify :=
  if String.prefix "jwt:" token then
    Decoded (mkJwtPayload (AuthMiddleware.substring_from 4 token) "" GUEST None None)
  else JwtThrows (JsonWebTokenError "jwt malformed").

Definition base : Ambient :=
  mkAmbient
    (fun _ => None) (fun _ => None) verify sign
    (fun plain hashed => bool_decide (hashed = hash plain 10))
    (fun s => s)
    (Some "s3cret") (Some "2h") (Some "production").

(** The same deployment with [JWT_EXPIRES_IN=soon]. *)
Definition misconfigured : Ambient :=
  mkAmbient
    (fun _ => None) (fun _ => None) verify sign
    (fun plain hashed => bool_decide (hashed = hash plain 10))
    (fun s => s)
    (Some "s3cret") (Some "soon") (Some "production").

Definition ann : User :=
  mkUser "id:ann@example.com" "ann@example.com" (hash "correct horse" 10) "Ann" USER true.

Definition guest : User :=
  mkUser "id:guest@example.com" "guest@example.com" (hash "visitor" 10) "Guest" GUEST true.

Definition with_header (h : string) : Request :=
  mkRequest (Some h) None (JObj []) [("id", "r-3")] "/api/resources/r-3" "203.0.113.9" None.

End Demo2.

(** ** The vocabulary of the properties *)

Module TtlSpec.

(** A duration expression, in the spec's words: an integer is a non-empty
    string of decimal digits, read in base ten; a unit is one of s, m, h, d,
    worth so many seconds. *)
Definition decimal_digits : list ascii :=
  ["0"; "1"; "2"; "3"; "4"; "5"; "6"; "7"; "8"; "9"]%char.

(** The value of a digit is its place among the ten. *)
Definition digit_of (c : ascii) : option Z :=
  (fun found => Z.of_nat found.1) <$> list_find (fun d => d = c) decimal_digits.

Fixpoint all_digits (s : string) : bool :=
  match s with
  | String c s' => bool_decide (is_Some (digit_of c)) && all_digits s'
  | EmptyString => true
  end.

Fixpoint decimal_value (s : string) : Z :=
  match s with
  | String c s' => default 0 (digit_of c) * 10 ^ Z.of_nat (String.length s') + decimal_value s'
  | EmptyString => 0
  end.

Definition unit_seconds (unit : ascii) : option Z :=
  match unit with
  | "s"%char => Some 1
  | "m"%char => Some 60
  | "h"%char => Some 3600
  | "d"%char => Some 86400
  | _ => None
  end.

Definition duration_form (s : string) : Prop :=
  exists (ds : string) (unit : ascii),
    s = ds +:+ String unit EmptyString /\
    ds <> EmptyString /\ all_digits ds = true /\ is_Some (unit_seconds unit).

End TtlSpec.

Module TokenSpec.

(** The three messages of a failed verification. *)
Definition token_messages : list string :=
  ["Token has expired"; "Invalid token"; "Token verification failed"].

End TokenSpec.

Module SanitizerSpec.
Import Sanitizer.

(** No property name, at any depth, is dangerous. *)
Fixpoint clean (v : json) : bool :=
  match v with
  | JObj props => forallb (fun '(k, x) => negb (dangerous k) && clean x) props
  | JArr items => forallb clean items
  | _ => true
  end.

Fixpoint json_size (v : json) : nat :=
  match v with
  | JObj props => S (sum_list ((fun '(_, x) => json_size x) <$> props))
  | JArr items => S (sum_list (json_size <$> items))
  | _ => 1
  end.

(** What [sanitizeObject] stores under a key that it keeps. *)
Definition sanitized_value (value : json) : json :=
  match value with
  | JObj _ => sanitizeObject value
  | JArr items =>
      JArr ((fun item => if is_object item then sanitizeObject item else item) <$> items)
  | _ => value
  end.

Definition step (sanitized : list (string * json)) (entry : string * json)
  : list (string * json) :=
  sanitize_entry sanitizeObject sanitized entry.1 entry.2.

Definition own_properties (v : json) : list (string * json) :=
  match v with JObj props => props | _ => [] end.

Definition props_clean (props : list (string * json)) : bool :=
  forallb (fun '(k, x) => negb (dangerous k) && clean x) props.

End SanitizerSpec.

Module ValidateSpec.
Import Validate.

(** The field an entry names, in the spec's words: the path of the
    violation, its segments joined by dots; "unknown" when that is empty. *)
Definition field_of (issue : ZodIssue) : string :=
  let joined :=
    String.concat "."
      ((fun seg => match seg with PKey name => name | PIndex i => pretty i end)
         <$> issue_path issue) in
  if bool_decide (joined = "") then "unknown" else joined.

(** The violations of the schemas that a route validates, one schema after
    the other. *)
Definition violations (schemas : list AnyZodObject) (req : Request) : list ZodIssue :=
  schemas ≫= (fun schema =>
    match schema (body req) (query req) (params req) with
    | ZodError issues => issues
    | _ => []
    end).

End ValidateSpec.

Module RateLimiterSpec.
Import RateLimiter.

(** A hit counts against the limit unless the policy skips successful
    requests and the route answers it with a status below 400. *)
Definition counted (p : Policy) (h : Hit) : Prop :=
  skipSuccessfulRequests p = false \/ 400 <= downstream_status h.

#[global] Instance counted_dec (p : Policy) (h : Hit) : base.Decision (counted p h).
Proof. unfold counted. apply _. Defined.

(** How many of [hits] count against the limit. *)
Definition counted_among (p : Policy) (hits : list Hit) : Z :=
  Z.of_nat (length (filter (counted p) hits)).

(** No window is running for [key] at time [now]. *)
Definition no_window (p : Policy) (key : string) (now : Z) (buckets : gmap string Bucket)
  : Prop :=
  match buckets !! key with
  | None => True
  | Some b => windowStart b + windowMs p <= now
  end.

(** The statuses received by the requests of [key], in order. *)
Definition key_statuses (key : string) (hits : list Hit) (statuses : list Z) : list Z :=
  (filter (fun hs => hit_key hs.1 = key) (zip hits statuses)).*2.

(** Scenario B: six failed logins from one address within fifteen minutes,
    with another client in between. *)
Definition failed_logins : list Hit :=
  [mkHit 0 "203.0.113.7" 401; mkHit 60000 "203.0.113.7" 401;
   mkHit 90000 "198.51.100.2" 200;
   mkHit 120000 "203.0.113.7" 401; mkHit 180000 "203.0.113.7" 401;
   mkHit 240000 "203.0.113.7" 401; mkHit 300000 "203.0.113.7" 401].

(** Guesses at a password from one address, with a successful login of the
    same address after the second: six failures and one success. *)
Definition guesses : list Hit :=
  [mkHit 0 "203.0.113.7" 401; mkHit 60000 "203.0.113.7" 401;
   mkHit 90000 "203.0.113.7" 200;
   mkHit 120000 "203.0.113.7" 401; mkHit 180000 "203.0.113.7" 401;
   mkHit 240000 "203.0.113.7" 401; mkHit 300000 "203.0.113.7" 401].

(** A policy that allows nothing. *)
Definition closed : Policy := mkPolicy 60000 0 false "Too many requests".

End RateLimiterSpec.

(** ** The vocabulary of the further properties *)

Module AuthMiddlewareSpec.

(** The messages with which [authenticate] can refuse. *)
Definition authenticate_messages : list string :=
  ["No token provided"; "Token has expired"; "Invalid token";
   "Token verification failed"; "User not found"; "Account is inactive"].

End AuthMiddlewareSpec.

Module HelperSpec.
Import Helpers.

(** One turn of the loop of [maskSensitiveData]. *)
Definition redact (masked : list (string * json)) (field : string) : list (string * json) :=
  if has_property masked field then set_property masked field (JStr "***REDACTED***")
  else masked.

(** What the XSS sanitizer stores for an element of an array, and for the
    value of a property. *)
Definition xss_item (A : Ambient) (item : json) : json :=
  match item with
  | JStr s => JStr (sanitizeInput A s)
  | _ => item
  end.

Definition xss_value (A : Ambient) (value : json) : json :=
  match value with
  | JStr s => JStr (sanitizeInput A s)
  | JArr items => JArr (xss_item A <$> items)
  | JObj _ => sanitizeObject A value
  | _ => value
  end.

Definition xss_step (A : Ambient) (sanitized : list (string * json)) (entry : string * json)
  : list (string * json) :=
  set_property sanitized entry.1 (xss_value A entry.2).

(** A piece holds a comma; a string starts, or ends, with white space. *)
Fixpoint has_comma (s : string) : bool :=
  match s with
  | String c rest => Ascii.eqb c "," || has_comma rest
  | EmptyString => false
  end.

Definition starts_blank (s : string) : bool :=
  match s with
  | String c _ => is_space c
  | EmptyString => false
  end.

Fixpoint ends_blank (s : string) : bool :=
  match s with
  | String c EmptyString => is_space c
  | String _ rest => ends_blank rest
  | EmptyString => false
  end.

End HelperSpec.

Module SanitizerMoreSpec.
Import Sanitizer SanitizerSpec.

(** The properties that the loop of [sanitizeObject] builds: distinct
    names, none dangerous, none [__proto__], values that the sanitizer
    leaves alone. *)
Definition settled (props : list (string * json)) : Prop :=
  NoDup props.*1 /\
  Forall (fun kv => dangerous kv.1 = false /\ kv.1 <> "__proto__" /\
                    sanitized_value kv.2 = kv.2) props.

(** The name of an array entry: decimal digits only. *)
Fixpoint decimal_name (s : string) : bool :=
  match s with
  | String c s' => Ttl.is_digit c && decimal_name s'
  | EmptyString => true
  end.

(** No property, at any depth, is named [__proto__]: on such a value no
    assignment of the sanitizer reaches the prototype of a result, and a
    result is told by its own properties. *)
Fixpoint proto_free (v : json) : bool :=
  match v with
  | JObj props =>
      forallb (fun '(k, x) => negb (bool_decide (k = "__proto__")) && proto_free x) props
  | JArr items => forallb proto_free items
  | _ => true
  end.

End SanitizerMoreSpec.

Module DemoQueries.
Import ResourceService Validate.

(** A stand-in for Prisma's query: the rows of the demonstration table whose
    owner the query names, if it names one. *)
Definition demo_findMany (whereInput : WhereInput) (skip take : number) : list Resource :=
  match where_ownerId whereInput with
  | Some owner => filter (fun row => ownerId row = owner) ((map_to_list Demo.resources).*2)
  | None => (map_to_list Demo.resources).*2
  end.

(** The schema of the route, as far as the demonstration goes: an id is
    required. *)
Definition demo_id_schema : AnyZodObject := fun _ _ params =>
  match (list_to_map params : gmap string string) !! "id" with
  | Some _ => Parsed
  | None => ZodError [mkZodIssue [PKey "params"; PKey "id"] "Required"]
  end.

End DemoQueries.

(* ===================================================================== *)
(** * Part II: the properties                                            *)
(* ===================================================================== *)

(** ** Numbers: where the arithmetic of doubles is exact *)
Module NumberFacts.
Import Number.

Lemma below_overflow (z : Z) : z <= 2 ^ 54 -> z < 2 ^ 1024.
Proof.
  intros Hz. assert (2 ^ 54 < 2 ^ 1024) by (apply Z.pow_lt_mono_r; lia). lia.
Qed.

Lemma round_exact (z : Z) : Z.abs z <= 2 ^ 53 -> round z = z.
Proof.
  intros Hz. unfold round. destruct (Z.ltb_spec (Z.abs z) (2 ^ 53)) as [_ | Hbig]; [reflexivity |].
  assert (Z.abs z = 2 ^ 53) as Habs by lia.
  rewrite Habs. destruct (Z.abs_eq_or_opp z) as [Hz' | Hz'].
  - rewrite <- Hz', Habs. reflexivity.
  - assert (z = - 2 ^ 53) as -> by lia. reflexivity.
Qed.

(** From 2^53 to 2^54 the doubles are the even integers. *)
Lemma round_even (z : Z) : 0 <= z <= 2 ^ 54 -> Z.even z = true -> round z = z.
Proof.
  intros Hz Heven.
  destruct (Z.le_gt_cases z (2 ^ 53)) as [Hsmall | Hbig]; [apply round_exact; lia |].
  destruct (Z.eq_dec z (2 ^ 54)) as [-> | Hne]; [reflexivity |].
  unfold round. rewrite Z.abs_eq by lia.
  destruct (Z.ltb_spec z (2 ^ 53)) as [? | _]; [lia |].
  assert (Z.log2 z = 53) as ->.
  { apply Z.log2_unique; [lia |]. change (Z.succ 53) with 54. lia. }
  change (2 ^ (53 - 52)) with 2.
  apply Zeven_bool_iff, Zeven_ex_iff in Heven as [h ->].
  replace (2 * h mod 2) with 0 by (rewrite Z.mul_comm, Z_mod_mult; reflexivity).
  replace (2 * h / 2) with h by (rewrite Z.mul_comm, Z_div_mult; lia).
  rewrite Z.mul_0_r. change (2 <? 0) with false. change (0 =? 2) with false.
  cbn [orb andb]. rewrite Z.sgn_pos by lia. lia.
Qed.

Lemma of_Z_exact (z : Z) : Z.abs z <= 2 ^ 53 -> of_Z z = Num z.
Proof.
  intros Hz. unfold of_Z. rewrite round_exact by assumption.
  pose proof (below_overflow (Z.abs z)) as Hlt.
  destruct (Z.leb_spec (2 ^ 1024) z); [lia |].
  destruct (Z.leb_spec z (- 2 ^ 1024)); [lia | reflexivity].
Qed.

Lemma of_Z_even (z : Z) : 0 <= z <= 2 ^ 54 -> Z.even z = true -> of_Z z = Num z.
Proof.
  intros Hz Heven. unfold of_Z. rewrite round_even by assumption.
  pose proof (below_overflow z) as Hlt.
  destruct (Z.leb_spec (2 ^ 1024) z); [lia |].
  destruct (Z.leb_spec z (- 2 ^ 1024)); [lia | reflexivity].
Qed.

(** The rounding of a number that is not negative stays between zero and
    twice the number. *)
Lemma round_bounds (z : Z) : 0 <= z -> 0 <= round z <= 2 * z.
Proof.
  intros Hz. unfold round. rewrite Z.abs_eq by assumption.
  destruct (Z.ltb_spec z (2 ^ 53)) as [? | Hbig]; [lia |].
  assert (0 < z) as Hpos by lia.
  pose proof (Z.log2_spec z Hpos) as [Hlow _].
  assert (53 <= Z.log2 z) as Hlog by (apply Z.log2_le_pow2; lia).
  set (ulp := 2 ^ (Z.log2 z - 52)).
  assert (0 < ulp) as Hulp by (apply Z.pow_pos_nonneg; lia).
  assert (ulp <= z) as Hle.
  { transitivity (2 ^ Z.log2 z); [| assumption].
    apply Z.pow_le_mono_r; lia. }
  pose proof (Z.div_mod z ulp ltac:(lia)) as Hdm.
  pose proof (Z.mod_pos_bound z ulp Hulp) as Hmod.
  rewrite Z.sgn_pos by assumption.
  assert (0 <= z / ulp) by (apply Z.div_pos; lia).
  destruct (_ || _); nia.
Qed.

(** From 2^53 on every double is even. *)
Lemma round_big_even (z : Z) : 2 ^ 53 <= Z.abs z -> Z.even (round z) = true.
Proof.
  intros Hbig. unfold round.
  destruct (Z.ltb_spec (Z.abs z) (2 ^ 53)) as [? | _]; [lia |].
  assert (53 <= Z.log2 (Z.abs z)) as Hlog by (apply Z.log2_le_pow2; lia).
  replace (Z.log2 (Z.abs z) - 52) with (Z.succ (Z.log2 (Z.abs z) - 53)) by lia.
  rewrite Z.pow_succ_r by lia.
  rewrite !Z.even_mul. cbn [Z.even]. rewrite !orb_true_r. reflexivity.
Qed.

Lemma round_zero_iff (z : Z) : round z = 0 -> z = 0.
Proof.
  intros Hr. destruct (Z.lt_ge_cases (Z.abs z) (2 ^ 53)) as [Hs | Hb].
  - rewrite round_exact in Hr by lia. assumption.
  - exfalso. revert Hr. unfold round.
    destruct (Z.ltb_spec (Z.abs z) (2 ^ 53)) as [? | _]; [lia |].
    assert (0 < Z.abs z) as Hpos by lia.
    pose proof (Z.log2_spec _ Hpos) as [Hlow _].
    assert (53 <= Z.log2 (Z.abs z)) as Hlog by (apply Z.log2_le_pow2; lia).
    set (ulp := 2 ^ (Z.log2 (Z.abs z) - 52)).
    assert (0 < ulp) as Hulp by (apply Z.pow_pos_nonneg; lia).
    assert (ulp <= Z.abs z) as Hle.
    { transitivity (2 ^ Z.log2 (Z.abs z)); [| assumption].
      apply Z.pow_le_mono_r; lia. }
    assert (1 <= Z.abs z / ulp) by (apply Z.div_le_lower_bound; lia).
    assert (Z.sgn z <> 0) by (destruct z; cbn in *; lia).
    destruct (_ || _); nia.
Qed.

Lemma of_Z_Num (z r : Z) : of_Z z = Num r -> r = round z.
Proof.
  unfold of_Z. destruct (2 ^ 1024 <=? round z); [discriminate |].
  destruct (round z <=? - 2 ^ 1024); [discriminate |]. congruence.
Qed.

Lemma add_exact (a b : Z) : Z.abs (a + b) <= 2 ^ 53 -> add (Num a) (Num b) = Num (a + b).
Proof. apply of_Z_exact. Qed.

Lemma sub_exact (a b : Z) : Z.abs (a - b) <= 2 ^ 53 -> sub (Num a) (Num b) = Num (a - b).
Proof. intros H. unfold sub. cbn [neg]. rewrite add_exact; [reflexivity | lia]. Qed.

Lemma mul_exact (a b : Z) : Z.abs (a * b) <= 2 ^ 53 -> mul (Num a) (Num b) = Num (a * b).
Proof. apply of_Z_exact. Qed.

End NumberFacts.

(** ** The three sums *)
Module SumToNFacts.
Import Number SumToN NumberFacts.

(** The closed form, one step at a time. *)
Lemma gauss_step (n : Z) : ((n + 1) * (n + 1 + 1)) / 2 = (n * (n + 1)) / 2 + (n + 1).
Proof.
  replace ((n + 1) * (n + 1 + 1)) with (n * (n + 1) + (n + 1) * 2) by lia.
  rewrite Z.div_add by lia. reflexivity.
Qed.

Lemma sum_1_to_succ (k : nat) :
  sum_1_to (Z.of_nat (S k)) = sum_1_to (Z.of_nat k) + Z.of_nat (S k).
Proof.
  unfold sum_1_to. rewrite !Nat2Z.id, seq_S, fmap_app, foldr_app. simpl.
  generalize (Z.of_nat <$> seq 1 k) as l. intros l.
  replace (Z.of_nat (1 + k)) with (Z.pos (Pos.of_succ_nat k)) by lia.
  rewrite Z.add_0_r.
  induction l as [|x l IH]; simpl; [lia | rewrite IH; lia].
Qed.

Lemma sum_1_to_closed (n : Z) : 0 <= n -> sum_1_to n = (n * (n + 1)) / 2.
Proof.
  intros Hn. rewrite <- (Z2Nat.id n Hn). generalize (Z.to_nat n) as k.
  induction k as [|k IH].
  - reflexivity.
  - rewrite sum_1_to_succ, IH.
    replace (Z.of_nat (S k)) with (Z.of_nat k + 1) by lia.
    rewrite gauss_step. reflexivity.
Qed.

Lemma consecutive_even (n : Z) : Z.even (n * (n + 1)) = true.
Proof.
  rewrite Z.even_mul, Z.even_add. destruct (Z.even n); reflexivity.
Qed.

Lemma triangle_double (n : Z) : 2 * (n * (n + 1) / 2) = n * (n + 1).
Proof.
  pose proof (consecutive_even n) as Heven.
  apply Zeven_bool_iff, Zeven_ex_iff in Heven as [h Hh].
  rewrite Hh. rewrite (Z.mul_comm 2 h), Z_div_mult by lia. lia.
Qed.

Lemma triangle_mono (i n : Z) : 0 <= i <= n -> i * (i + 1) / 2 <= n * (n + 1) / 2.
Proof. intros Hi. apply Z.div_le_mono; nia. Qed.

(** What the bound on the sum says of [n] and of the product. *)
Lemma triangle_bound (n : Z) :
  0 <= n -> n * (n + 1) / 2 <= 2 ^ 53 -> n < 2 ^ 27 /\ 0 <= n * (n + 1) <= 2 ^ 54.
Proof.
  intros Hn Hsum. pose proof (triangle_double n) as Hd.
  assert (n * (n + 1) <= 2 ^ 54) by lia.
  split; [| nia].
  destruct (Z.lt_ge_cases n (2 ^ 27)) as [? | Hbig]; [assumption |].
  exfalso. assert (2 ^ 27 * (2 ^ 27 + 1) <= n * (n + 1)) by nia. lia.
Qed.

(** The product that [sum_to_n_a] halves is even, whatever [n]: the halving
    never leaves the integers. *)
Lemma sum_to_n_a_halves_even (n p : Z) :
  mul (Num n) (add (Num n) (Num 1)) = Num p -> Z.even p = true.
Proof.
  unfold add. destruct (of_Z (n + 1)) as [m | | |] eqn:Hm; unfold mul; intros Hp.
  - apply of_Z_Num in Hm as ->. apply of_Z_Num in Hp as ->.
    destruct (Z.lt_ge_cases (Z.abs (n * round (n + 1))) (2 ^ 53)) as [Hsmall | Hbig];
      [| apply round_big_even; assumption].
    rewrite (round_exact (n * round (n + 1))) by lia.
    destruct (Z.lt_ge_cases (Z.abs (n + 1)) (2 ^ 53)) as [Hs | Hb].
    + rewrite (round_exact (n + 1)) by lia. apply consecutive_even.
    + rewrite Z.even_mul, (round_big_even (n + 1) Hb). apply orb_true_r.
  - destruct (_ =? 0); [discriminate Hp |]. destruct (0 <? _); discriminate Hp.
  - destruct (_ =? 0); [discriminate Hp |]. destruct (0 <? _); discriminate Hp.
  - discriminate Hp.
Qed.

Lemma sum_to_n_a_exact (n : Z) :
  0 <= n * (n + 1) <= 2 ^ 54 -> Z.abs (n + 1) <= 2 ^ 53 ->
  sum_to_n_a (Num n) = Num (n * (n + 1) / 2).
Proof.
  intros Hp Hn. unfold sum_to_n_a. rewrite add_exact by assumption.
  unfold mul. rewrite of_Z_even by auto using consecutive_even. reflexivity.
Qed.

(** The loop invariant of [sum_to_n_b]: on entry with [i], [sum] holds the
    sum of the numbers below [i]; the loop tests its condition [n + 2 - i]
    times more. *)
Lemma sum_to_n_b_loop_exact (n : Z) :
  0 <= n -> n * (n + 1) / 2 <= 2 ^ 53 ->
  forall (steps : nat) (i : Z),
    1 <= i <= n + 1 -> (Z.to_nat (n + 1 - i) < steps)%nat ->
    sum_to_n_b_loop steps (Num n) (Num i) (Num ((i - 1) * i / 2))
    = Some (Num (n * (n + 1) / 2)).
Proof.
  intros Hn Hsum. destruct (triangle_bound n Hn Hsum) as [Hn27 _].
  induction steps as [|steps IH]; intros i Hi Hsteps; [lia |].
  cbn [sum_to_n_b_loop leb].
  destruct (Z.leb_spec i n) as [Hle | Hgt].
  - pose proof (gauss_step (i - 1)) as Hstep.
    replace (i - 1 + 1) with i in Hstep by lia.
    pose proof (triangle_mono i n ltac:(lia)) as Hmono.
    assert (0 <= (i - 1) * i / 2) by (apply Z.div_pos; nia).
    rewrite (add_exact i 1), (add_exact ((i - 1) * i / 2) i) by lia.
    rewrite <- Hstep.
    replace (i * (i + 1)) with ((i + 1 - 1) * (i + 1)) by lia.
    apply IH; lia.
  - assert (i = n + 1) as -> by lia.
    replace (n + 1 - 1) with n by lia. reflexivity.
Qed.

Lemma sum_to_n_c_exact (n : Z) :
  n * (n + 1) / 2 <= 2 ^ 53 ->
  forall (frames : nat) (k : Z),
    0 <= k <= n -> (1 <= frames)%nat -> (Z.to_nat k <= frames)%nat ->
    sum_to_n_c frames (Num k) = Ok (Num (k * (k + 1) / 2)).
Proof.
  intros Hsum.
  induction frames as [|frames IH]; intros k Hk Hone Hframes; [lia |].
  destruct (triangle_bound n ltac:(lia) Hsum) as [Hn27 _].
  cbn [sum_to_n_c leb].
  destruct (Z.leb_spec k 1) as [Hle | Hgt].
  - assert (k = 0 \/ k = 1) as [-> | ->] by lia; reflexivity.
  - rewrite sub_exact by lia. rewrite (IH (k - 1)) by lia.
    pose proof (gauss_step (k - 1)) as Hstep.
    replace (k - 1 + 1) with k in *  by lia.
    pose proof (triangle_mono k n ltac:(lia)) as Hmono.
    assert (0 <= (k - 1) * k / 2) by (apply Z.div_pos; nia).
    rewrite add_exact by lia. do 2 f_equal. lia.
Qed.

Lemma sum_to_n_c_overflow (frames : nat) :
  forall k : Z, k <= 2 ^ 53 -> (frames < Z.to_nat k)%nat ->
    sum_to_n_c frames (Num k) = Throw stack_overflow.
Proof.
  induction frames as [|frames IH]; intros k Hk Hframes; [reflexivity |].
  cbn [sum_to_n_c leb].
  destruct (Z.leb_spec k 1) as [Hle | Hgt]; [lia |].
  rewrite sub_exact by lia. rewrite IH by lia. reflexivity.
Qed.

(** C10, as amended. For every non-negative integer [n] whose sum
    1 + 2 + ... + n does not exceed 2^53, the three implementations return
    that sum, which is n(n+1)/2: [sum_to_n_a] at once, [sum_to_n_b] after
    [n + 1] tests of its loop condition, and [sum_to_n_c] whenever the call
    stack has room for the [n] nested calls; with less room [sum_to_n_c]
    ends in a RangeError and returns nothing. *)
Theorem sum_to_n_agree (n : Z) :
  0 <= n -> n * (n + 1) / 2 <= 2 ^ 53 ->
  sum_to_n_a (Num n) = Num (sum_1_to n) /\
  (forall steps : nat,
      (Z.to_nat n < steps)%nat -> sum_to_n_b steps (Num n) = Some (Num (sum_1_to n))) /\
  (forall frames : nat,
      (1 <= frames)%nat -> (Z.to_nat n <= frames)%nat ->
      sum_to_n_c frames (Num n) = Ok (Num (sum_1_to n))) /\
  (forall frames : nat,
      (frames < Z.to_nat n)%nat -> sum_to_n_c frames (Num n) = Throw stack_overflow) /\
  sum_1_to n = n * (n + 1) / 2.
Proof.
  intros Hn Hsum. rewrite sum_1_to_closed by assumption.
  destruct (triangle_bound n Hn Hsum) as [Hn27 Hprod].
  split; [apply sum_to_n_a_exact; [assumption | lia] |].
  split.
  { intros steps Hsteps. unfold sum_to_n_b.
    apply (sum_to_n_b_loop_exact n Hn Hsum steps 1); lia. }
  split.
  { intros frames Hone Hframes. apply (sum_to_n_c_exact n Hsum); lia. }
  split; [| reflexivity].
  intros frames Hframes. apply sum_to_n_c_overflow; lia.
Qed.

Lemma sum_to_n_agree_witness :
  sum_to_n_a (Num 10) = Num (sum_1_to 10) /\
  sum_to_n_b 11 (Num 10) = Some (Num (sum_1_to 10)) /\
  sum_to_n_c 10 (Num 10) = Ok (Num (sum_1_to 10)) /\
  sum_to_n_c 9 (Num 10) = Throw stack_overflow.
Proof.
  destruct (sum_to_n_agree 10 ltac:(lia) ltac:(vm_compute; discriminate))
    as (Ha & Hb & Hc & Hd & _).
  split; [exact Ha |].
  split; [apply Hb; vm_compute; lia |].
  split; [apply Hc; vm_compute; lia |].
  apply Hd. vm_compute. lia.
Defined.

(** Neither proviso can be dropped. Without the bound the statement
    fails: at n = 134217729 the product n(n+1) lies above 2^54, where the
    doubles are the multiples of four, and [sum_to_n_a] returns a number
    that is one less than the sum. And on a call stack of a given size
    [sum_to_n_c] does not return for every n: with room for a thousand
    frames it ends in a RangeError at n = 1001. *)
Lemma sum_to_n_a_rounds :
  ~ (forall n : Z, 0 <= n -> sum_to_n_a (Num n) = Num (n * (n + 1) / 2)) /\
  ~ (forall (frames : nat) (n : Z), 0 <= n -> n * (n + 1) / 2 <= 2 ^ 53 ->
       sum_to_n_c frames (Num n) = Ok (Num (n * (n + 1) / 2))).
Proof.
  split; intros Hstated.
  - specialize (Hstated 134217729 ltac:(lia)).
    vm_compute in Hstated. discriminate Hstated.
  - specialize (Hstated 1000%nat 1001 ltac:(lia) ltac:(vm_compute; discriminate)).
    vm_compute in Hstated. discriminate Hstated.
Qed.

Example sum_to_n_a_beyond :
  sum_to_n_a (Num 134217729) = Num 9007199456067584 /\
  134217729 * (134217729 + 1) / 2 = 9007199456067585.
Proof. split; reflexivity. Qed.

Example sum_to_n_at_5 :
  sum_to_n_a (Num 5) = Num 15 /\ sum_to_n_b 6 (Num 5) = Some (Num 15) /\
  sum_to_n_c 5 (Num 5) = Ok (Num 15).
Proof. repeat split; reflexivity. Qed.

End SumToNFacts.

(** ** The TTL parser *)
Module TtlFacts.
Import Number Ttl TtlSpec NumberFacts.

(** The character classes of the regular expression are those of the
    duration expression. *)
Lemma is_digit_spec (c : ascii) :
  is_digit c = bool_decide (is_Some (digit_of c)).
Proof. destruct c as [[] [] [] [] [] [] [] []]; reflexivity. Qed.

Lemma digit_value_spec (c : ascii) (d : Z) : digit_of c = Some d -> digit_value c = d.
Proof.
  destruct c as [[] [] [] [] [] [] [] []]; vm_compute; intros [= <-] || discriminate;
    reflexivity.
Qed.

Lemma is_unit_spec (c : ascii) : is_unit c = bool_decide (is_Some (unit_seconds c)).
Proof. destruct c as [[] [] [] [] [] [] [] []]; reflexivity. Qed.

Lemma unit_cases (c : ascii) (k : Z) :
  unit_seconds c = Some k ->
  (c = "s"%char /\ k = 1) \/ (c = "m"%char /\ k = 60) \/
  (c = "h"%char /\ k = 3600) \/ (c = "d"%char /\ k = 86400).
Proof.
  destruct c as [[] [] [] [] [] [] [] []]; cbn; intros [= <-] || discriminate; tauto.
Qed.

Lemma unit_not_digit (c : ascii) : is_unit c = true -> is_digit c = false.
Proof. destruct c as [[] [] [] [] [] [] [] []]; vm_compute; congruence. Qed.

Lemma take_digits_app (ds : string) (c : ascii) (rest : string) :
  all_digits ds = true -> is_digit c = false ->
  take_digits (ds +:+ String c rest) = (ds, String c rest).
Proof.
  intros Hds Hc. induction ds as [|d ds IH]; simpl in *.
  - rewrite Hc. reflexivity.
  - apply andb_true_iff in Hds as [Hd Hds]. rewrite is_digit_spec, Hd, IH by assumption.
    reflexivity.
Qed.

Lemma take_digits_split (s a b : string) :
  take_digits s = (a, b) -> s = a +:+ b /\ all_digits a = true.
Proof.
  revert a b. induction s as [|c s IH]; simpl; intros a b H.
  - inversion H. split; reflexivity.
  - destruct (is_digit c) eqn:Hc.
    + destruct (take_digits s) as [ds rest] eqn:Ht. inversion H; subst.
      destruct (IH ds b eq_refl) as [-> Hall]. simpl.
      rewrite <- is_digit_spec, Hc, Hall. split; reflexivity.
    + inversion H. split; reflexivity.
Qed.

Lemma regex_match_form (ds : string) (unit : ascii) :
  ds <> EmptyString -> all_digits ds = true -> is_Some (unit_seconds unit) ->
  regex_match (ds +:+ String unit EmptyString) = Some (ds, unit).
Proof.
  intros Hne Hds Hu. unfold regex_match.
  assert (is_unit unit = true) as Hunit.
  { rewrite is_unit_spec. apply bool_decide_eq_true_2. assumption. }
  rewrite take_digits_app by auto using unit_not_digit.
  destruct ds; [congruence |]. rewrite Hunit. reflexivity.
Qed.

Lemma regex_match_inv (s value : string) (unit : ascii) :
  regex_match s = Some (value, unit) ->
  s = value +:+ String unit EmptyString /\ value <> EmptyString /\
  all_digits value = true /\ is_Some (unit_seconds unit).
Proof.
  unfold regex_match. destruct (take_digits s) as [a b] eqn:Ht.
  apply take_digits_split in Ht as [-> Hall].
  destruct a as [|d ds]; [discriminate |].
  destruct b as [|u [|? ?]]; try discriminate.
  destruct (is_unit u) eqn:Hu; [| discriminate].
  intros [= <- <-].
  split; [reflexivity |]. split; [discriminate |]. split; [assumption |].
  rewrite is_unit_spec in Hu. apply bool_decide_eq_true in Hu. assumption.
Qed.

Lemma parseInt_go_digits (ds : string) (acc : Z) :
  all_digits ds = true ->
  parseInt_go ds acc = acc * 10 ^ Z.of_nat (String.length ds) + decimal_value ds.
Proof.
  revert acc. induction ds as [|c ds IH]; simpl String.length; intros acc Hds.
  - simpl. lia.
  - simpl in Hds. apply andb_true_iff in Hds as [Hc Hds].
    cbn [parseInt_go decimal_value]. rewrite is_digit_spec, Hc, IH by assumption.
    apply bool_decide_eq_true in Hc as [d Hd].
    rewrite (digit_value_spec c d Hd), Hd. cbn [default from_option Datatypes.id].
    rewrite Nat2Z.inj_succ, Z.pow_succ_r by lia. lia.
Qed.

Lemma parseInt_digits (ds : string) :
  ds <> EmptyString -> all_digits ds = true -> parseInt ds = of_Z (decimal_value ds).
Proof.
  intros Hne Hds. destruct ds as [|c ds]; [congruence |].
  unfold parseInt. pose proof Hds as Hds'. simpl in Hds'.
  apply andb_true_iff in Hds' as [Hc _]. rewrite is_digit_spec, Hc.
  rewrite parseInt_go_digits by assumption. reflexivity.
Qed.

Lemma decimal_value_bounds (ds : string) :
  all_digits ds = true -> 0 <= decimal_value ds < 10 ^ Z.of_nat (String.length ds).
Proof.
  induction ds as [|c ds IH]; intros Hds; [cbn; lia |].
  cbn in Hds. apply andb_true_iff in Hds as [Hc Hds].
  specialize (IH Hds). cbn [decimal_value String.length].
  rewrite Nat2Z.inj_succ, Z.pow_succ_r by lia.
  assert (0 <= default 0 (digit_of c) <= 9) as Hd.
  { destruct c as [[] [] [] [] [] [] [] []]; vm_compute; split; discriminate. }
  nia.
Qed.

(** What the parser computes for a duration expression, rounding and all. *)
Lemma parseExpirationTime_form (ds : string) (unit : ascii) (k : Z) :
  ds <> EmptyString -> all_digits ds = true -> unit_seconds unit = Some k ->
  parseExpirationTime (ds +:+ String unit EmptyString)
  = if bool_decide (unit = "s"%char) then of_Z (decimal_value ds)
    else mul (of_Z (decimal_value ds)) (Num k).
Proof.
  intros Hne Hds Hu. unfold parseExpirationTime.
  rewrite regex_match_form, parseInt_digits by (try assumption; rewrite Hu; eauto).
  destruct (unit_cases unit k Hu) as [[-> ->] | [[-> ->] | [[-> ->] | [-> ->]]]]; reflexivity.
Qed.

(** C9, as amended. An integer followed by one of the units s, m, h, d is
    mapped to the integer times 1, 60, 3600 or 86400, provided that number
    of seconds does not exceed 2^53; every string that is not of that form
    is mapped to 86400. *)
Theorem parseExpirationTime_spec :
  (forall (ds : string) (unit : ascii) (k : Z),
      ds <> EmptyString -> all_digits ds = true -> unit_seconds unit = Some k ->
      decimal_value ds * k <= 2 ^ 53 ->
      parseExpirationTime (ds +:+ String unit EmptyString) = Num (decimal_value ds * k)) /\
  (forall s : string, ~ duration_form s -> parseExpirationTime s = Num 86400).
Proof.
  split.
  - intros ds unit k Hne Hds Hu Hbound.
    rewrite (parseExpirationTime_form ds unit k) by assumption.
    pose proof (decimal_value_bounds ds Hds) as [Hv _].
    assert (1 <= k) as Hk.
    { destruct (unit_cases unit k Hu) as [[_ ->] | [[_ ->] | [[_ ->] | [_ ->]]]]; lia. }
    assert (decimal_value ds <= 2 ^ 53) by nia.
    rewrite of_Z_exact by lia.
    case_bool_decide as Hs.
    + subst unit. injection Hu as <-. f_equal. lia.
    + apply mul_exact. nia.
  - intros s Hs. unfold parseExpirationTime.
    destruct (regex_match s) as [[value unit]|] eqn:Hm; [| reflexivity].
    exfalso. apply Hs. apply regex_match_inv in Hm as (-> & Hne & Hds & Hu).
    exists value, unit. auto.
Qed.

Lemma parseExpirationTime_spec_witness :
  parseExpirationTime "24h" = Num 86400 /\
  parseExpirationTime "15m" = Num 900 /\
  parseExpirationTime "7d" = Num 604800 /\
  parseExpirationTime "30s" = Num 30 /\
  parseExpirationTime "soon" = Num 86400.
Proof.
  destruct parseExpirationTime_spec as [Hform Hother].
  split; [apply (Hform "24" "h"%char 3600); [discriminate | reflexivity | reflexivity | vm_compute; discriminate] |].
  split; [apply (Hform "15" "m"%char 60); [discriminate | reflexivity | reflexivity | vm_compute; discriminate] |].
  split; [apply (Hform "7" "d"%char 86400); [discriminate | reflexivity | reflexivity | vm_compute; discriminate] |].
  split; [apply (Hform "30" "s"%char 1); [discriminate | reflexivity | reflexivity | vm_compute; discriminate] |].
  apply Hother. intros (ds & unit & Heq & Hne & Hds & _).
  destruct ds as [|c ds]; [congruence |].
  injection Heq as <- _. discriminate Hds.
Defined.

(** Without the bound the statement fails: 9007199254740993 is not a
    double, and [parseInt] returns its neighbour. *)
Lemma parseExpirationTime_rounds :
  ~ (forall (ds : string) (unit : ascii) (k : Z),
        ds <> EmptyString -> all_digits ds = true -> unit_seconds unit = Some k ->
        parseExpirationTime (ds +:+ String unit EmptyString) = Num (decimal_value ds * k)).
Proof.
  intros Hstated.
  specialize (Hstated "9007199254740993" "s"%char 1 ltac:(discriminate) eq_refl eq_refl).
  vm_compute in Hstated. discriminate Hstated.
Qed.

Example parseExpirationTime_beyond :
  parseExpirationTime "9007199254740993s" = Num 9007199254740992.
Proof. reflexivity. Qed.

End TtlFacts.

(** ** Role-based access control *)
Module RbacFacts.
Import Rbac.

(** C6. For an authenticated principal and any list of allowed roles,
    [requireRole] calls [next()] (with the request untouched) if and only if
    the principal's role is in the list, and otherwise ends in a Forbidden
    error (403). With the list [ADMIN] a USER is denied and an ADMIN is
    allowed. The check reads nothing of the ambient environment: it gives
    the same result whatever the repositories hold. *)
Theorem requireRole_spec (allowedRoles : list Role) (A : Ambient)
    (req : Request) (u : AuthUser) :
  user req = Some u ->
  ((exists req', requireRole allowedRoles A req = Next req') <-> role u ∈ allowedRoles) /\
  (role u ∈ allowedRoles -> requireRole allowedRoles A req = Next req) /\
  (role u ∉ allowedRoles ->
     exists msg, requireRole allowedRoles A req = NextErr (EApp (ForbiddenError msg)) /\
                 statusCode (ForbiddenError msg) = 403) /\
  (role u = USER -> exists msg, requireRole [ADMIN] A req = NextErr (EApp (ForbiddenError msg))) /\
  (role u = ADMIN -> requireRole [ADMIN] A req = Next req) /\
  (forall A' : Ambient, requireRole allowedRoles A' req = requireRole allowedRoles A req).
Proof.
  intros Hu.
  assert (Hin : forall roles, role u ∈ roles -> requireRole roles A req = Next req).
  { intros roles Hr. unfold requireRole. rewrite Hu, bool_decide_eq_true_2 by assumption.
    reflexivity. }
  assert (Hout : forall roles, role u ∉ roles ->
            exists msg, requireRole roles A req = NextErr (EApp (ForbiddenError msg))).
  { intros roles Hr. unfold requireRole. rewrite Hu, bool_decide_eq_false_2 by assumption.
    eexists. reflexivity. }
  split; [| split; [| split; [| split; [| split]]]].
  - split.
    + intros [req' Hnext]. destruct (decide (role u ∈ allowedRoles)) as [|Hr]; [assumption |].
      destruct (Hout _ Hr) as [msg Hmsg]. congruence.
    + intros Hr. exists req. auto.
  - auto.
  - intros Hr. destruct (Hout _ Hr) as [msg Hmsg]. exists msg. split; [assumption | reflexivity].
  - intros Hrole. apply Hout. rewrite Hrole.
    intros Hmem. apply list_elem_of_singleton in Hmem. discriminate.
  - intros Hrole. apply Hin. rewrite Hrole. apply list_elem_of_singleton. reflexivity.
  - intros A'. reflexivity.
Qed.

Lemma requireRole_spec_witness :
  (exists msg, requireAdmin Demo.ambient
                 (Demo.request None (Some (mkAuthUser "u-user" "user@example.com" USER true)))
               = NextErr (EApp (ForbiddenError msg))) /\
  requireAdmin Demo.ambient
    (Demo.request None (Some (mkAuthUser "u-admin" "admin@example.com" ADMIN true)))
  = Next (Demo.request None (Some (mkAuthUser "u-admin" "admin@example.com" ADMIN true))).
Proof.
  split.
  - destruct (requireRole_spec [ADMIN] Demo.ambient
                (Demo.request None (Some (mkAuthUser "u-user" "user@example.com" USER true)))
                (mkAuthUser "u-user" "user@example.com" USER true) eq_refl)
      as (_ & _ & _ & Huser & _).
    exact (Huser eq_refl).
  - destruct (requireRole_spec [ADMIN] Demo.ambient
                (Demo.request None (Some (mkAuthUser "u-admin" "admin@example.com" ADMIN true)))
                (mkAuthUser "u-admin" "admin@example.com" ADMIN true) eq_refl)
      as (_ & _ & _ & _ & Hadmin & _).
    exact (Hadmin eq_refl).
Defined.

Example requireAdmin_message :
  requireAdmin Demo.ambient
    (Demo.request None (Some (mkAuthUser "u-user" "user@example.com" USER true)))
  = NextErr (EApp (ForbiddenError "Access denied. Required role(s): ADMIN")).
Proof. reflexivity. Qed.

End RbacFacts.

(** ** Authentication *)
Module AuthFacts.
Import AuthService AuthMiddleware ErrorHandler.

Lemma substring_all (s : string) : String.substring 0 (String.length s) s = s.
Proof. induction s as [|c s IH]; simpl; [reflexivity | rewrite IH; reflexivity]. Qed.

Lemma bearer_token (token : string) :
  substring_from 7 ("Bearer " +:+ token) = token.
Proof.
  unfold substring_from. cbv [String.app].
  cbn [String.length String.substring].
  replace (S (S (S (S (S (S (S (String.length token))))))) - 7)%nat
    with (String.length token) by lia.
  apply substring_all.
Qed.

Lemma bearer_prefix (token : string) :
  String.prefix "Bearer " ("Bearer " +:+ token) = true.
Proof. cbv [String.app]. cbn. destruct token; reflexivity. Qed.

(** What [authenticate] does once the header carries a token that the
    library verifies. *)
Lemma authenticate_verified (A : Ambient) (req : Request) (token : string)
    (decoded : JwtPayload) :
  authorization req = Some ("Bearer " +:+ token) ->
  jwt_verify A token (jwtSecret A) = Decoded decoded ->
  authenticate A req =
    match findById A (userId decoded) with
    | None => NextErr (EApp (UnauthorizedError "User not found"))
    | Some u =>
        if user_isActive u then
          Next (set_user req (mkAuthUser (user_id u) (user_email u) (user_role u) true))
        else NextErr (EApp (UnauthorizedError "Account is inactive"))
    end.
Proof.
  intros Hh Hv. unfold authenticate. rewrite Hh.
  rewrite bool_decide_eq_false_2 by discriminate.
  rewrite bearer_prefix, bearer_token. cbn [negb orb].
  unfold verifyToken. rewrite Hv.
  destruct (findById A (userId decoded)) as [u|]; [| reflexivity].
  destruct (user_isActive u) eqn:Hact; reflexivity.
Qed.

(** Whenever [authenticate] calls [next()], the user it attached is the row
    that the store holds under the id of the decoded token, and that row is
    active. *)
Lemma authenticate_next_inv (A : Ambient) (req req' : Request) :
  authenticate A req = Next req' ->
  exists (token : string) (decoded : JwtPayload) (u : User),
    jwt_verify A token (jwtSecret A) = Decoded decoded /\
    findById A (userId decoded) = Some u /\
    user_isActive u = true /\
    req' = set_user req (mkAuthUser (user_id u) (user_email u) (user_role u) true).
Proof.
  unfold authenticate. destruct (authorization req) as [h|]; [| discriminate].
  destruct (bool_decide (h = "") || negb (String.prefix "Bearer " h)); [discriminate |].
  unfold verifyToken.
  destruct (jwt_verify A (substring_from 7 h) (jwtSecret A)) as [decoded|error] eqn:Hv.
  - destruct (findById A (userId decoded)) as [u|] eqn:Hf; [| discriminate].
    destruct (user_isActive u) eqn:Hact; [| discriminate].
    intros [= <-]. exists (substring_from 7 h), decoded, u. auto.
  - destruct (instanceof_TokenExpiredError error); [discriminate |].
    destruct (instanceof_JsonWebTokenError error); discriminate.
Qed.

(** C1. A request whose bearer token verifies is still looked up in the
    store under the token's principal id; when that principal is missing or
    has [isActive = false] the middleware ends in an Unauthorized error
    (401): no user is attached, and nothing after it on the route runs,
    whatever the controller. Hence whenever [authenticate] lets a request
    through, the attached user is the row that the store holds under the id
    of a verified token, and that row is active. *)
Theorem authenticate_requires_active_principal (A : Ambient) (req : Request)
    (token : string) (decoded : JwtPayload) :
  authorization req = Some ("Bearer " +:+ token) ->
  jwt_verify A token (jwtSecret A) = Decoded decoded ->
  (findById A (userId decoded) = None \/
   exists u, findById A (userId decoded) = Some u /\ user_isActive u = false) ->
  (exists msg,
      authenticate A req = NextErr (EApp (UnauthorizedError msg)) /\
      statusCode (UnauthorizedError msg) = 401 /\
      forall (R : Type) (render : Response -> R) (chain : list Middleware)
             (controller : Request -> R),
        run_route A render (authenticate :: chain) controller req
        = render (errorHandler A (EApp (UnauthorizedError msg)))) /\
  (forall (req0 req' : Request),
      authenticate A req0 = Next req' ->
      exists (token0 : string) (decoded0 : JwtPayload) (u : User),
        jwt_verify A token0 (jwtSecret A) = Decoded decoded0 /\
        findById A (userId decoded0) = Some u /\
        user_isActive u = true /\
        user req' = Some (mkAuthUser (user_id u) (user_email u) (user_role u) true)).
Proof.
  intros Hh Hv Hmissing. split.
  - pose proof (authenticate_verified A req token decoded Hh Hv) as Hauth.
    destruct Hmissing as [Hnone | (u & Hsome & Hinactive)].
    + rewrite Hnone in Hauth. exists "User not found".
      split; [assumption |]. split; [reflexivity |].
      intros R render chain controller. cbn [run_route]. rewrite Hauth. reflexivity.
    + rewrite Hsome, Hinactive in Hauth. exists "Account is inactive".
      split; [assumption |]. split; [reflexivity |].
      intros R render chain controller. cbn [run_route]. rewrite Hauth. reflexivity.
  - intros req0 req' Hnext.
    destruct (authenticate_next_inv A req0 req' Hnext) as (t & d & u & Hv0 & Hf & Hact & ->).
    exists t, d, u. repeat split; assumption || reflexivity.
Qed.

Lemma authenticate_requires_active_principal_witness :
  exists msg,
    authenticate Demo.ambient (Demo.request (Some "Bearer token.of.retired") None)
    = NextErr (EApp (UnauthorizedError msg)).
Proof.
  destruct (authenticate_requires_active_principal Demo.ambient
              (Demo.request (Some "Bearer token.of.retired") None)
              "token.of.retired" (Demo.payload_of Demo.retired) eq_refl eq_refl
              (or_intror (ex_intro _ Demo.retired (conj eq_refl eq_refl))))
    as [(msg & Hmsg & _) _].
  exists msg. exact Hmsg.
Defined.

Example authenticate_active :
  authenticate Demo.ambient (Demo.request (Some "Bearer token.of.user") None)
  = Next (Demo.request (Some "Bearer token.of.user")
            (Some (mkAuthUser "u-user" "user@example.com" USER true))).
Proof. reflexivity. Qed.

Example authenticate_deleted_user :
  authenticate Demo.ambient (Demo.request (Some "Bearer token.of.ghost") None)
  = NextErr (EApp (UnauthorizedError "User not found")).
Proof. reflexivity. Qed.

End AuthFacts.

(** ** Token verification *)
Module TokenFacts.
Import AuthService ErrorHandler TokenSpec.

(** [verifyToken] by the class of what the library throws. *)
Lemma verifyToken_throws (A : Ambient) (token : string) (error : JwtError) :
  jwt_verify A token (jwtSecret A) = JwtThrows error ->
  verifyToken A token =
    Throw (EApp (UnauthorizedError
      (if instanceof_TokenExpiredError error then "Token has expired"
       else if instanceof_JsonWebTokenError error then "Invalid token"
       else "Token verification failed"))).
Proof.
  intros Hv. unfold verifyToken. rewrite Hv.
  destruct (instanceof_TokenExpiredError error); [reflexivity |].
  destruct (instanceof_JsonWebTokenError error); reflexivity.
Qed.

(** C4. Verification fails with the Unauthorized (401) message "Token has
    expired" exactly when the library reports the token as expired; with
    "Invalid token" for every other error of the library's own class (bad
    signature, malformed token); with "Token verification failed" for any
    other error. The message is one of these three constants and depends on
    the class of the library's error alone, so no detail of the decoding
    reaches the caller; the expired and the invalid answers differ. *)
Theorem verifyToken_failure_classes (A : Ambient) (token : string) :
  (verifyToken A token = Throw (EApp (UnauthorizedError "Token has expired")) <->
   exists msg expiredAt,
     jwt_verify A token (jwtSecret A) = JwtThrows (TokenExpiredError msg expiredAt)) /\
  (forall error,
      jwt_verify A token (jwtSecret A) = JwtThrows error ->
      instanceof_TokenExpiredError error = false ->
      instanceof_JsonWebTokenError error = true ->
      verifyToken A token = Throw (EApp (UnauthorizedError "Invalid token"))) /\
  (forall error,
      jwt_verify A token (jwtSecret A) = JwtThrows error ->
      instanceof_JsonWebTokenError error = false ->
      verifyToken A token = Throw (EApp (UnauthorizedError "Token verification failed"))) /\
  (forall e,
      verifyToken A token = Throw e ->
      exists msg, e = EApp (UnauthorizedError msg) /\ msg ∈ token_messages /\
                  http_status (errorHandler A e) = 401 /\
                  resp_message (json_body (errorHandler A e)) = msg) /\
  (forall (A' : Ambient) (token' : string) (error error' : JwtError),
      jwt_verify A token (jwtSecret A) = JwtThrows error ->
      jwt_verify A' token' (jwtSecret A') = JwtThrows error' ->
      instanceof_TokenExpiredError error' = instanceof_TokenExpiredError error ->
      instanceof_JsonWebTokenError error' = instanceof_JsonWebTokenError error ->
      verifyToken A' token' = verifyToken A token) /\
  UnauthorizedError "Token has expired" <> UnauthorizedError "Invalid token".
Proof.
  split; [| split; [| split; [| split; [| split]]]].
  - split.
    + unfold verifyToken.
      destruct (jwt_verify A token (jwtSecret A)) as [decoded|error]; [discriminate |].
      destruct error as [msg expiredAt| | |]; cbn; try discriminate.
      intros _. exists msg, expiredAt. reflexivity.
    + intros (msg & expiredAt & Hv). rewrite (verifyToken_throws _ _ _ Hv). reflexivity.
  - intros error Hv He Hj. rewrite (verifyToken_throws _ _ _ Hv), He, Hj. reflexivity.
  - intros error Hv Hj. rewrite (verifyToken_throws _ _ _ Hv), Hj.
    destruct error; try discriminate Hj. reflexivity.
  - intros e. unfold verifyToken.
    destruct (jwt_verify A token (jwtSecret A)) as [decoded|error]; [discriminate |].
    unfold token_messages.
    destruct (instanceof_TokenExpiredError error);
      [| destruct (instanceof_JsonWebTokenError error)];
      intros [= <-]; eexists; (split; [reflexivity |]);
      (split; [| split; reflexivity]).
    + apply list_elem_of_here.
    + apply list_elem_of_further, list_elem_of_here.
    + do 2 apply list_elem_of_further. apply list_elem_of_here.
  - intros A' token' error error' Hv Hv' He Hj.
    rewrite (verifyToken_throws _ _ _ Hv), (verifyToken_throws _ _ _ Hv'), He, Hj.
    reflexivity.
  - discriminate.
Qed.

Lemma verifyToken_failure_classes_witness :
  verifyToken Demo.ambient "token.expired"
    = Throw (EApp (UnauthorizedError "Token has expired")) /\
  verifyToken Demo.ambient "not a token"
    = Throw (EApp (UnauthorizedError "Invalid token")) /\
  verifyToken Demo.ambient "token.crash"
    = Throw (EApp (UnauthorizedError "Token verification failed")).
Proof.
  split; [| split].
  - apply (verifyToken_failure_classes Demo.ambient "token.expired").
    exists "jwt expired", 1700086400. reflexivity.
  - destruct (verifyToken_failure_classes Demo.ambient "not a token")
      as (_ & Hinvalid & _).
    apply (Hinvalid (JsonWebTokenError "jwt malformed")); reflexivity.
  - destruct (verifyToken_failure_classes Demo.ambient "token.crash")
      as (_ & _ & Hother & _).
    apply (Hother (ForeignError "TypeError" "Cannot read properties of undefined"));
      reflexivity.
Defined.

End TokenFacts.

(** ** Login *)
Module LoginFacts.
Import AuthService ErrorHandler.

(** C7, as amended. An attempt with an email that no principal has, and an
    attempt with the email of an active principal and a wrong password, fail
    alike: the same Unauthorized error (401) with the message "Invalid
    credentials", and the same response. *)
Theorem login_failures_alike (A : Ambient) (unknown known : LoginDto) (u : User) :
  findByEmail A (login_email unknown) = None ->
  findByEmail A (login_email known) = Some u ->
  user_isActive u = true ->
  bcrypt_compare A (login_password known) (user_password u) = false ->
  login A unknown = Throw (EApp (UnauthorizedError "Invalid credentials")) /\
  login A known = Throw (EApp (UnauthorizedError "Invalid credentials")) /\
  statusCode (UnauthorizedError "Invalid credentials") = 401 /\
  class (UnauthorizedError "Invalid credentials") = Unauthorized.
Proof.
  intros Hnone Hsome Hactive Hpw. unfold login.
  rewrite Hnone, Hsome, Hactive, Hpw. repeat split.
Qed.

Lemma login_failures_alike_witness :
  login Demo.ambient (mkLoginDto "nobody@example.com" "Password123!")
    = Throw (EApp (UnauthorizedError "Invalid credentials")) /\
  login Demo.ambient (mkLoginDto "user@example.com" "guess")
    = Throw (EApp (UnauthorizedError "Invalid credentials")).
Proof.
  destruct (login_failures_alike Demo.ambient
              (mkLoginDto "nobody@example.com" "Password123!")
              (mkLoginDto "user@example.com" "guess")
              Demo.regular eq_refl eq_refl eq_refl eq_refl)
    as (H1 & H2 & _).
  exact (conj H1 H2).
Defined.

(** Without the restriction to active principals the statement fails: an
    account that was deactivated is told "Account is inactive" before the
    password is looked at. *)
Lemma login_reveals_inactive_account :
  ~ (forall (A : Ambient) (unknown known : LoginDto) (u : User),
        findByEmail A (login_email unknown) = None ->
        findByEmail A (login_email known) = Some u ->
        bcrypt_compare A (login_password known) (user_password u) = false ->
        login A known = login A unknown).
Proof.
  intros Hstated.
  specialize (Hstated Demo.ambient
                (mkLoginDto "nobody@example.com" "guess")
                (mkLoginDto "retired@example.com" "guess")
                Demo.retired eq_refl eq_refl eq_refl).
  discriminate Hstated.
Qed.

Example login_inactive_account :
  login Demo.ambient (mkLoginDto "retired@example.com" "guess")
    = Throw (EApp (UnauthorizedError "Account is inactive")) /\
  login Demo.ambient (mkLoginDto "nobody@example.com" "guess")
    = Throw (EApp (UnauthorizedError "Invalid credentials")).
Proof. split; reflexivity. Qed.

Example login_success :
  login Demo.ambient (mkLoginDto "user@example.com" "Password123!")
    = Ok (mkLoginResponse (mkLoginUser "u-user" "user@example.com" "Regular User" USER)
            "token.of.u-user" (Num 86400)).
Proof. reflexivity. Qed.

End LoginFacts.

(** ** Schema validation *)
Module ValidateFacts.
Import Validate ValidateSpec ErrorHandler.

Lemma issue_field_spec (issue : ZodIssue) : issue_field issue = field_of issue.
Proof.
  unfold issue_field, field_of.
  replace ((fun seg => match seg with PKey name => name | PIndex i => pretty i end)
             <$> issue_path issue)
    with (segment_text <$> issue_path issue)
    by (apply list_fmap_ext; intros ? []; reflexivity).
  destruct (String.concat "." (segment_text <$> issue_path issue)) eqn:Hjoined;
    [reflexivity |].
  rewrite bool_decide_eq_false_2 by discriminate. reflexivity.
Qed.

(** The validators that pass hand the request on as it is. *)
Lemma run_route_passed (A : Ambient) (R : Type) (render : Response -> R)
    (passed : list AnyZodObject) (chain : list Middleware) (controller : Request -> R)
    (req : Request) :
  Forall (fun schema => schema (body req) (query req) (params req) = Parsed) passed ->
  run_route A render ((validate <$> passed) ++ chain) controller req
  = run_route A render chain controller req.
Proof.
  induction 1 as [|schema passed Hschema _ IH]; [reflexivity |].
  cbn [fmap list_fmap app run_route]. unfold validate at 1. rewrite Hschema. exact IH.
Qed.

(** C8, as amended. When the payload passes the schemas validated before on
    the route and violates the next one in k >= 1 places, [validate] ends in
    one ValidationError (422, "Validation failed") whose list has k entries,
    the i-th naming the field of the i-th violation (its path joined by
    dots) and its message, joined by a colon; the error handler sends them
    all in one response and nothing after that [validate] on the route
    runs. A request that passes is handed on exactly as it came in. *)
Theorem validate_reports_all (passed : list AnyZodObject) (schema : AnyZodObject)
    (A : Ambient) (req : Request) (issues : list ZodIssue) :
  issues <> [] ->
  Forall (fun earlier => earlier (body req) (query req) (params req) = Parsed) passed ->
  schema (body req) (query req) (params req) = ZodError issues ->
  exists errs : list string,
    validate schema A req = NextErr (EApp (ValidationError "Validation failed" (Some errs))) /\
    statusCode (ValidationError "Validation failed" (Some errs)) = 422 /\
    length errs = length issues /\
    (forall (i : nat) (issue : ZodIssue),
        issues !! i = Some issue ->
        errs !! i = Some (field_of issue +:+ ": " +:+ issue_message issue)) /\
    http_status (errorHandler A (EApp (ValidationError "Validation failed" (Some errs)))) = 422 /\
    resp_errors (json_body (errorHandler A (EApp (ValidationError "Validation failed" (Some errs)))))
      = Some errs /\
    (forall (R : Type) (render : Response -> R) (chain : list Middleware)
            (controller : Request -> R),
        run_route A render ((validate <$> passed) ++ validate schema :: chain) controller req
        = render (errorHandler A (EApp (ValidationError "Validation failed" (Some errs))))) /\
    (forall req0 req' : Request, validate schema A req0 = Next req' -> req' = req0).
Proof.
  intros Hk Hpassed Hparse. exists (format_issue <$> issues).
  assert (Hval : validate schema A req
                 = NextErr (EApp (ValidationError "Validation failed"
                                    (Some (format_issue <$> issues))))).
  { unfold validate. rewrite Hparse. reflexivity. }
  split; [exact Hval |]. split; [reflexivity |].
  split; [apply length_fmap |].
  split.
  { intros i issue Hi. rewrite list_lookup_fmap, Hi. cbn. unfold format_issue.
    rewrite issue_field_spec. reflexivity. }
  split; [reflexivity |].
  split.
  { destruct issues as [|issue rest]; [congruence | reflexivity]. }
  split.
  { intros R render chain controller. rewrite run_route_passed by assumption.
    cbn [run_route]. rewrite Hval. reflexivity. }
  intros req0 req'. unfold validate.
  destruct (schema (body req0) (query req0) (params req0)); [| discriminate | discriminate].
  intros [= <-]. reflexivity.
Qed.

Lemma validate_reports_all_witness :
  exists errs,
    validate Demo.createResourceSchema Demo.ambient (Demo.with_body Demo.bad_body)
    = NextErr (EApp (ValidationError "Validation failed" (Some errs))) /\
    errs !! 1%nat = Some "body.tags: Expected array, received string" /\
    length errs = 2%nat.
Proof.
  destruct (validate_reports_all [] Demo.createResourceSchema Demo.ambient
              (Demo.with_body Demo.bad_body)
              [mkZodIssue [PKey "body"; PKey "title"] "Title must be at least 3 characters";
               mkZodIssue [PKey "body"; PKey "tags"] "Expected array, received string"]
              ltac:(discriminate) ltac:(constructor) eq_refl)
    as (errs & Hval & _ & Hlen & Hentry & _).
  exists errs. split; [exact Hval |]. split; [| exact Hlen].
  exact (Hentry 1%nat _ eq_refl).
Defined.

(** Read of the whole route the statement fails: [PUT /:id] validates the
    id and then the body, and a request that violates both schemas is
    answered with the violations of the first only. *)
Lemma put_route_reports_first_schema_only :
  ~ (forall (schemas : list AnyZodObject) (A : Ambient) (req : Request)
            (controller : Request -> Response),
        violations schemas req <> [] ->
        resp_errors (json_body (run_route A (fun response => response)
                                  (validate <$> schemas) controller req))
        = Some ((fun issue => field_of issue +:+ ": " +:+ issue_message issue)
                  <$> violations schemas req)).
Proof.
  intros Hstated.
  specialize (Hstated [Demo.resourceIdSchema; Demo.updateResourceSchema] Demo.ambient
                Demo.bad_put
                (fun _ => mkResponse 200 (mkErrorResponse "success" "" None false))
                ltac:(discriminate)).
  vm_compute in Hstated. discriminate Hstated.
Qed.

Example put_route_two_violations :
  violations [Demo.resourceIdSchema; Demo.updateResourceSchema] Demo.bad_put
  = [mkZodIssue [PKey "params"; PKey "id"] "Invalid resource ID format";
     mkZodIssue [PKey "body"; PKey "title"] "Title must be at least 3 characters"] /\
  run_route Demo.ambient (fun response => response)
    [validate Demo.resourceIdSchema; validate Demo.updateResourceSchema]
    (fun _ => mkResponse 200 (mkErrorResponse "success" "" None false)) Demo.bad_put
  = mkResponse 422
      (mkErrorResponse "error" "Validation failed"
         (Some ["params.id: Invalid resource ID format"]) false).
Proof. split; reflexivity. Qed.

Example validate_two_errors :
  validate Demo.createResourceSchema Demo.ambient (Demo.with_body Demo.bad_body)
  = NextErr (EApp (ValidationError "Validation failed"
      (Some ["body.title: Title must be at least 3 characters";
             "body.tags: Expected array, received string"]))).
Proof. reflexivity. Qed.

End ValidateFacts.

(** ** Ownership *)
Module OwnershipFacts.
Import Rbac ResourceService.

Section Service.
Context (A : Ambient) (prisma_update : Resource -> json -> Resource).

Lemma owner_test (u : AuthUser) (resource : Resource) :
  bool_decide (role u ≠ ADMIN) && bool_decide (ownerId resource ≠ id u) = false
  <-> role u = ADMIN \/ ownerId resource = id u.
Proof.
  rewrite andb_false_iff, !bool_decide_eq_false.
  split; (intros [H | H]; [left | right]);
    try (apply dec_stable; exact H); intros Hn; apply Hn; exact H.
Qed.

(** C2. Reading, updating or deleting one existing resource on behalf of an
    authenticated principal succeeds when the principal is an ADMIN or owns
    the resource, and fails with a Forbidden error (403) for every other
    principal, leaving the table as it was. The refusal comes from the
    comparison in the service: the middleware [requireOwnershipOrAdmin] lets every
    authenticated principal through, the ADMIN by its shortcut and everyone
    else without comparing anything. *)
Theorem ownership_or_admin (db : gmap string Resource) (rid : string) (data : json)
    (resource : Resource) (u : AuthUser) :
  db !! rid = Some resource ->
  (role u = ADMIN \/ ownerId resource = id u ->
     getById db rid (id u) (role u) = Ok resource /\
     (exists updated, update A prisma_update db rid data (id u) (role u)
                      = (Ok updated, <[rid := updated]> db)) /\
     delete db rid (id u) (role u) = (Ok tt, base.delete rid db)) /\
  (~ (role u = ADMIN \/ ownerId resource = id u) ->
     (exists msg, getById db rid (id u) (role u) = Throw (EApp (ForbiddenError msg))) /\
     (exists msg, update A prisma_update db rid data (id u) (role u)
                  = (Throw (EApp (ForbiddenError msg)), db)) /\
     (exists msg, delete db rid (id u) (role u) = (Throw (EApp (ForbiddenError msg)), db)) /\
     forall msg, statusCode (ForbiddenError msg) = 403) /\
  (forall (resourceIdParam : string) (req : Request),
     user req = Some u -> requireOwnershipOrAdmin resourceIdParam A req = Next req).
Proof.
  intros Hrow. split; [| split].
  - intros Hallowed%owner_test. unfold getById, update, delete. rewrite Hrow, Hallowed.
    split; [reflexivity |]. split; [eexists; reflexivity | reflexivity].
  - intros Hdenied. unfold getById, update, delete. rewrite Hrow.
    destruct (bool_decide (role u ≠ ADMIN) && bool_decide (ownerId resource ≠ id u)) eqn:Htest.
    + repeat split; try (eexists; reflexivity).
    + apply owner_test in Htest. contradiction.
  - intros resourceIdParam req Hu. unfold requireOwnershipOrAdmin. rewrite Hu.
    destruct (bool_decide (role u = ADMIN)); reflexivity.
Qed.

End Service.

Lemma ownership_or_admin_witness :
  getById Demo.resources "r-1" "u-admin" ADMIN
    = Ok (mkResource "r-1" "u-admin" (JObj [("title", JStr "Getting Started Guide")])) /\
  (exists msg, getById Demo.resources "r-1" "u-user" USER = Throw (EApp (ForbiddenError msg))).
Proof.
  destruct (ownership_or_admin Demo.ambient Demo.replace_columns Demo.resources "r-1" (JObj [])
              (mkResource "r-1" "u-admin" (JObj [("title", JStr "Getting Started Guide")]))
              (mkAuthUser "u-admin" "admin@example.com" ADMIN true) eq_refl)
    as [Hadmin _].
  destruct (ownership_or_admin Demo.ambient Demo.replace_columns Demo.resources "r-1" (JObj [])
              (mkResource "r-1" "u-admin" (JObj [("title", JStr "Getting Started Guide")]))
              (mkAuthUser "u-user" "user@example.com" USER true) eq_refl)
    as (_ & Huser & _).
  split.
  - apply Hadmin. left. reflexivity.
  - apply Huser. intros [Hr | Ho]; discriminate.
Defined.

Example owner_reads_own_resource :
  getById Demo.resources "r-3" "u-user" USER
  = Ok (mkResource "r-3" "u-user" (JObj [("title", JStr "API Reference")])).
Proof. reflexivity. Qed.

Example stranger_is_refused :
  getById Demo.resources "r-1" "u-user" USER
  = Throw (EApp (ForbiddenError "You do not have permission to view this resource")).
Proof. reflexivity. Qed.

End OwnershipFacts.

(** ** The body sanitizer *)
Module SanitizerFacts.
Import Sanitizer SanitizerSpec.

Lemma sanitize_entry_value (sanitized : list (string * json)) (key : string) (value : json) :
  sanitize_entry sanitizeObject sanitized key value =
  if dangerous key then sanitized else set_property sanitized key (sanitized_value value).
Proof. unfold sanitize_entry. destruct (dangerous key); [| destruct value]; reflexivity. Qed.

(** The two loops of [sanitizeObject] as folds over the entries. *)
Lemma sanitizeObject_object (props : list (string * json)) :
  sanitizeObject (JObj props) = JObj (foldl step [] props).
Proof.
  cbn [sanitizeObject]. f_equal. generalize (@nil (string * json)) as acc.
  induction props as [|[k v] rest IH]; intros acc; [reflexivity |].
  cbn [foldl]. rewrite <- IH. reflexivity.
Qed.

Lemma sanitizeObject_array (items : list json) :
  sanitizeObject (JArr items) = JObj (foldl step [] (array_entries items)).
Proof.
  cbn [sanitizeObject]. f_equal. unfold array_entries.
  change (fun (i : nat) (item : json) => (pretty i, item))
    with (fun (i : nat) (item : json) => (pretty (0 + i)%nat, item)).
  generalize (@nil (string * json)) as acc. generalize 0%nat as start.
  induction items as [|v rest IH]; intros start acc; [reflexivity |].
  cbn [imap foldl]. rewrite IH. unfold step at 2. cbn [fst snd].
  rewrite Nat.add_0_r. f_equal.
  apply imap_ext. intros i x _. cbn. f_equal. f_equal. lia.
Qed.

Lemma size_entry (props : list (string * json)) (k : string) (v : json) :
  (k, v) ∈ props -> (json_size v < json_size (JObj props))%nat.
Proof.
  intros Hin. cbn [json_size]. induction props as [|[k' v'] rest IH].
  - inversion Hin.
  - apply elem_of_cons in Hin as [[= <- <-] | Hin]; cbn; [lia |].
    specialize (IH Hin). lia.
Qed.

Lemma size_item (items : list json) (v : json) :
  v ∈ items -> (json_size v < json_size (JArr items))%nat.
Proof.
  intros Hin. cbn [json_size]. induction items as [|v' rest IH].
  - inversion Hin.
  - apply elem_of_cons in Hin as [<- | Hin]; cbn; [lia |].
    specialize (IH Hin). lia.
Qed.

Lemma size_array_entry (items : list json) (k : string) (v : json) :
  (k, v) ∈ array_entries items -> v ∈ items.
Proof.
  unfold array_entries. intros Hin. apply list_elem_of_lookup in Hin as [i Hi].
  rewrite list_lookup_imap in Hi.
  destruct (items !! i) as [x|] eqn:Hx; [| discriminate].
  cbn in Hi. injection Hi as _ <-. eapply list_elem_of_lookup_2; eassumption.
Qed.

Lemma assign_clean (props : list (string * json)) (key : string) (value : json) :
  props_clean props = true -> dangerous key = false -> clean value = true ->
  props_clean (assign props key value) = true.
Proof.
  intros Hp Hk Hv. induction props as [|[k x] rest IH]; cbn.
  - rewrite Hk, Hv. reflexivity.
  - cbn in Hp. apply andb_true_iff in Hp as [Hkx Hrest].
    destruct (decide (k = key)) as [-> |]; cbn.
    + rewrite Hk, Hv, Hrest. reflexivity.
    + rewrite Hkx. apply IH. assumption.
Qed.

Lemma set_property_clean (props : list (string * json)) (key : string) (value : json) :
  props_clean props = true -> dangerous key = false -> clean value = true ->
  props_clean (set_property props key value) = true.
Proof.
  intros. unfold set_property. destruct (decide (key = "__proto__")); auto using assign_clean.
Qed.

(** Every dangerous key is removed, at every depth, also in objects inside
    arrays and in arrays inside arrays. *)
Lemma sanitizeObject_clean (v : json) : clean (sanitizeObject v) = true.
Proof.
  remember (json_size v) as n eqn:Hn. revert v Hn.
  induction n as [n IH] using lt_wf_ind. intros v ->.
  assert (Hvalue : forall x, (json_size x < json_size v)%nat -> clean (sanitized_value x) = true).
  { intros x Hx. destruct x as [| | | |items|props]; try reflexivity.
    - cbn [sanitized_value clean]. apply forallb_forall. intros y Hy.
      apply in_map_iff in Hy as (item & <- & Hitem).
      apply list_elem_of_In in Hitem. pose proof (size_item _ _ Hitem).
      destruct item; try reflexivity; cbn [is_object];
        (eapply IH; [| reflexivity]; lia).
    - cbn [sanitized_value]. eapply IH; [| reflexivity]. lia. }
  assert (Hfold : forall entries,
             (forall k x, (k, x) ∈ entries -> (json_size x < json_size v)%nat) ->
             forall acc, props_clean acc = true -> props_clean (foldl step acc entries) = true).
  { induction entries as [|[k x] rest IHe]; intros Hsize acc Hacc; [assumption |].
    cbn [foldl]. apply IHe.
    - intros k' x' Hin. apply (Hsize k' x'). apply list_elem_of_further. assumption.
    - unfold step. cbn [fst snd]. rewrite sanitize_entry_value.
      destruct (dangerous k) eqn:Hk; [assumption |].
      apply set_property_clean; [assumption | assumption |].
      apply Hvalue. apply (Hsize k x). apply list_elem_of_here. }
  destruct v as [| | | |items|props]; try reflexivity.
  - rewrite sanitizeObject_array. apply Hfold; [| reflexivity].
    intros k x Hin. apply size_item. eapply size_array_entry. eassumption.
  - rewrite sanitizeObject_object. apply Hfold; [| reflexivity].
    intros k x Hin. eapply size_entry. eassumption.
Qed.

Lemma get_assign (props : list (string * json)) (key key' : string) (value : json) :
  get (assign props key value) key' =
  if decide (key = key') then Some value else get props key'.
Proof.
  induction props as [|[k x] rest IH]; cbn.
  - destruct (decide (key = key')); reflexivity.
  - destruct (decide (k = key)) as [-> | Hk]; cbn.
    + destruct (decide (key = key')); reflexivity.
    + destruct (decide (k = key')) as [-> | Hk'].
      * destruct (decide (key = key')); [congruence | reflexivity].
      * apply IH.
Qed.

Lemma get_None (props : list (string * json)) (key : string) :
  key ∉ props.*1 -> get props key = None.
Proof.
  induction props as [|[k x] rest IH]; [reflexivity |].
  cbn. intros [Hne Hrest]%not_elem_of_cons.
  destruct (decide (k = key)); [congruence | auto].
Qed.

Lemma get_step_other (acc : list (string * json)) (k key : string) (x : json) :
  k <> key -> get (step acc (k, x)) key = get acc key.
Proof.
  intros Hne. unfold step. cbn [fst snd]. rewrite sanitize_entry_value.
  destruct (dangerous k); [reflexivity |]. unfold set_property.
  destruct (decide (k = "__proto__")); [reflexivity |].
  rewrite get_assign. destruct (decide (k = key)); [congruence | reflexivity].
Qed.

Lemma get_foldl_step (entries acc : list (string * json)) (key : string) :
  NoDup entries.*1 -> dangerous key = false -> key <> "__proto__" ->
  get (foldl step acc entries) key =
  match get entries key with
  | Some value => Some (sanitized_value value)
  | None => get acc key
  end.
Proof.
  intros Hnodup Hkey Hproto. revert acc.
  induction entries as [|[k x] rest IH]; intros acc; [reflexivity |].
  cbn in Hnodup. apply NoDup_cons in Hnodup as [Hfresh Hnodup].
  cbn [foldl get]. rewrite (IH Hnodup).
  destruct (decide (k = key)) as [-> | Hne].
  - rewrite (get_None _ _ Hfresh). unfold step. cbn [fst snd].
    rewrite sanitize_entry_value, Hkey. unfold set_property.
    destruct (decide (key = "__proto__")); [congruence |].
    rewrite get_assign. destruct (decide (key = key)); [reflexivity | congruence].
  - rewrite (get_step_other _ _ _ _ Hne). reflexivity.
Qed.

Lemma get_foldl_removed (entries acc : list (string * json)) (key : string) :
  dangerous key = true \/ key = "__proto__" ->
  get (foldl step acc entries) key = get acc key.
Proof.
  intros Hkey. revert acc. induction entries as [|[k x] rest IH]; intros acc; [reflexivity |].
  cbn [foldl]. rewrite IH. destruct (decide (k = key)) as [-> | Hne].
  - unfold step. cbn [fst snd]. rewrite sanitize_entry_value.
    destruct (dangerous key) eqn:Hd; [reflexivity |]. unfold set_property.
    destruct Hkey as [? | ->]; [congruence |].
    destruct (decide ("__proto__" = "__proto__")); [reflexivity | congruence].
  - apply get_step_other. assumption.
Qed.

(** Every property of an object whose name is not dangerous, and is not
    [__proto__], is kept, with its value sanitized in turn; a value that is
    not an object or an array is kept as it is. *)
Lemma sanitizeObject_keeps (props : list (string * json)) (key : string) :
  NoDup props.*1 -> dangerous key = false -> key <> "__proto__" ->
  get (own_properties (sanitizeObject (JObj props))) key = sanitized_value <$> get props key.
Proof.
  intros Hnodup Hkey Hproto. rewrite sanitizeObject_object. cbn [own_properties].
  rewrite get_foldl_step by assumption. destruct (get props key); reflexivity.
Qed.

Lemma sanitizeObject_keeps_scalar (props : list (string * json)) (key : string) (value : json) :
  NoDup props.*1 -> dangerous key = false -> key <> "__proto__" ->
  get props key = Some value -> is_object value = false ->
  get (own_properties (sanitizeObject (JObj props))) key = Some value.
Proof.
  intros Hnodup Hkey Hproto Hget Hscalar.
  rewrite sanitizeObject_keeps, Hget by assumption.
  destruct value; try reflexivity; discriminate.
Qed.

Lemma sanitizeObject_removes (props : list (string * json)) (key : string) :
  dangerous key = true ->
  get (own_properties (sanitizeObject (JObj props))) key = None.
Proof.
  intros Hkey. rewrite sanitizeObject_object. cbn [own_properties].
  rewrite get_foldl_removed by (left; assumption). reflexivity.
Qed.

(** Scenario F of the spec. *)
Example sanitizeBody_scenario_F :
  sanitizeBody (Some (JObj [("name", JStr "$ne"); ("profile", JObj [("bio..", JStr "x")])]))
  = Some (JObj [("name", JStr "$ne"); ("profile", JObj [])]).
Proof. reflexivity. Qed.

Example sanitizeBody_nested :
  sanitizeBody (Some (JObj [("filters", JArr [JObj [("$where", JStr "1"); ("tag", JStr "a")];
                                               JNum 7]);
                            ("$set", JObj []);
                            ("a..b", JNull);
                            ("title", JStr "Guide")]))
  = Some (JObj [("filters", JArr [JObj [("tag", JStr "a")]; JNum 7]);
                ("title", JStr "Guide")]).
Proof. reflexivity. Qed.

(** An array directly inside an array comes back as an object keyed by the
    indices. *)
Example sanitizeBody_array_in_array :
  sanitizeBody (Some (JObj [("grid", JArr [JArr [JNum 1; JObj [("$gt", JNum 0)]]])]))
  = Some (JObj [("grid", JArr [JObj [("0", JNum 1); ("1", JObj [])]])]).
Proof. reflexivity. Qed.

(** C3, at the input on which the sanitizer departs from it. The key
    [__proto__] neither starts with [$] nor contains [..], so it is a sibling
    to be preserved; the sanitizer returns an object without it. *)
Theorem sanitizeBody_drops_proto_sibling :
  dangerous "__proto__" = false /\
  get [("title", JStr "Guide"); ("__proto__", JObj [("role", JStr "ADMIN")])] "__proto__"
    = Some (JObj [("role", JStr "ADMIN")]) /\
  sanitizeBody
    (Some (JObj [("title", JStr "Guide"); ("__proto__", JObj [("role", JStr "ADMIN")])]))
    = Some (JObj [("title", JStr "Guide")]) /\
  get (own_properties
         (sanitizeObject
            (JObj [("title", JStr "Guide"); ("__proto__", JObj [("role", JStr "ADMIN")])])))
      "__proto__" = None.
Proof. repeat split. Qed.

End SanitizerFacts.

(** ** Rate limiting *)
Module RateLimiterFacts.
Import RateLimiter RateLimiterSpec.

Lemma counted_among_cons (p : Policy) (h : Hit) (hits : list Hit) :
  counted_among p (h :: hits)
  = (if bool_decide (counted p h) then 1 else 0) + counted_among p hits.
Proof.
  unfold counted_among. case_bool_decide.
  - rewrite filter_cons_True by assumption. cbn [length]. lia.
  - rewrite filter_cons_False by assumption. lia.
Qed.

Lemma counted_among_nonneg (p : Policy) (hits : list Hit) : 0 <= counted_among p hits.
Proof. unfold counted_among. lia. Qed.

Lemma counted_among_all (p : Policy) (hits : list Hit) :
  Forall (counted p) hits -> counted_among p hits = Z.of_nat (length hits).
Proof.
  induction 1 as [|h hits Hh _ IH]; [reflexivity |].
  rewrite counted_among_cons, IH, bool_decide_eq_true_2 by assumption.
  cbn [length]. lia.
Qed.

Lemma settle_counted (p : Policy) (h : Hit) (buckets : gmap string Bucket) :
  counted p h -> settle p (hit_key h) (downstream_status h) buckets = buckets.
Proof.
  intros [Hskip | Hstatus]; unfold settle.
  - rewrite Hskip. reflexivity.
  - rewrite (bool_decide_eq_false_2 (downstream_status h < 400)) by lia.
    rewrite andb_false_r. reflexivity.
Qed.

Lemma settle_skipped (p : Policy) (h : Hit) (buckets : gmap string Bucket) (b : Bucket) :
  ~ counted p h -> buckets !! hit_key h = Some b ->
  settle p (hit_key h) (downstream_status h) buckets
  = <[hit_key h := mkBucket (windowStart b) (count b - 1)]> buckets.
Proof.
  intros Hskipped Hb. unfold counted in Hskipped. unfold settle.
  destruct (skipSuccessfulRequests p); [| tauto].
  rewrite bool_decide_eq_true_2 by lia. cbn [andb]. rewrite Hb. reflexivity.
Qed.

Lemma serve_other_key (p : Policy) (h : Hit) (key : string) (buckets : gmap string Bucket) :
  hit_key h <> key -> (serve p h buckets).2 !! key = buckets !! key.
Proof.
  intros Hne. unfold serve, check, settle.
  destruct (buckets !! hit_key h) as [b|] eqn:Hb;
    repeat (case_bool_decide || case_match || simplify_eq || cbn [snd fst andb] in * );
    rewrite ?lookup_insert_ne by assumption; try reflexivity.
Qed.

(** The request that opens a window is let through, and the counter stands
    at one afterwards when the request counts, at zero when it does not. *)
Lemma serve_opens_window (p : Policy) (h : Hit) (buckets : gmap string Bucket) :
  no_window p (hit_key h) (at_time h) buckets ->
  (serve p h buckets).1 = downstream_status h /\
  (serve p h buckets).2 !! hit_key h
  = Some (mkBucket (at_time h) (if bool_decide (counted p h) then 1 else 0)).
Proof.
  intros Hfresh.
  assert (check p (at_time h) (hit_key h) buckets
          = (Allow, <[hit_key h := mkBucket (at_time h) 1]> buckets)) as Hcheck.
  { unfold check. unfold no_window in Hfresh.
    destruct (buckets !! hit_key h) as [b|]; [| reflexivity].
    rewrite bool_decide_eq_true_2 by assumption. reflexivity. }
  unfold serve. rewrite Hcheck. cbn [fst snd]. split; [reflexivity |].
  case_bool_decide as Hcounted.
  - rewrite settle_counted by assumption. apply lookup_insert_eq.
  - rewrite (settle_skipped p h _ (mkBucket (at_time h) 1)) by (try assumption; apply lookup_insert_eq).
    rewrite lookup_insert_eq. reflexivity.
Qed.

(** Inside a running window whose counter stands at [c]: the request is
    answered 429 when the counter would pass the maximum, and the counter
    keeps the increment unless the request was let through and does not
    count. *)
Lemma serve_in_window (p : Policy) (h : Hit) (buckets : gmap string Bucket) (start c : Z) :
  buckets !! hit_key h = Some (mkBucket start c) ->
  at_time h < start + windowMs p ->
  (serve p h buckets).1
  = (if bool_decide (c + 1 > max p) then 429 else downstream_status h) /\
  (serve p h buckets).2 !! hit_key h
  = Some (mkBucket start
            (if bool_decide (c + 1 > max p) then c + 1
             else if bool_decide (counted p h) then c + 1 else c)).
Proof.
  intros Hb Htime. unfold serve, check. rewrite Hb. cbn [windowStart count].
  rewrite bool_decide_eq_false_2 by lia.
  case_bool_decide as Hfull; cbn [fst snd].
  - split; [reflexivity | apply lookup_insert_eq].
  - split; [reflexivity |].
    case_bool_decide as Hcounted.
    + rewrite settle_counted by assumption. apply lookup_insert_eq.
    + rewrite (settle_skipped p h _ (mkBucket start (c + 1))) by (try assumption; apply lookup_insert_eq).
      rewrite lookup_insert_eq. cbn [windowStart count]. do 2 f_equal. lia.
Qed.

(** Inside a running window whose counter stands at [c], a request of the
    key is let through exactly when [c] and the counted requests of the key
    since then stay below the maximum; requests of other keys change
    nothing. *)
Lemma serve_all_in_window (p : Policy) (key : string) (start : Z) (hits : list Hit) :
  forall (c : Z) (buckets : gmap string Bucket),
    buckets !! key = Some (mkBucket start c) ->
    Forall (fun h => at_time h < start + windowMs p)
           (filter (fun h => hit_key h = key) hits) ->
    (forall (i : nat) (h : Hit),
        filter (fun h => hit_key h = key) hits !! i = Some h ->
        key_statuses key hits (serve_all p hits buckets).1 !! i
        = Some (if bool_decide
                     (c + counted_among p (take i (filter (fun h => hit_key h = key) hits))
                      < max p)
                then downstream_status h else 429)) /\
    exists c', (serve_all p hits buckets).2 !! key = Some (mkBucket start c').
Proof.
  induction hits as [|h rest IH]; intros c buckets Hb Hall.
  - split; [intros i h Hi; discriminate Hi | eauto].
  - cbn [serve_all].
    destruct (serve p h buckets) as [st buckets1] eqn:Hserve.
    destruct (serve_all p rest buckets1) as [sts buckets2] eqn:Hrest.
    cbn [fst snd]. unfold key_statuses. cbn [zip zip_with].
    destruct (decide (hit_key h = key)) as [Hk | Hk].
    + rewrite filter_cons_True in Hall by assumption.
      apply Forall_cons in Hall as [Htime Hall].
      rewrite !filter_cons_True by assumption.
      rewrite <- Hk in Hb.
      destruct (serve_in_window p h buckets start c Hb Htime) as [Hst Hnext].
      rewrite Hserve in Hst, Hnext. cbn [fst snd] in Hst, Hnext. rewrite Hk in Hnext.
      destruct (IH _ buckets1 Hnext Hall) as [Hsts Hfinal].
      rewrite Hrest in Hsts, Hfinal. cbn [fst snd] in Hsts, Hfinal.
      split; [| assumption].
      intros i x Hi. cbn [fmap list_fmap snd]. fold (key_statuses key rest sts).
      destruct i as [|j].
      * injection Hi as <-. cbn [take]. cbn [lookup list_lookup]. f_equal.
        rewrite Hst. unfold counted_among. cbn.
        repeat case_bool_decide; try reflexivity; lia.
      * rewrite lookup_cons in Hi. rewrite lookup_cons. rewrite (Hsts j x Hi).
        cbn [take]. rewrite counted_among_cons.
        pose proof (counted_among_nonneg p
                      (take j (filter (fun h0 => hit_key h0 = key) rest))) as Hnn.
        f_equal. repeat case_bool_decide; try reflexivity; lia.
    + rewrite filter_cons_False in Hall by assumption.
      rewrite !filter_cons_False by assumption.
      destruct (IH c buckets1) as [Hsts Hfinal].
      { replace buckets1 with (serve p h buckets).2 by (rewrite Hserve; reflexivity).
        rewrite serve_other_key by assumption. assumption. }
      { assumption. }
      rewrite Hrest in Hsts, Hfinal. cbn [fst snd] in Hsts, Hfinal.
      split; assumption.
Qed.

(** From the request that opens the window on. *)
Lemma serve_all_from_first (p : Policy) (key : string) (hits : list Hit) :
  forall (buckets : gmap string Bucket) (first : Hit) (later : list Hit),
    1 <= max p ->
    filter (fun h => hit_key h = key) hits = first :: later ->
    no_window p key (at_time first) buckets ->
    Forall (fun h => at_time h < at_time first + windowMs p) later ->
    (forall (i : nat) (h : Hit),
        (first :: later) !! i = Some h ->
        key_statuses key hits (serve_all p hits buckets).1 !! i
        = Some (if bool_decide (counted_among p (take i (first :: later)) < max p)
                then downstream_status h else 429)) /\
    exists c', (serve_all p hits buckets).2 !! key = Some (mkBucket (at_time first) c').
Proof.
  induction hits as [|h rest IH]; intros buckets first later Hmax Hmine Hfresh Hlater.
  - discriminate Hmine.
  - cbn [serve_all].
    destruct (serve p h buckets) as [st buckets1] eqn:Hserve.
    destruct (serve_all p rest buckets1) as [sts buckets2] eqn:Hrest.
    cbn [fst snd]. unfold key_statuses. cbn [zip zip_with].
    destruct (decide (hit_key h = key)) as [Hk | Hk].
    + rewrite filter_cons_True in Hmine by assumption.
      injection Hmine as -> Hmine. rewrite <- Hmine in Hlater.
      rewrite filter_cons_True by assumption.
      rewrite <- Hk in Hfresh.
      destruct (serve_opens_window p first buckets Hfresh) as [Hst Hnext].
      rewrite Hserve in Hst, Hnext. cbn [fst snd] in Hst, Hnext. rewrite Hk in Hnext.
      destruct (serve_all_in_window p key (at_time first) rest _ buckets1 Hnext Hlater)
        as [Hsts Hfinal].
      rewrite Hrest in Hsts, Hfinal. cbn [fst snd] in Hsts, Hfinal.
      split; [| assumption].
      intros i x Hi. cbn [fmap list_fmap snd]. fold (key_statuses key rest sts).
      destruct i as [|j].
      * injection Hi as <-. cbn [take lookup list_lookup]. f_equal.
        rewrite Hst. unfold counted_among. cbn.
        rewrite bool_decide_eq_true_2 by lia. reflexivity.
      * rewrite lookup_cons in Hi. rewrite lookup_cons. rewrite <- Hmine in Hi.
        rewrite (Hsts j x Hi). cbn [take]. rewrite counted_among_cons, Hmine.
        reflexivity.
    + rewrite filter_cons_False in Hmine by assumption.
      rewrite filter_cons_False by assumption.
      destruct (IH buckets1 first later Hmax Hmine) as [Hsts Hfinal]; try assumption.
      { unfold no_window.
        replace buckets1 with (serve p h buckets).2 by (rewrite Hserve; reflexivity).
        rewrite serve_other_key by assumption. exact Hfresh. }
      rewrite Hrest in Hsts, Hfinal. cbn [fst snd] in Hsts, Hfinal.
      split; assumption.
Qed.

Lemma serve_after_window (p : Policy) (h : Hit) (buckets : gmap string Bucket) (b : Bucket) :
  buckets !! hit_key h = Some b -> windowStart b + windowMs p <= at_time h ->
  (serve p h buckets).1 = downstream_status h.
Proof.
  intros Hb Hlate. unfold serve, check. rewrite Hb.
  rewrite bool_decide_eq_true_2 by assumption. reflexivity.
Qed.

(** C5, as amended. Under a policy with window W and maximum N >= 1, take
    the requests of one key from the one that opens a window, all of them
    arriving before the window has lasted W, counted or not (a request
    counts unless the policy skips successful requests and the route answers
    it with a status below 400). A request is let through to the route
    exactly when fewer than N counted requests of the key precede it in the
    window, and is answered 429 otherwise: the first N counted requests are
    let through and every request after them, the (N+1)th counted one in
    particular, is refused, whatever the other keys do in between. A request
    of the key that arrives once W has elapsed is let through again. *)
Theorem rate_limit_window (p : Policy) (key : string) (buckets : gmap string Bucket)
    (hits : list Hit) (first : Hit) (later : list Hit) :
  1 <= max p ->
  filter (fun h => hit_key h = key) hits = first :: later ->
  no_window p key (at_time first) buckets ->
  Forall (fun h => at_time h < at_time first + windowMs p) later ->
  (forall (i : nat) (h : Hit),
      (first :: later) !! i = Some h ->
      key_statuses key hits (serve_all p hits buckets).1 !! i
      = Some (if bool_decide (counted_among p (take i (first :: later)) < max p)
              then downstream_status h
              else ErrorHandler.http_status (handler p))) /\
  (Forall (counted p) (first :: later) ->
   forall (i : nat) (h : Hit),
      (first :: later) !! i = Some h ->
      key_statuses key hits (serve_all p hits buckets).1 !! i
      = Some (if bool_decide (Z.of_nat i < max p) then downstream_status h
              else ErrorHandler.http_status (handler p))) /\
  ErrorHandler.http_status (handler p) = 429 /\
  (forall h : Hit,
      hit_key h = key -> at_time first + windowMs p <= at_time h ->
      (serve p h (serve_all p hits buckets).2).1 = downstream_status h).
Proof.
  intros Hmax Hmine Hfresh Hwindow.
  destruct (serve_all_from_first p key hits buckets first later Hmax Hmine Hfresh Hwindow)
    as [Hsts [c' Hfinal]].
  split; [exact Hsts |]. split; [| split; [reflexivity |]].
  - intros Hcounted i h Hi. rewrite (Hsts i h Hi).
    assert (counted_among p (take i (first :: later)) = Z.of_nat i) as ->; [| reflexivity].
    rewrite counted_among_all by (apply Forall_take; exact Hcounted).
    rewrite length_take. apply lookup_lt_Some in Hi. lia.
  - intros h Hk Hlate. rewrite <- Hk in Hfinal.
    apply (serve_after_window p h _ _ Hfinal). exact Hlate.
Qed.

Lemma rate_limit_window_witness :
  key_statuses "203.0.113.7" guesses (serve_all authLimiter guesses ∅).1 !! 2%nat
    = Some 200 /\
  key_statuses "203.0.113.7" guesses (serve_all authLimiter guesses ∅).1 !! 5%nat
    = Some 401 /\
  key_statuses "203.0.113.7" guesses (serve_all authLimiter guesses ∅).1 !! 6%nat
    = Some 429 /\
  key_statuses "203.0.113.7" failed_logins (serve_all authLimiter failed_logins ∅).1 !! 5%nat
    = Some 429 /\
  (serve authLimiter (mkHit 900000 "203.0.113.7" 401)
         (serve_all authLimiter failed_logins ∅).2).1 = 401.
Proof.
  destruct (rate_limit_window authLimiter "203.0.113.7" ∅ guesses
              (mkHit 0 "203.0.113.7" 401)
              [mkHit 60000 "203.0.113.7" 401; mkHit 90000 "203.0.113.7" 200;
               mkHit 120000 "203.0.113.7" 401; mkHit 180000 "203.0.113.7" 401;
               mkHit 240000 "203.0.113.7" 401; mkHit 300000 "203.0.113.7" 401])
    as (Hmixed & _).
  { cbn. lia. }
  { reflexivity. }
  { exact I. }
  { repeat constructor; cbn; lia. }
  destruct (rate_limit_window authLimiter "203.0.113.7" ∅ failed_logins
              (mkHit 0 "203.0.113.7" 401)
              [mkHit 60000 "203.0.113.7" 401; mkHit 120000 "203.0.113.7" 401;
               mkHit 180000 "203.0.113.7" 401; mkHit 240000 "203.0.113.7" 401;
               mkHit 300000 "203.0.113.7" 401])
    as (_ & Hstatus & _ & Hresume).
  { cbn. lia. }
  { reflexivity. }
  { exact I. }
  { repeat constructor; cbn; lia. }
  split; [exact (Hmixed 2%nat _ eq_refl) |].
  split; [exact (Hmixed 5%nat _ eq_refl) |].
  split; [exact (Hmixed 6%nat _ eq_refl) |].
  split.
  { apply (Hstatus ltac:(repeat (apply Forall_cons; split; [right; cbn; lia |]);
                          apply Forall_nil_2) 5%nat _ eq_refl). }
  apply Hresume; [reflexivity | cbn; lia].
Defined.

(** Neither restriction can be dropped. Without the restriction to counted
    requests the statement fails under the policy of the authentication
    routes, which does not count the requests that succeed: six successful
    logins in a row all pass. And with a maximum of zero the request that
    opens a window is let through all the same. *)
Lemma rate_limit_skips_successful_logins :
  ~ (forall (p : Policy) (key : string) (buckets : gmap string Bucket)
            (hits : list Hit) (first : Hit) (later : list Hit),
        1 <= max p ->
        filter (fun h => hit_key h = key) hits = first :: later ->
        no_window p key (at_time first) buckets ->
        Forall (fun h => at_time h < at_time first + windowMs p) later ->
        forall (i : nat) (h : Hit),
          (first :: later) !! i = Some h ->
          key_statuses key hits (serve_all p hits buckets).1 !! i
          = Some (if bool_decide (Z.of_nat i < max p) then downstream_status h else 429)) /\
  ~ (forall (p : Policy) (key : string) (buckets : gmap string Bucket)
            (hits : list Hit) (first : Hit) (later : list Hit),
        filter (fun h => hit_key h = key) hits = first :: later ->
        no_window p key (at_time first) buckets ->
        Forall (fun h => at_time h < at_time first + windowMs p) later ->
        Forall (counted p) (first :: later) ->
        forall (i : nat) (h : Hit),
          (first :: later) !! i = Some h ->
          key_statuses key hits (serve_all p hits buckets).1 !! i
          = Some (if bool_decide (Z.of_nat i < max p) then downstream_status h else 429)).
Proof.
  split.
  - intros Hstated.
    specialize (Hstated authLimiter "203.0.113.7" ∅
                  [mkHit 0 "203.0.113.7" 200; mkHit 60000 "203.0.113.7" 200;
                   mkHit 120000 "203.0.113.7" 200; mkHit 180000 "203.0.113.7" 200;
                   mkHit 240000 "203.0.113.7" 200; mkHit 300000 "203.0.113.7" 200]
                  (mkHit 0 "203.0.113.7" 200)
                  [mkHit 60000 "203.0.113.7" 200;
                   mkHit 120000 "203.0.113.7" 200; mkHit 180000 "203.0.113.7" 200;
                   mkHit 240000 "203.0.113.7" 200; mkHit 300000 "203.0.113.7" 200]).
    pose proof (Hstated ltac:(cbn; lia) eq_refl I ltac:(repeat constructor; cbn; lia)
                  5%nat (mkHit 300000 "203.0.113.7" 200) eq_refl) as Hsixth.
    vm_compute in Hsixth. discriminate Hsixth.
  - intros Hstated.
    pose proof (Hstated closed "203.0.113.7" ∅ [mkHit 0 "203.0.113.7" 200]
                  (mkHit 0 "203.0.113.7" 200) [] eq_refl I ltac:(constructor)
                  ltac:(repeat constructor) 0%nat (mkHit 0 "203.0.113.7" 200) eq_refl)
      as Hfirst.
    vm_compute in Hfirst. discriminate Hfirst.
Qed.

Example six_failed_logins :
  (serve_all authLimiter
     [mkHit 0 "203.0.113.7" 401; mkHit 60000 "203.0.113.7" 401;
      mkHit 120000 "203.0.113.7" 401; mkHit 180000 "203.0.113.7" 401;
      mkHit 240000 "203.0.113.7" 401; mkHit 300000 "203.0.113.7" 401] ∅).1
  = [401; 401; 401; 401; 401; 429].
Proof. reflexivity. Qed.

Example six_successful_logins :
  (serve_all authLimiter
     [mkHit 0 "203.0.113.7" 200; mkHit 60000 "203.0.113.7" 200;
      mkHit 120000 "203.0.113.7" 200; mkHit 180000 "203.0.113.7" 200;
      mkHit 240000 "203.0.113.7" 200; mkHit 300000 "203.0.113.7" 200] ∅).1
  = [200; 200; 200; 200; 200; 200].
Proof. reflexivity. Qed.

(** A login that succeeds between failures neither counts nor resets the
    count: the sixth failure of the window is still refused. *)
Example success_between_failures :
  (serve_all authLimiter guesses ∅).1 = [401; 401; 200; 401; 401; 401; 429].
Proof. reflexivity. Qed.

End RateLimiterFacts.

(* ===================================================================== *)
(** * Part III: further properties of the code                           *)
(* ===================================================================== *)

(** ** The other authentication middlewares *)
Module AuthMiddlewareFacts.
Import AuthService AuthMiddleware Rbac ErrorHandler AuthMiddlewareSpec.

(** X1. [optionalAuthenticate] never ends in an error: it attaches exactly
    the user that [authenticate] would attach, and hands the request on
    untouched where [authenticate] would refuse it. *)
Theorem optionalAuthenticate_agrees (A : Ambient) (req : Request) :
  optionalAuthenticate A req =
    match authenticate A req with
    | Next req' => Next req'
    | NextErr _ => Next req
    end /\
  (forall e, optionalAuthenticate A req <> NextErr e).
Proof.
  assert (Heq : optionalAuthenticate A req =
                match authenticate A req with Next req' => Next req' | NextErr _ => Next req end).
  { unfold optionalAuthenticate, authenticate.
    destruct (authorization req) as [h|]; [| reflexivity].
    destruct (bool_decide (h = "") || negb (String.prefix "Bearer " h)); [reflexivity |].
    destruct (verifyToken A (substring_from 7 h)) as [decoded|e]; [| reflexivity].
    destruct (findById A (userId decoded)) as [u|]; [| reflexivity].
    destruct (user_isActive u); reflexivity. }
  split; [exact Heq |].
  intros e. rewrite Heq. destruct (authenticate A req); discriminate.
Qed.

(** X2. [authenticateApiKey] lets a request through exactly when the
    environment holds a non-empty key and the header carries that very key;
    with no key configured every request is refused. A request that passes
    is handed on unchanged (no user is attached), and every refusal is an
    Unauthorized error. *)
Theorem authenticateApiKey_fail_closed (API_KEY x_api_key : option string)
    (A : Ambient) (req : Request) :
  ((exists r, authenticateApiKey API_KEY x_api_key A req = Next r) <->
   exists k, k <> "" /\ API_KEY = Some k /\ x_api_key = Some k) /\
  (forall r, authenticateApiKey API_KEY x_api_key A req = Next r -> r = req) /\
  (forall e, authenticateApiKey API_KEY x_api_key A req = NextErr e ->
     exists msg, e = EApp (UnauthorizedError msg) /\ statusCode (UnauthorizedError msg) = 401).
Proof.
  unfold authenticateApiKey.
  destruct x_api_key as [[|c s]|]; [| destruct API_KEY as [[|c' s']|] |].
  1,2,4,5: (split; [split; [intros [r Hr]; discriminate Hr
                               | intros (k & Hk & H1 & H2); congruence] |];
            split; [intros r Hr; discriminate Hr
                   | intros e [= <-]; eexists; split; reflexivity]).
  destruct (decide (String c s = String c' s')) as [Heq | Hne].
  - rewrite bool_decide_eq_false_2 by (intros Hn; apply Hn; exact Heq).
    split; [split |].
    + intros _. exists (String c s). rewrite Heq. repeat split; discriminate.
    + intros _. exists req. reflexivity.
    + split; [intros r [= <-]; reflexivity | intros e He; discriminate He].
  - rewrite bool_decide_eq_true_2 by exact Hne.
    split; [split |].
    + intros [r Hr]. discriminate Hr.
    + intros (k & Hk & H1 & H2). congruence.
    + split; [intros r Hr; discriminate Hr
             | intros e [= <-]; eexists; split; reflexivity].
Qed.

Lemma authenticateApiKey_fail_closed_witness :
  (exists r, authenticateApiKey (Some "k-123") (Some "k-123") Demo.ambient
               (Demo.request None None) = Next r) /\
  ~ (exists r, authenticateApiKey None (Some "k-123") Demo.ambient
                 (Demo.request None None) = Next r).
Proof.
  destruct (authenticateApiKey_fail_closed (Some "k-123") (Some "k-123") Demo.ambient
              (Demo.request None None)) as [[_ Hpass] _].
  destruct (authenticateApiKey_fail_closed None (Some "k-123") Demo.ambient
              (Demo.request None None)) as [[Hnone _] _].
  split.
  - apply Hpass. exists "k-123". repeat split. discriminate.
  - intros Hr. destruct (Hnone Hr) as (k & _ & Hk & _). discriminate Hk.
Defined.

(** X3. [authenticate] refuses only with an Unauthorized error (401), with
    one of six fixed messages; and a request without a header that starts
    with "Bearer " is refused with "No token provided" whatever the
    environment holds: neither the library nor the store is consulted. *)
Theorem authenticate_refusals (A : Ambient) (req : Request) :
  (forall e, authenticate A req = NextErr e ->
     exists msg, e = EApp (UnauthorizedError msg) /\ msg ∈ authenticate_messages /\
                 http_status (errorHandler A e) = 401) /\
  ((authorization req = None \/
    exists h, authorization req = Some h /\ String.prefix "Bearer " h = false) ->
   forall A' : Ambient,
     authenticate A' req = NextErr (EApp (UnauthorizedError "No token provided"))).
Proof.
  split.
  - intros e. unfold authenticate, verifyToken, authenticate_messages.
    destruct (authorization req) as [h|];
      [destruct (bool_decide (h = "") || negb (String.prefix "Bearer " h));
       [| destruct (jwt_verify A (substring_from 7 h) (jwtSecret A)) as [d|err];
          [destruct (findById A (userId d)) as [u|]; [destruct (user_isActive u) |]
          | destruct (instanceof_TokenExpiredError err);
            [| destruct (instanceof_JsonWebTokenError err)]]] |];
      cbn; intros [= <-] || (intros Hd; discriminate Hd);
      eexists; (split; [reflexivity |]); (split; [| reflexivity]);
      repeat (first [apply list_elem_of_here | apply list_elem_of_further]).
  - intros Hheader A'. unfold authenticate.
    destruct Hheader as [-> | (h & -> & Hprefix)]; [reflexivity |].
    rewrite Hprefix, orb_true_r. reflexivity.
Qed.

Lemma authenticate_refusals_witness :
  authenticate Demo.ambient (Demo.request (Some "bearer token.of.user") None)
  = NextErr (EApp (UnauthorizedError "No token provided")).
Proof.
  destruct (authenticate_refusals Demo.ambient
              (Demo.request (Some "bearer token.of.user") None)) as [_ Hno].
  apply Hno. right. exists "bearer token.of.user". split; reflexivity.
Defined.

(** X4. [requireRole] is monotone in its list: a request that passes for a
    list passes for every list that contains it, so what [requireAdmin] lets
    through [requireUserOrAdmin] lets through as well; with an empty list
    every authenticated request is refused with a Forbidden error. *)
Theorem requireRole_monotone (allowed allowed' : list Role) (A : Ambient) (req : Request) :
  allowed ⊆ allowed' ->
  (forall r, requireRole allowed A req = Next r -> requireRole allowed' A req = Next r) /\
  (forall r, requireAdmin A req = Next r -> requireUserOrAdmin A req = Next r) /\
  (forall u, user req = Some u ->
     requireRole [] A req
     = NextErr (EApp (ForbiddenError "Access denied. Required role(s): "))).
Proof.
  intros Hsub.
  assert (Hmono : forall l l', l ⊆ l' -> forall r,
             requireRole l A req = Next r -> requireRole l' A req = Next r).
  { intros l l' Hl r. unfold requireRole. destruct (user req) as [u|]; [| discriminate].
    destruct (decide (role u ∈ l)) as [Hin | Hout].
    - rewrite (bool_decide_eq_true_2 _ Hin). rewrite (bool_decide_eq_true_2 (role u ∈ l')).
      + auto.
      + apply Hl. exact Hin.
    - rewrite (bool_decide_eq_false_2 _ Hout). discriminate. }
  split; [apply Hmono; exact Hsub |]. split.
  - apply Hmono. intros x Hx. apply list_elem_of_singleton in Hx as ->.
    apply list_elem_of_further, list_elem_of_here.
  - intros u Hu. unfold requireRole. rewrite Hu.
    rewrite bool_decide_eq_false_2 by apply not_elem_of_nil. reflexivity.
Qed.

Lemma requireRole_monotone_witness :
  requireUserOrAdmin Demo.ambient
    (Demo.request None (Some (mkAuthUser "u-admin" "admin@example.com" ADMIN true)))
  = Next (Demo.request None (Some (mkAuthUser "u-admin" "admin@example.com" ADMIN true))).
Proof.
  destruct (requireRole_monotone [ADMIN] [USER; ADMIN] Demo.ambient
              (Demo.request None (Some (mkAuthUser "u-admin" "admin@example.com" ADMIN true))))
    as (_ & Hadmin & _).
  - intros x Hx. apply list_elem_of_singleton in Hx as ->.
    apply list_elem_of_further, list_elem_of_here.
  - apply Hadmin. reflexivity.
Defined.

(** X5. After [authenticate] the check of [requireActiveAccount] can only
    succeed: the attached user is active, so a route that chains the two
    behaves as with [authenticate] alone. *)
Theorem requireActiveAccount_after_authenticate (A : Ambient) (req : Request) :
  (forall r, authenticate A req = Next r -> requireActiveAccount A r = Next r) /\
  (forall (R : Type) (render : Response -> R) (chain : list Middleware)
          (controller : Request -> R),
      run_route A render (authenticate :: requireActiveAccount :: chain) controller req
      = run_route A render (authenticate :: chain) controller req).
Proof.
  assert (Hactive : forall r, authenticate A req = Next r -> requireActiveAccount A r = Next r).
  { intros r Hr.
    destruct (AuthFacts.authenticate_next_inv A req r Hr) as (t & d & u & _ & _ & _ & ->).
    reflexivity. }
  split; [exact Hactive |].
  intros R render chain controller. cbn [run_route].
  destruct (authenticate A req) as [r|e] eqn:Hr; [| reflexivity].
  rewrite (Hactive r eq_refl). reflexivity.
Qed.

Lemma requireActiveAccount_after_authenticate_witness :
  requireActiveAccount Demo.ambient
    (Demo.request (Some "Bearer token.of.user")
       (Some (mkAuthUser "u-user" "user@example.com" USER true)))
  = Next (Demo.request (Some "Bearer token.of.user")
            (Some (mkAuthUser "u-user" "user@example.com" USER true))).
Proof.
  destruct (requireActiveAccount_after_authenticate Demo.ambient
              (Demo.request (Some "Bearer token.of.user") None)) as [Hactive _].
  apply Hactive. reflexivity.
Defined.

(** X6. On the resource router a principal with the role GUEST is refused
    with a Forbidden error (403) although its token is valid and its account
    active: nothing after the two middlewares of the router runs. *)
Theorem guest_refused_on_resource_routes (A : Ambient) (req r : Request) (u : AuthUser) :
  authenticate A req = Next r ->
  user r = Some u ->
  role u = GUEST ->
  forall (R : Type) (render : Response -> R) (chain : list Middleware)
         (controller : Request -> R),
    run_route A render (authenticate :: requireUserOrAdmin :: chain) controller req
    = render (errorHandler A
                (EApp (ForbiddenError "Access denied. Required role(s): USER, ADMIN"))) /\
    http_status (errorHandler A
                   (EApp (ForbiddenError "Access denied. Required role(s): USER, ADMIN"))) = 403.
Proof.
  intros Hauth Hu Hguest R render chain controller. split; [| reflexivity].
  cbn [run_route]. rewrite Hauth. unfold requireUserOrAdmin, requireRole. rewrite Hu, Hguest.
  reflexivity.
Qed.

Lemma guest_refused_on_resource_routes_witness :
  run_route (Accounts.ambient_on Demo2.rows Demo2.base [Demo2.guest]) (fun resp => http_status resp)
    [authenticate; requireUserOrAdmin] (fun _ => 200)
    (Demo2.with_header "Bearer jwt:id:guest@example.com")
  = 403.
Proof.
  apply (guest_refused_on_resource_routes
           (Accounts.ambient_on Demo2.rows Demo2.base [Demo2.guest])
           (Demo2.with_header "Bearer jwt:id:guest@example.com")
           (set_user (Demo2.with_header "Bearer jwt:id:guest@example.com")
                     (mkAuthUser "id:guest@example.com" "guest@example.com" GUEST true))
           (mkAuthUser "id:guest@example.com" "guest@example.com" GUEST true)
           eq_refl eq_refl eq_refl Z (fun resp => http_status resp) [] (fun _ => 200)).
Defined.

End AuthMiddlewareFacts.

(** ** Accounts: login, registration, change of password *)
Module AccountFacts.
Import AuthService AuthMiddleware Accounts ErrorHandler.

(** The payload that [generateLoginResponse] signs for a row. *)
Lemma generateLoginResponse_inv (A : Ambient) (u : User) (r : LoginResponse) :
  generateLoginResponse A u = Ok r ->
  exists token,
    jwt_sign A (mkJwtPayload (user_id u) (user_email u) (user_role u) None None)
             (jwtSecret A) (jwtExpiresIn A) = Signed token /\
    r = mkLoginResponse
          (mkLoginUser (user_id u) (user_email u) (user_name u) (user_role u))
          token (Ttl.parseExpirationTime (jwtExpiresIn A)).
Proof.
  unfold generateLoginResponse.
  destruct (jwt_sign A _ (jwtSecret A) (jwtExpiresIn A)) as [token | name msg];
    [| discriminate].
  intros [= <-]. eauto.
Qed.

Lemma login_ok_inv (A : Ambient) (data : LoginDto) (r : LoginResponse) :
  login A data = Ok r ->
  exists u, findByEmail A (login_email data) = Some u /\
            user_isActive u = true /\
            bcrypt_compare A (login_password data) (user_password u) = true /\
            generateLoginResponse A u = Ok r.
Proof.
  unfold login.
  destruct (findByEmail A (login_email data)) as [u|]; [| discriminate].
  destruct (user_isActive u) eqn:Hact; cbn [negb]; [| discriminate].
  destruct (bcrypt_compare A (login_password data) (user_password u)) eqn:Hpw; cbn [negb];
    [| discriminate].
  intros Hr. exists u. auto.
Qed.

Lemma login_accepted (A : Ambient) (data : LoginDto) (u : User) :
  findByEmail A (login_email data) = Some u ->
  user_isActive u = true ->
  bcrypt_compare A (login_password data) (user_password u) = true ->
  login A data = generateLoginResponse A u.
Proof. intros Hu Hact Hpw. unfold login. rewrite Hu, Hact, Hpw. reflexivity. Qed.

(** X7. [login] succeeds exactly when the email belongs to a principal
    that is active, the library accepts the password against the stored
    hash, and jsonwebtoken signs the payload; the response then names that
    principal (id, email, name, role), carries the token and not the stored
    hash. When the credentials are accepted and the signing throws (a time
    span in [JWT_EXPIRES_IN] that the library does not accept), [login]
    throws that error, which is answered 500 and not 401. *)
Theorem login_succeeds_iff (A : Ambient) (data : LoginDto) :
  (forall r, login A data = Ok r <->
     exists u token,
       findByEmail A (login_email data) = Some u /\
       user_isActive u = true /\
       bcrypt_compare A (login_password data) (user_password u) = true /\
       jwt_sign A (mkJwtPayload (user_id u) (user_email u) (user_role u) None None)
                (jwtSecret A) (jwtExpiresIn A) = Signed token /\
       r = mkLoginResponse
             (mkLoginUser (user_id u) (user_email u) (user_name u) (user_role u))
             token (Ttl.parseExpirationTime (jwtExpiresIn A))) /\
  (forall u name msg,
     findByEmail A (login_email data) = Some u ->
     user_isActive u = true ->
     bcrypt_compare A (login_password data) (user_password u) = true ->
     jwt_sign A (mkJwtPayload (user_id u) (user_email u) (user_role u) None None)
              (jwtSecret A) (jwtExpiresIn A) = SignThrows name msg ->
     login A data = Throw (EOther name msg) /\
     http_status (errorHandler A (EOther name msg)) = 500).
Proof.
  split.
  - intros r. split.
    + intros Hlogin. apply login_ok_inv in Hlogin as (u & Hu & Hact & Hpw & Hr).
      apply generateLoginResponse_inv in Hr as (token & Hsign & ->).
      exists u, token. auto.
    + intros (u & token & Hu & Hact & Hpw & Hsign & ->).
      rewrite (login_accepted A data u) by assumption.
      unfold generateLoginResponse. rewrite Hsign. reflexivity.
  - intros u name msg Hu Hact Hpw Hsign.
    rewrite (login_accepted A data u) by assumption.
    unfold generateLoginResponse. rewrite Hsign. split; reflexivity.
Qed.

Lemma login_succeeds_iff_witness :
  login Demo.ambient (mkLoginDto "user@example.com" "Password123!")
  = Ok (mkLoginResponse (mkLoginUser "u-user" "user@example.com" "Regular User" USER)
          "token.of.u-user" (Num 86400)) /\
  login (ambient_on Demo2.rows Demo2.misconfigured [Demo2.ann])
        (mkLoginDto "ann@example.com" "correct horse")
  = Throw (EOther "Error" "expiresIn should be a number of seconds or a timespan").
Proof.
  split.
  - destruct (login_succeeds_iff Demo.ambient (mkLoginDto "user@example.com" "Password123!"))
      as [Hiff _].
    apply Hiff. exists Demo.regular, "token.of.u-user". repeat split.
  - destruct (login_succeeds_iff (ambient_on Demo2.rows Demo2.misconfigured [Demo2.ann])
                (mkLoginDto "ann@example.com" "correct horse"))
      as [_ Hthrows].
    apply (Hthrows Demo2.ann); reflexivity.
Defined.

(** X8. The token of a successful login authenticates: if the library
    verifies what it has just signed and gives back the same user id, and the
    store finds by id the row it found by email, then a request that carries
    the access token as a bearer token passes [authenticate] with the logged
    in principal attached. *)
Theorem login_then_authenticate (A : Ambient) (data : LoginDto) (r : LoginResponse)
    (req : Request) :
  (forall payload token,
      jwt_sign A payload (jwtSecret A) (jwtExpiresIn A) = Signed token ->
      exists decoded,
        jwt_verify A token (jwtSecret A) = Decoded decoded /\
        userId decoded = userId payload) ->
  (forall u, findByEmail A (login_email data) = Some u -> findById A (user_id u) = Some u) ->
  login A data = Ok r ->
  authorization req = Some ("Bearer " +:+ accessToken r) ->
  authenticate A req
  = Next (set_user req (mkAuthUser (lu_id (login_user r)) (lu_email (login_user r))
                                   (lu_role (login_user r)) true)).
Proof.
  intros Hjwt Hstore Hlogin Hheader.
  apply login_ok_inv in Hlogin as (u & Hu & Hact & _ & Hr).
  apply generateLoginResponse_inv in Hr as (token & Hsign & ->).
  cbn [accessToken] in Hheader.
  destruct (Hjwt _ token Hsign) as (decoded & Hverify & Hid).
  rewrite (AuthFacts.authenticate_verified A req _ decoded Hheader Hverify).
  rewrite Hid. cbn [userId]. rewrite (Hstore u Hu), Hact. reflexivity.
Qed.

Lemma login_then_authenticate_witness :
  authenticate (ambient_on Demo2.rows Demo2.base [Demo2.ann])
    (Demo2.with_header "Bearer jwt:id:ann@example.com")
  = Next (set_user (Demo2.with_header "Bearer jwt:id:ann@example.com")
            (mkAuthUser "id:ann@example.com" "ann@example.com" USER true)).
Proof.
  apply (login_then_authenticate (ambient_on Demo2.rows Demo2.base [Demo2.ann])
           (mkLoginDto "ann@example.com" "correct horse")
           (mkLoginResponse (mkLoginUser "id:ann@example.com" "ann@example.com" "Ann" USER)
              "jwt:id:ann@example.com" (Num 7200))
           (Demo2.with_header "Bearer jwt:id:ann@example.com")).
  - intros payload token. cbn. unfold Demo2.sign, Demo2.verify.
    rewrite bool_decide_eq_false_2 by discriminate. intros [= <-].
    exists (mkJwtPayload (userId payload) "" GUEST None None).
    split; [| reflexivity]. cbv [String.app].
    replace (String.prefix "jwt:" (String "j" (String "w" (String "t" (String ":" (userId payload))))))
      with true by (cbn; destruct (userId payload); reflexivity).
    unfold substring_from. cbn [String.length String.substring].
    replace (S (S (S (S (String.length (userId payload)))))- 4)%nat
      with (String.length (userId payload)) by lia.
    rewrite AuthFacts.substring_all. reflexivity.
  - intros u [= <-]. reflexivity.
  - reflexivity.
  - reflexivity.
Defined.

Section Repository.
Context {Repo : Type} (ops : UserRepository Repo) (bcrypt_hash : string -> Z -> string)
        (A : Ambient).

Lemma register_free (repo : Repo) (data : RegisterUserDto) :
  repo_findByEmail ops repo (register_email data) = None ->
  register ops bcrypt_hash A repo data
  = (generateLoginResponse A
       (repo_create ops repo
          (mkCreateUser (register_email data) (bcrypt_hash (register_password data) 10)
             (register_name data) USER)).1,
     (repo_create ops repo
        (mkCreateUser (register_email data) (bcrypt_hash (register_password data) 10)
           (register_name data) USER)).2).
Proof.
  unfold register, saltRounds.
  intros ->. destruct (repo_create ops repo _) as [u repo']. reflexivity.
Qed.

Lemma register_ok_inv (repo repo' : Repo) (data : RegisterUserDto) (r : LoginResponse) :
  register ops bcrypt_hash A repo data = (Ok r, repo') ->
  repo_findByEmail ops repo (register_email data) = None.
Proof.
  unfold register.
  destruct (repo_findByEmail ops repo (register_email data)); [discriminate | reflexivity].
Qed.

(** X9. [register] refuses an email that is taken with a Conflict error
    (409) and writes nothing. For a free email it has the repository create
    one row, always with the role USER and with the hash of the password in
    place of the password, and then answers with the login response for that
    row: when the signing of the token throws, the registration fails with
    that error although the row has been created. *)
Theorem register_outcomes (repo : Repo) (data : RegisterUserDto) :
  (forall existing, repo_findByEmail ops repo (register_email data) = Some existing ->
     register ops bcrypt_hash A repo data
     = (Throw (EApp (ConflictError "User with this email already exists")), repo) /\
     statusCode (ConflictError "User with this email already exists") = 409) /\
  (repo_findByEmail ops repo (register_email data) = None ->
     let row :=
       repo_create ops repo
         (mkCreateUser (register_email data) (bcrypt_hash (register_password data) 10)
            (register_name data) USER) in
     register ops bcrypt_hash A repo data = (generateLoginResponse A row.1, row.2) /\
     forall name msg,
       jwt_sign A (mkJwtPayload (user_id row.1) (user_email row.1) (user_role row.1) None None)
                (jwtSecret A) (jwtExpiresIn A) = SignThrows name msg ->
       register ops bcrypt_hash A repo data = (Throw (EOther name msg), row.2)) /\
  (forall r repo', register ops bcrypt_hash A repo data = (Ok r, repo') ->
     repo_findByEmail ops repo (register_email data) = None).
Proof.
  split; [| split].
  - unfold register. intros existing ->. split; reflexivity.
  - intros Hfree row. subst row. rewrite register_free by assumption.
    split; [reflexivity |].
    intros name msg Hsign. unfold generateLoginResponse. rewrite Hsign. reflexivity.
  - intros r repo'. apply register_ok_inv.
Qed.

(** X10. Registration and login fit together. Suppose the repository
    returns from [create] a row with the email and password it was given,
    active, and finds that row by its email afterwards; and suppose the
    library accepts a password against its own hash. Then after a successful
    [register], at any later instant, a login with the same email and
    password passes the checks of the credentials and answers for the row
    created: when it returns, its response names the same principal as the
    response of the registration. A second registration of that email is
    refused with a Conflict error. *)
Theorem register_then_login (repo repo' : Repo) (data : RegisterUserDto) (r : LoginResponse)
    (later : Ambient) :
  (forall input, let '(u, after) := repo_create ops repo input in
     user_email u = create_email input /\ user_password u = create_password input /\
     user_isActive u = true /\ repo_findByEmail ops after (create_email input) = Some u) ->
  (forall plain, bcrypt_compare later plain (bcrypt_hash plain 10) = true) ->
  register ops bcrypt_hash A repo data = (Ok r, repo') ->
  (exists u,
     login (ambient_on ops later repo')
           (mkLoginDto (register_email data) (register_password data))
     = generateLoginResponse (ambient_on ops later repo') u /\
     login_user r = mkLoginUser (user_id u) (user_email u) (user_name u) (user_role u)) /\
  (forall r',
     login (ambient_on ops later repo')
           (mkLoginDto (register_email data) (register_password data)) = Ok r' ->
     login_user r' = login_user r) /\
  (forall again, register_email again = register_email data ->
     (register ops bcrypt_hash later repo' again).1
     = Throw (EApp (ConflictError "User with this email already exists"))).
Proof.
  intros Hcreate Hbcrypt Hreg.
  pose proof (register_ok_inv repo repo' data r Hreg) as Hnone.
  rewrite (register_free repo data Hnone) in Hreg.
  specialize (Hcreate (mkCreateUser (register_email data)
                         (bcrypt_hash (register_password data) 10)
                         (register_name data) USER)).
  destruct (repo_create ops repo _) as [u after]. cbn [fst snd] in Hreg.
  injection Hreg as Hr <-. cbn [create_email create_password] in Hcreate.
  destruct Hcreate as (Hemail & Hpw & Hact & Hfind).
  apply generateLoginResponse_inv in Hr as (token & _ & ->). cbn [login_user].
  assert (Hlogin : login (ambient_on ops later after)
                     (mkLoginDto (register_email data) (register_password data))
                   = generateLoginResponse (ambient_on ops later after) u).
  { apply login_accepted; cbn [findByEmail bcrypt_compare ambient_on login_email login_password].
    - exact Hfind.
    - exact Hact.
    - rewrite Hpw. apply Hbcrypt. }
  split; [exists u; split; [exact Hlogin | reflexivity] |].
  split.
  - intros r' Hr'. rewrite Hlogin in Hr'.
    apply generateLoginResponse_inv in Hr' as (token' & _ & ->). reflexivity.
  - intros again Hsame. unfold register. rewrite Hsame, Hfind. reflexivity.
Qed.

(** [changePassword] case by case: an unknown user, a rejected current
    password, and success. *)
Lemma changePassword_outcomes (repo : Repo) (userId currentPassword newPassword : string) :
  (repo_findById ops repo userId = None ->
     changePassword ops bcrypt_hash A repo userId currentPassword newPassword
     = (Throw (EApp (BadRequestError "User not found" None)), repo)) /\
  (forall u, repo_findById ops repo userId = Some u ->
     bcrypt_compare A currentPassword (user_password u) = false ->
     changePassword ops bcrypt_hash A repo userId currentPassword newPassword
     = (Throw (EApp (UnauthorizedError "Current password is incorrect")), repo)) /\
  (forall repo',
     changePassword ops bcrypt_hash A repo userId currentPassword newPassword = (Ok tt, repo') <->
     exists u, repo_findById ops repo userId = Some u /\
               bcrypt_compare A currentPassword (user_password u) = true /\
               repo' = repo_update_password ops repo userId (bcrypt_hash newPassword 10)).
Proof.
  unfold changePassword, saltRounds. split; [| split].
  - intros ->. reflexivity.
  - intros u -> ->. reflexivity.
  - intros repo'. destruct (repo_findById ops repo userId) as [u|].
    + destruct (bcrypt_compare A currentPassword (user_password u)) eqn:Hpw; cbn [negb].
      * split; [intros [= <-]; exists u; auto |].
        intros (u' & [= <-] & _ & ->). reflexivity.
      * split; [discriminate |]. intros (u' & [= <-] & Hpw' & _). congruence.
    + split; [discriminate |]. intros (u' & Hu' & _). discriminate Hu'.
Qed.

(** X11. A change of password takes effect at the next login and
    happens only with the current password. Suppose the repository, after
    [update], finds the user by email with the new hash in place of the old
    and nothing else changed, and the library accepts a password against its
    own hash. Then after a successful [changePassword], at any later
    instant, a login with the new password passes the checks of the
    credentials and answers for the user, and any password that the library
    rejects against the new hash is refused with "Invalid credentials"; a
    [changePassword] whose current password the library rejects fails with
    an Unauthorized error and leaves the repository as it was. *)
Theorem changePassword_then_login (repo repo' : Repo) (u : User)
    (currentPassword newPassword : string) (later : Ambient) :
  (forall hashed, repo_findByEmail ops (repo_update_password ops repo (user_id u) hashed)
                    (user_email u) = Some (with_password hashed u)) ->
  (forall plain, bcrypt_compare later plain (bcrypt_hash plain 10) = true) ->
  repo_findById ops repo (user_id u) = Some u ->
  user_isActive u = true ->
  (changePassword ops bcrypt_hash A repo (user_id u) currentPassword newPassword = (Ok tt, repo') ->
     login (ambient_on ops later repo') (mkLoginDto (user_email u) newPassword)
     = generateLoginResponse (ambient_on ops later repo')
         (with_password (bcrypt_hash newPassword 10) u) /\
     forall other, bcrypt_compare later other (bcrypt_hash newPassword 10) = false ->
       login (ambient_on ops later repo') (mkLoginDto (user_email u) other)
       = Throw (EApp (UnauthorizedError "Invalid credentials"))) /\
  (bcrypt_compare A currentPassword (user_password u) = false ->
     changePassword ops bcrypt_hash A repo (user_id u) currentPassword newPassword
     = (Throw (EApp (UnauthorizedError "Current password is incorrect")), repo)).
Proof.
  intros Hupdate Hbcrypt Hfind Hactive.
  destruct (changePassword_outcomes repo (user_id u) currentPassword newPassword)
    as (_ & Hwrong & Hok).
  split.
  - intros Hchanged. apply Hok in Hchanged as (u' & Hu' & _ & ->).
    unfold login, ambient_on. cbn [findByEmail bcrypt_compare login_email login_password].
    rewrite Hupdate. cbn [with_password user_isActive user_password]. rewrite Hactive.
    split.
    + rewrite Hbcrypt. reflexivity.
    + intros other ->. reflexivity.
  - intros Hrejected. apply (Hwrong u Hfind Hrejected).
Qed.

End Repository.

Lemma changePassword_then_login_witness :
  login (ambient_on Demo2.rows Demo2.base
           (changePassword Demo2.rows Demo2.hash Demo2.base [Demo2.ann]
              "id:ann@example.com" "correct horse" "battery staple").2)
        (mkLoginDto "ann@example.com" "correct horse")
  = Throw (EApp (UnauthorizedError "Invalid credentials")).
Proof.
  destruct (changePassword_then_login Demo2.rows Demo2.hash Demo2.base [Demo2.ann]
              (changePassword Demo2.rows Demo2.hash Demo2.base [Demo2.ann]
                 "id:ann@example.com" "correct horse" "battery staple").2
              Demo2.ann "correct horse" "battery staple" Demo2.base)
    as [Hnew _].
  - intros hashed. reflexivity.
  - intros plain. cbn. apply bool_decide_eq_true_2. reflexivity.
  - reflexivity.
  - reflexivity.
  - destruct (Hnew eq_refl) as [_ Hold]. apply Hold. reflexivity.
Defined.

Lemma register_then_login_witness :
  (exists u,
     login (ambient_on Demo2.rows Demo2.base
              (register Demo2.rows Demo2.hash Demo2.base []
                 (mkRegisterDto "ann@example.com" "correct horse" "Ann")).2)
           (mkLoginDto "ann@example.com" "correct horse")
     = generateLoginResponse
         (ambient_on Demo2.rows Demo2.base
            (register Demo2.rows Demo2.hash Demo2.base []
               (mkRegisterDto "ann@example.com" "correct horse" "Ann")).2) u /\
     mkLoginUser "id:ann@example.com" "ann@example.com" "Ann" USER
     = mkLoginUser (user_id u) (user_email u) (user_name u) (user_role u)) /\
  (register Demo2.rows Demo2.hash Demo2.base
     (register Demo2.rows Demo2.hash Demo2.base []
        (mkRegisterDto "ann@example.com" "correct horse" "Ann")).2
     (mkRegisterDto "ann@example.com" "guess" "Impostor")).1
  = Throw (EApp (ConflictError "User with this email already exists")).
Proof.
  destruct (register_then_login Demo2.rows Demo2.hash Demo2.base []
              (register Demo2.rows Demo2.hash Demo2.base []
                 (mkRegisterDto "ann@example.com" "correct horse" "Ann")).2
              (mkRegisterDto "ann@example.com" "correct horse" "Ann")
              (mkLoginResponse (mkLoginUser "id:ann@example.com" "ann@example.com" "Ann" USER)
                 "jwt:id:ann@example.com" (Num 7200))
              Demo2.base)
    as (Hlogin & _ & Hagain).
  - intros input. cbn. repeat split.
    rewrite bool_decide_eq_true_2 by reflexivity. reflexivity.
  - intros plain. cbn. apply bool_decide_eq_true_2. reflexivity.
  - reflexivity.
  - split; [exact Hlogin |].
    apply (Hagain (mkRegisterDto "ann@example.com" "guess" "Impostor")). reflexivity.
Defined.

Lemma register_outcomes_witness :
  register Demo2.rows Demo2.hash Demo2.base [Demo2.ann]
    (mkRegisterDto "ann@example.com" "another" "Impostor")
  = (Throw (EApp (ConflictError "User with this email already exists")), [Demo2.ann]) /\
  register Demo2.rows Demo2.hash Demo2.misconfigured []
    (mkRegisterDto "ann@example.com" "correct horse" "Ann")
  = (Throw (EOther "Error" "expiresIn should be a number of seconds or a timespan"),
     [Demo2.ann]).
Proof.
  split.
  - destruct (register_outcomes Demo2.rows Demo2.hash Demo2.base [Demo2.ann]
                (mkRegisterDto "ann@example.com" "another" "Impostor")) as (Htaken & _).
    apply (Htaken Demo2.ann eq_refl).
  - destruct (register_outcomes Demo2.rows Demo2.hash Demo2.misconfigured []
                (mkRegisterDto "ann@example.com" "correct horse" "Ann")) as (_ & Hfree & _).
    destruct (Hfree eq_refl) as [_ Hthrows].
    apply (Hthrows "Error" "expiresIn should be a number of seconds or a timespan").
    reflexivity.
Defined.

End AccountFacts.

(** ** The TTL parser, on every input *)
Module TtlMoreFacts.
Import Number Ttl TtlSpec NumberFacts.

Lemma of_Z_nonneg (z : Z) :
  0 <= z ->
  (exists r, of_Z z = Num r /\ 0 <= r <= 2 * z) \/ of_Z z = Infinity.
Proof.
  intros Hz. pose proof (round_bounds z Hz) as Hr. unfold of_Z.
  destruct (Z.leb_spec (2 ^ 1024) (round z)); [right; reflexivity |].
  assert (0 < 2 ^ 1024) by (apply Z.pow_pos_nonneg; lia).
  destruct (Z.leb_spec (round z) (- 2 ^ 1024)); [lia |].
  left. eauto.
Qed.

Lemma of_Z_finite (z : Z) :
  0 <= z -> 2 * z < 2 ^ 1024 -> exists r, of_Z z = Num r /\ 0 <= r <= 2 * z.
Proof.
  intros Hz Hsmall. destruct (of_Z_nonneg z Hz) as [Hnum | Hinf]; [assumption |].
  exfalso. pose proof (round_bounds z Hz) as Hr. revert Hinf. unfold of_Z.
  destruct (Z.leb_spec (2 ^ 1024) (round z)); [lia |].
  destruct (round z <=? - 2 ^ 1024); discriminate.
Qed.

Lemma string_length_app (a b : string) :
  String.length (a +:+ b) = (String.length a + String.length b)%nat.
Proof.
  induction a as [|c a IH]; [reflexivity |].
  change (String c a +:+ b) with (String c (a +:+ b)). cbn [String.length].
  rewrite IH. reflexivity.
Qed.

(** X12. Whatever the string, [parseExpirationTime] returns a number that
    is not negative: never [NaN], although [parseInt] can return it. The
    number is an integer for every string of at most 300 characters; for a
    longer run of digits it can be [Infinity]. *)
Theorem parseExpirationTime_nonneg (expiration : string) :
  ((exists seconds : Z, parseExpirationTime expiration = Num seconds /\ 0 <= seconds) \/
   parseExpirationTime expiration = Infinity) /\
  ((String.length expiration <= 300)%nat ->
   exists seconds : Z, parseExpirationTime expiration = Num seconds /\ 0 <= seconds).
Proof.
  unfold parseExpirationTime.
  destruct (regex_match expiration) as [[value unit]|] eqn:Hm;
    [| split; [left |]; exists 86400; split; (reflexivity || lia)].
  apply TtlFacts.regex_match_inv in Hm as (-> & Hne & Hds & [k Hk]).
  rewrite (TtlFacts.parseInt_digits value Hne Hds).
  pose proof (TtlFacts.decimal_value_bounds value Hds) as [Hv Hlen].
  assert (Hunit : 1 <= k <= 86400).
  { destruct (TtlFacts.unit_cases unit k Hk) as [[_ ->] | [[_ ->] | [[_ ->] | [_ ->]]]]; lia. }
  assert (Hscaled : forall x : number,
             (if bool_decide (unit = "s"%char) then x
              else if bool_decide (unit = "m"%char) then mul x (Num 60)
              else if bool_decide (unit = "h"%char) then mul x (Num 3600)
              else if bool_decide (unit = "d"%char) then mul x (Num 86400)
              else Num 86400)
             = if bool_decide (unit = "s"%char) then x else mul x (Num k)).
  { intros x.
    destruct (TtlFacts.unit_cases unit k Hk) as [[-> ->] | [[-> ->] | [[-> ->] | [-> ->]]]];
      reflexivity. }
  rewrite Hscaled. split.
  - destruct (of_Z_nonneg (decimal_value value) Hv) as [(r & -> & Hr) | ->].
    + case_bool_decide; [left; exists r; split; [reflexivity | lia] |].
      unfold mul. destruct (of_Z_nonneg (r * k) ltac:(nia)) as [(r' & -> & Hr') | ->];
        [left; exists r'; split; [reflexivity | lia] | right; reflexivity].
    + right. case_bool_decide; [reflexivity |].
      destruct (TtlFacts.unit_cases unit k Hk) as [[_ ->] | [[_ ->] | [[_ ->] | [_ ->]]]];
        reflexivity.
  - intros Hshort. rewrite string_length_app in Hshort. cbn [String.length] in Hshort.
    assert (decimal_value value < 10 ^ 299) as Hsmall.
    { eapply Z.lt_le_trans; [exact Hlen |]. apply Z.pow_le_mono_r; lia. }
    assert (4 * (10 ^ 299 * 86400) < 2 ^ 1024) as Hroom by (vm_compute; reflexivity).
    destruct (of_Z_finite (decimal_value value) Hv ltac:(nia)) as (r & -> & Hr).
    case_bool_decide; [exists r; split; [reflexivity | lia] |].
    unfold mul. destruct (of_Z_finite (r * k) ltac:(nia) ltac:(nia)) as (r' & -> & Hr').
    exists r'. split; [reflexivity | lia].
Qed.

Example parseExpirationTime_infinite :
  parseExpirationTime (String.concat "" (replicate 310 "9") +:+ "s") = Infinity.
Proof. vm_compute. reflexivity. Qed.

End TtlMoreFacts.

(** ** The resource service beyond ownership *)
Module ResourceFacts.
Import ResourceService.

Section Service.
Context (A : Ambient) (prisma_update : Resource -> json -> Resource).

(** X13. Existence is checked before ownership: [getById], [update] and
    [delete] answer NotFound (404) exactly when the id is absent, whoever
    asks; so a principal that is neither owner nor ADMIN is told Forbidden
    for an id that exists and NotFound for one that does not. *)
Theorem not_found_before_forbidden (db : gmap string Resource) (rid userId : string)
    (userRole : Role) (data : json) :
  (getById db rid userId userRole = Throw (EApp (NotFoundError "Resource not found"))
   <-> db !! rid = None) /\
  ((update A prisma_update db rid data userId userRole).1
     = Throw (EApp (NotFoundError "Resource not found")) <-> db !! rid = None) /\
  ((delete db rid userId userRole).1 = Throw (EApp (NotFoundError "Resource not found"))
   <-> db !! rid = None) /\
  (userRole <> ADMIN ->
   (forall resource, db !! rid = Some resource -> ownerId resource <> userId) ->
   (is_Some (db !! rid) <->
    getById db rid userId userRole
    = Throw (EApp (ForbiddenError "You do not have permission to view this resource")))).
Proof.
  unfold getById, update, delete.
  destruct (db !! rid) as [resource|] eqn:Hrow.
  - destruct (bool_decide (userRole ≠ ADMIN) && bool_decide (ownerId resource ≠ userId)) eqn:Ht;
      cbn [fst].
    + repeat split; try discriminate; try (intros; eauto; fail).
    + repeat split; try discriminate.
      * intros _. exfalso. apply andb_false_iff in Ht as [Ht | Ht];
          apply bool_decide_eq_false in Ht; apply Ht; [assumption | eauto].
  - repeat split; try reflexivity; try discriminate.
    + intros [x Hx]. discriminate Hx.
Qed.

(** X14. A successful [delete] removes the row and nothing else: the id is
    NotFound afterwards for every principal, a second [delete] fails with
    NotFound and leaves the table as it is, and every other id reads as
    before. *)
Theorem delete_then_read (db db' : gmap string Resource) (rid userId : string)
    (userRole : Role) :
  delete db rid userId userRole = (Ok tt, db') ->
  (forall who r, getById db' rid who r = Throw (EApp (NotFoundError "Resource not found"))) /\
  (forall who r, delete db' rid who r
                 = (Throw (EApp (NotFoundError "Resource not found")), db')) /\
  (forall other who r, other <> rid -> getById db' other who r = getById db other who r).
Proof.
  unfold delete. destruct (db !! rid) as [resource|] eqn:Hrow; [| discriminate].
  destruct (bool_decide (userRole ≠ ADMIN) && bool_decide (ownerId resource ≠ userId));
    [discriminate |].
  intros [= <-]. split; [| split].
  - intros who r. unfold getById. rewrite lookup_delete_eq. reflexivity.
  - intros who r. rewrite lookup_delete_eq. reflexivity.
  - intros other who r Hne. unfold getById. rewrite lookup_delete_ne by congruence.
    reflexivity.
Qed.

Lemma update_ok_inv (db : gmap string Resource) (rid : string) (data : json)
    (userId : string) (userRole : Role) (updated : Resource) :
  (update A prisma_update db rid data userId userRole).1 = Ok updated ->
  exists resource, db !! rid = Some resource /\
    updated = prisma_update resource (Helpers.sanitizeObject A data).
Proof.
  unfold update. destruct (db !! rid) as [resource|]; [| discriminate].
  destruct (bool_decide (userRole ≠ ADMIN) && bool_decide (ownerId resource ≠ userId));
    [discriminate |].
  intros [= <-]. eauto.
Qed.

End Service.

Lemma delete_then_read_witness :
  getById (base.delete "r-3" Demo.resources) "r-3" "u-user" USER
  = Throw (EApp (NotFoundError "Resource not found")).
Proof.
  destruct (delete_then_read Demo.resources (base.delete "r-3" Demo.resources)
              "r-3" "u-user" USER eq_refl) as [Hgone _].
  apply Hgone.
Defined.

Lemma not_found_before_forbidden_witness :
  getById Demo.resources "r-404" "u-user" USER
  = Throw (EApp (NotFoundError "Resource not found")).
Proof.
  destruct (not_found_before_forbidden Demo.ambient Demo.replace_columns Demo.resources
              "r-404" "u-user" USER (JObj [])) as [[_ Hnone] _].
  apply Hnone. reflexivity.
Defined.

End ResourceFacts.

(** ** Listing resources *)
Module ListingFacts.
Import ResourceService Helpers DemoQueries.

Section Listing.
Context (prisma_findMany : WhereInput -> number -> number -> list Resource)
        (prisma_count : WhereInput -> Z).

(** X16. A principal that is not an ADMIN lists its own resources only.
    Provided Prisma returns, for a query with an owner, rows of that owner:
    whatever filters the caller passes, an owner filter naming somebody else
    included, every row that [list] returns for a non-ADMIN with a non-empty
    id is owned by that id. For an ADMIN the filters reach the query as they
    were passed. *)
Theorem list_shows_own_resources (filters : ResourceFilters)
    (pagination : PaginationParams) (userId : string) (userRole : Role) :
  (forall whereInput skip take owner row,
      where_ownerId whereInput = Some owner ->
      row ∈ prisma_findMany whereInput skip take -> ownerId row = owner) ->
  (userRole <> ADMIN -> userId <> "" ->
     forall row, row ∈ (list' prisma_findMany prisma_count filters pagination userId userRole).1 ->
       ownerId row = userId) /\
  (userRole = ADMIN ->
     list' prisma_findMany prisma_count filters pagination userId userRole
     = findMany prisma_findMany prisma_count filters pagination).
Proof.
  intros Hprisma. split.
  - intros Hrole Hid row. unfold list', findMany. cbn [fst].
    rewrite bool_decide_eq_true_2 by assumption.
    apply Hprisma. cbn. destruct userId; [congruence | reflexivity].
  - intros ->. unfold list'. rewrite bool_decide_eq_false_2 by (intros H; apply H; reflexivity).
    reflexivity.
Qed.

End Listing.

Lemma list_shows_own_resources_witness :
  Forall (fun row => ownerId row = "u-user")
    (list' demo_findMany (fun _ => 0)
       (mkFilters None None None (Some "u-admin") None None None)
       (getPaginationParams None None) "u-user" USER).1.
Proof.
  apply Forall_forall.
  destruct (list_shows_own_resources demo_findMany (fun _ => 0)
              (mkFilters None None None (Some "u-admin") None None None)
              (getPaginationParams None None) "u-user" USER) as [Hown _].
  - intros whereInput skip take owner row Howner Hrow. unfold demo_findMany in Hrow.
    rewrite Howner in Hrow. apply list_elem_of_filter in Hrow as [Hrow _]. exact Hrow.
  - apply Hown; discriminate.
Defined.

End ListingFacts.

(** ** Pagination and the other helpers *)
Module HelperFacts.
Import Helpers HelperSpec.

Lemma max_one (z : Z) : Number.max (Num 1) (Num z) = Num (Z.max 1 z).
Proof.
  unfold Number.max, Number.leb. destruct (Z.leb_spec 1 z); f_equal; lia.
Qed.

Lemma min_hundred (z : Z) : Number.min (Num z) (Num 100) = Num (Z.min z 100).
Proof.
  unfold Number.min, Number.leb. destruct (Z.leb_spec z 100); f_equal; lia.
Qed.

Lemma getPaginationParams_limit (p : option number) (l : Z) :
  limit (getPaginationParams p (Some (Num l))) = Num (Z.min (Z.max 1 l) 100).
Proof.
  unfold getPaginationParams. cbn [limit default from_option Datatypes.id].
  rewrite max_one, min_hundred. reflexivity.
Qed.

(** X17. For a page and a limit that are integers, [getPaginationParams]
    returns a usable window: the page is at least 1 and the limit between 1
    and 100, arguments already in range are returned as they are, and, for a
    page up to 2^46, the number of rows to skip is not negative and is
    exactly the limit times the pages before (beyond, the product is
    rounded). Absent arguments give page 1, limit 10 and nothing to skip. A
    page that is [NaN] stays [NaN], and the number of rows to skip with it. *)
Theorem getPaginationParams_bounds (p l : Z) :
  let params := getPaginationParams (Some (Num p)) (Some (Num l)) in
  page params = Num (Z.max 1 p) /\
  limit params = Num (Z.min (Z.max 1 l) 100) /\
  1 <= Z.min (Z.max 1 l) 100 <= 100 /\
  (1 <= p -> 1 <= l <= 100 -> page params = Num p /\ limit params = Num l) /\
  (p <= 2 ^ 46 ->
   skip params = Num ((Z.max 1 p - 1) * Z.min (Z.max 1 l) 100) /\
   0 <= (Z.max 1 p - 1) * Z.min (Z.max 1 l) 100) /\
  getPaginationParams None None = mkPagination (Num 1) (Num 10) (Num 0) /\
  page (getPaginationParams (Some NaN) (Some (Num l))) = NaN /\
  skip (getPaginationParams (Some NaN) (Some (Num l))) = NaN.
Proof.
  cbn zeta. unfold getPaginationParams.
  cbn [page limit skip default from_option Datatypes.id].
  rewrite !max_one, min_hundred.
  split; [reflexivity |]. split; [reflexivity |]. split; [lia |].
  split.
  { intros Hp Hl. split; f_equal; lia. }
  split.
  { intros Hp. assert (2 ^ 46 * 100 <= 2 ^ 53) by (vm_compute; discriminate).
    assert (0 <= (Z.max 1 p - 1) * Z.min (Z.max 1 l) 100 <= 2 ^ 53) by nia.
    rewrite NumberFacts.sub_exact by lia.
    rewrite NumberFacts.mul_exact by lia. split; [reflexivity | lia]. }
  split; [reflexivity |]. split; reflexivity.
Qed.

(** The ceiling of the rounded quotient is the ceiling of the quotient as
    long as the rounding error stays below the distance of the quotient to
    the integer underneath: a total below 2^45 over a limit of at most
    256. *)
Lemma ceil_div_exact (a b : Z) :
  0 < a < 2 ^ 45 -> 0 < b <= 2 ^ 8 ->
  Number.ceil_div (Num a) (Num b) = Num (- ((- a) / b)).
Proof.
  intros Ha Hb. unfold Number.ceil_div.
  destruct (Z.eqb_spec b 0) as [? | _]; [lia |].
  destruct (Z.eqb_spec a 0) as [? | _]; [lia |].
  rewrite !Z.abs_eq, !Z.sgn_pos by lia.
  unfold Number.quotient_double.
  set (d := Z.log2 a - Z.log2 b).
  set (reaches := if 0 <=? d then b * 2 ^ d <=? a else b <=? a * 2 ^ (- d)).
  set (e := (if reaches then d else d - 1) - 52).
  assert (Z.log2 a < 45) as Hlog by (apply Z.log2_lt_pow2; lia).
  pose proof (Z.log2_nonneg b) as Hlogb.
  assert (e <= -8) as He by (subst e d; destruct reaches; lia).
  destruct (Z.leb_spec 0 e) as [? | _]; [lia |].
  set (shift := 2 ^ (- e)).
  assert (2 ^ 8 <= shift) as Hshift by (apply Z.pow_le_mono_r; lia).
  set (q := a * shift / b). set (r := (a * shift) mod b).
  pose proof (Z.div_mod (a * shift) b ltac:(lia)) as Hdm. fold q r in Hdm.
  pose proof (Z.mod_pos_bound (a * shift) b ltac:(lia)) as Hr. fold r in Hr.
  set (m := if (b <? 2 * r) || (2 * r =? b) && Z.odd q then q + 1 else q).
  assert (Hm : 2 * (m * b) <= 2 * (a * shift) + b /\ 2 * (a * shift) <= 2 * (m * b) + b).
  { subst m. destruct (Z.ltb_spec b (2 * r)); cbn [orb]; [lia |].
    destruct (Z.eqb_spec (2 * r) b); cbn [andb]; [destruct (Z.odd q); lia | lia]. }
  clearbody m. clear Hdm Hr. clearbody q r.
  unfold Number.ceil_scaled. destruct (Z.leb_spec 0 e) as [? | _]; [lia |].
  fold shift. replace (1 * 1 * m) with m by lia. f_equal.
  (* the ceiling k of a / b *)
  set (k := - ((- a) / b)).
  pose proof (Z.div_mod (- a) b ltac:(lia)) as Hk.
  pose proof (Z.mod_pos_bound (- a) b ltac:(lia)) as Hkr.
  assert (Hk' : (k - 1) * b < a <= k * b) by (subst k; nia).
  clearbody k. clear Hk Hkr.
  assert (0 < shift) by lia.
  assert (Hupper : m <= k * shift).
  { assert (2 * (m * b) <= 2 * (k * shift * b) + b) by nia.
    assert (2 * m <= 2 * (k * shift) + 1) by nia. lia. }
  assert (Hlower : (k - 1) * shift < m).
  { assert (a >= (k - 1) * b + 1) by lia.
    assert (2 * (((k - 1) * b + 1) * shift) <= 2 * (m * b) + b) by nia.
    assert (2 * shift > b) by lia.
    nia. }
  symmetry. apply Z.opp_inj. rewrite Z.opp_involutive.
  apply (Z.div_unique_pos _ _ _ (k * shift - m)); lia.
Qed.

(** X18. [calculateTotalPages] is the least number of pages that hold all
    rows: for a total below 2^45 that is not negative and a limit from 1 to
    100, the pages times the limit cover the total and one page fewer does
    not, and no rows give no page; so it is with the limit that
    [getPaginationParams] returns, whatever limit was asked for. *)
Theorem calculateTotalPages_least (total lim : Z) :
  0 <= total < 2 ^ 45 -> 1 <= lim <= 100 ->
  exists pages,
    calculateTotalPages (Num total) (Num lim) = Num pages /\
    0 <= pages /\
    total <= pages * lim /\
    (0 < total -> (pages - 1) * lim < total) /\
    (total = 0 -> pages = 0) /\
    (forall (p : option number) (l : Z), exists pages' lim',
        limit (getPaginationParams p (Some (Num l))) = Num lim' /\
        calculateTotalPages (Num total) (limit (getPaginationParams p (Some (Num l))))
        = Num pages' /\
        total <= pages' * lim' /\ (0 < total -> (pages' - 1) * lim' < total)).
Proof.
  intros Htotal Hlim.
  assert (Hceil : forall b, 1 <= b <= 100 ->
            calculateTotalPages (Num total) (Num b) = Num (- ((- total) / b)) /\
            0 <= - ((- total) / b) /\
            total <= - ((- total) / b) * b /\
            (0 < total -> (- ((- total) / b) - 1) * b < total) /\
            (total = 0 -> - ((- total) / b) = 0)).
  { intros b Hb.
    pose proof (Z.div_mod (- total) b ltac:(lia)) as Hdm.
    pose proof (Z.mod_pos_bound (- total) b ltac:(lia)) as Hmod.
    split; [| repeat split; nia].
    unfold calculateTotalPages.
    destruct (Z.eq_dec total 0) as [-> | Hpos].
    - unfold Number.ceil_div. destruct (Z.eqb_spec b 0); [lia |]. reflexivity.
    - apply ceil_div_exact; [lia |]. assert (2 ^ 8 = 256) by reflexivity. lia. }
  destruct (Hceil lim Hlim) as (Hpages & H0 & Hcover & Hleast & Hnone).
  exists (- ((- total) / lim)).
  split; [exact Hpages |]. split; [exact H0 |]. split; [exact Hcover |].
  split; [exact Hleast |]. split; [exact Hnone |].
  intros p l. rewrite getPaginationParams_limit.
  destruct (Hceil (Z.min (Z.max 1 l) 100) ltac:(lia)) as (Hpages' & _ & Hcover' & Hleast' & _).
  eauto 6.
Qed.

Lemma calculateTotalPages_least_witness :
  exists pages,
    calculateTotalPages (Num 41) (Num 10) = Num pages /\ 41 <= pages * 10 /\
    (pages - 1) * 10 < 41.
Proof.
  destruct (calculateTotalPages_least 41 10) as (pages & Hpages & _ & Hcover & Hleast & _);
    [vm_compute; split; [discriminate | reflexivity] | lia |].
  exists pages. split; [exact Hpages |]. split; [exact Hcover | apply Hleast; lia].
Defined.

Lemma getPaginationParams_bounds_witness :
  page (getPaginationParams (Some (Num 3)) (Some (Num 25))) = Num 3 /\
  limit (getPaginationParams (Some (Num 3)) (Some (Num 25))) = Num 25 /\
  skip (getPaginationParams (Some (Num 3)) (Some (Num 250))) = Num 200.
Proof.
  destruct (getPaginationParams_bounds 3 25) as (_ & _ & _ & Hid & _).
  destruct (getPaginationParams_bounds 3 250) as (_ & _ & _ & _ & Hskip & _).
  destruct (Hid ltac:(lia) ltac:(lia)) as [Hpage Hlimit].
  destruct (Hskip ltac:(vm_compute; discriminate)) as [Hskip' _].
  split; [exact Hpage |]. split; [exact Hlimit | exact Hskip'].
Defined.

(** Beyond the bounds the doubles round. *)
Example skip_rounds :
  skip (getPaginationParams (Some (Num 9007199254740991)) (Some (Num 3)))
  = Num 27021597764222968 /\
  (9007199254740991 - 1) * 3 = 27021597764222970.
Proof. split; reflexivity. Qed.

Example total_pages_rounds :
  calculateTotalPages (Num 27021597764222984) (Num 3) = Num 9007199254740994 /\
  - ((- 27021597764222984) / 3) = 9007199254740995.
Proof. split; reflexivity. Qed.

Lemma keys_assign (props : list (string * json)) (key : string) (value : json) :
  is_Some (get props key) -> (assign props key value).*1 = props.*1.
Proof.
  induction props as [|[k x] rest IH]; cbn.
  - intros [? H]. discriminate H.
  - destruct (decide (k = key)) as [-> |]; [reflexivity |].
    intros H. cbn. f_equal. apply IH. exact H.
Qed.

Lemma redact_keys (masked : list (string * json)) (field : string) :
  field <> "__proto__" -> (redact masked field).*1 = masked.*1.
Proof.
  intros Hf. unfold redact, has_property, set_property. case_bool_decide; [| reflexivity].
  destruct (decide (field = "__proto__")); [reflexivity |]. apply keys_assign. assumption.
Qed.

Lemma redact_get (masked : list (string * json)) (field key : string) :
  field <> "__proto__" ->
  get (redact masked field) key =
  if decide (field = key) then
    match get masked key with Some _ => Some (JStr "***REDACTED***") | None => None end
  else get masked key.
Proof.
  intros Hf. unfold redact, has_property, set_property.
  destruct (decide (field = "__proto__")); [congruence |].
  case_bool_decide as Hhas.
  - rewrite SanitizerFacts.get_assign. destruct (decide (field = key)) as [-> |]; [| reflexivity].
    destruct Hhas as [v ->]. reflexivity.
  - destruct (decide (field = key)) as [-> |]; [| reflexivity].
    destruct (get masked key) as [v|]; [| reflexivity]. exfalso. apply Hhas. eauto.
Qed.

Lemma mask_fold (fields : list string) (data : list (string * json)) (key : string) :
  Forall (fun f => f <> "__proto__") fields ->
  (foldl redact data fields).*1 = data.*1 /\
  get (foldl redact data fields) key =
  if bool_decide (key ∈ fields) then
    match get data key with Some _ => Some (JStr "***REDACTED***") | None => None end
  else get data key.
Proof.
  revert data. induction fields as [|f fields IH]; intros data Hfields.
  - split; reflexivity.
  - apply Forall_cons in Hfields as [Hf Hfields]. cbn [foldl].
    destruct (IH (redact data f) Hfields) as [Hkeys Hget]. split.
    + rewrite Hkeys. apply redact_keys. exact Hf.
    + rewrite Hget, (redact_get _ _ _ Hf).
      destruct (decide (f = key)) as [-> | Hne].
      * rewrite (bool_decide_eq_true_2 (key ∈ key :: fields)) by apply list_elem_of_here.
        destruct (get data key); case_bool_decide; reflexivity.
      * destruct (decide (key ∈ fields)) as [Hin | Hout].
        -- rewrite !bool_decide_eq_true_2; [reflexivity | | assumption].
           apply list_elem_of_further. assumption.
        -- rewrite !bool_decide_eq_false_2; [reflexivity | | assumption].
           intros [Heq | Hin]%elem_of_cons; congruence.
Qed.

(** X19. [maskSensitiveData] keeps the property names and their order,
    replaces the value of each of password, token, refreshToken, apiKey and
    secret that is present at the top level by the redaction mark, and leaves
    every other property as it is: a name that differs in case, the headers
    [authorization] and [x-api-key], and whatever is nested inside a value
    are not redacted. *)
Theorem maskSensitiveData_top_level (data : list (string * json)) (key : string) :
  (maskSensitiveData data).*1 = data.*1 /\
  (key ∈ sensitiveFields -> is_Some (get data key) ->
     get (maskSensitiveData data) key = Some (JStr "***REDACTED***")) /\
  (key ∉ sensitiveFields -> get (maskSensitiveData data) key = get data key) /\
  ("authorization" ∉ sensitiveFields) /\ ("x-api-key" ∉ sensitiveFields) /\
  ("Password" ∉ sensitiveFields).
Proof.
  assert (Hfields : Forall (fun f => f <> "__proto__") sensitiveFields).
  { unfold sensitiveFields. repeat (apply Forall_cons; split; [discriminate |]).
    apply Forall_nil_2. }
  destruct (mask_fold sensitiveFields data key Hfields) as [Hkeys Hget].
  change (foldl redact data sensitiveFields) with (maskSensitiveData data) in Hkeys, Hget.
  split; [exact Hkeys |]. split; [| split].
  - intros Hin [v Hv]. rewrite Hget, bool_decide_eq_true_2, Hv by assumption. reflexivity.
  - intros Hout. rewrite Hget, bool_decide_eq_false_2 by assumption. reflexivity.
  - unfold sensitiveFields.
    repeat split; intros H; repeat (apply elem_of_cons in H as [H | H]; [discriminate H |]);
      inversion H.
Qed.

Lemma maskSensitiveData_top_level_witness :
  get (maskSensitiveData
         [("email", JStr "ann@example.com"); ("password", JStr "correct horse");
          ("profile", JObj [("secret", JStr "nested")])]) "password"
    = Some (JStr "***REDACTED***") /\
  get (maskSensitiveData
         [("email", JStr "ann@example.com"); ("password", JStr "correct horse");
          ("profile", JObj [("secret", JStr "nested")])]) "profile"
    = Some (JObj [("secret", JStr "nested")]).
Proof.
  split.
  - apply (maskSensitiveData_top_level _ "password").
    + unfold sensitiveFields. apply list_elem_of_here.
    + eexists. reflexivity.
  - destruct (maskSensitiveData_top_level
                [("email", JStr "ann@example.com"); ("password", JStr "correct horse");
                 ("profile", JObj [("secret", JStr "nested")])] "profile")
      as (_ & _ & Hother & _).
    rewrite Hother; [reflexivity |].
    unfold sensitiveFields. intros H.
    repeat (apply elem_of_cons in H as [H | H]; [discriminate H |]). inversion H.
Defined.

End HelperFacts.

(** ** The error handler and the order of the validators *)
Module BoundaryFacts.
Import ErrorHandler Validate.

(** X20. Outside development the error handler tells the client nothing
    about an error the application did not raise itself: every such error
    is answered 500 "Internal server error", whatever its class and message,
    and no response at all carries a stack trace. An application error is
    answered with its own status and message in every environment. *)
Theorem errorHandler_production (A : Ambient) :
  NODE_ENV A <> Some "development" ->
  (forall name msg,
      errorHandler A (EOther name msg)
      = mkResponse 500 (mkErrorResponse "error" "Internal server error" None false)) /\
  (forall error, stack (json_body (errorHandler A error)) = false) /\
  (forall e, http_status (errorHandler A (EApp e)) = statusCode e /\
             resp_message (json_body (errorHandler A (EApp e))) = message e).
Proof.
  intros Hprod. split; [| split].
  - intros name msg. unfold errorHandler. rewrite bool_decide_eq_false_2 by assumption.
    reflexivity.
  - intros error. unfold errorHandler. rewrite bool_decide_eq_false_2 by assumption.
    destruct error as [e|code target| |name msg]; try reflexivity.
    destruct (handlePrismaError code target). reflexivity.
  - intros e. split; reflexivity.
Qed.

Lemma errorHandler_production_witness :
  errorHandler Demo.ambient (EOther "TypeError" "Cannot read properties of undefined")
  = mkResponse 500 (mkErrorResponse "error" "Internal server error" None false).
Proof.
  destruct (errorHandler_production Demo.ambient ltac:(discriminate)) as [Hother _].
  apply Hother.
Defined.

(** X21. Two validators on one route do not add up: when the first schema
    is violated, the response lists the violations of the first schema only,
    whatever the second schema would have said, and the controller is not
    run. (The route [PUT /:id] validates the id, then the body.) *)
Theorem validators_in_sequence (first second second' : AnyZodObject) (A : Ambient)
    (req : Request) (issues : list ZodIssue) :
  first (body req) (query req) (params req) = ZodError issues ->
  forall (R : Type) (render : Response -> R) (controller controller' : Request -> R),
    run_route A render [validate first; validate second] controller req
    = render (errorHandler A
                (EApp (ValidationError "Validation failed" (Some (format_issue <$> issues))))) /\
    run_route A render [validate first; validate second] controller req
    = run_route A render [validate first; validate second'] controller' req.
Proof.
  intros Hfirst R render controller controller'. cbn [run_route].
  unfold validate at 1 3 5. rewrite Hfirst. split; reflexivity.
Qed.

Lemma validators_in_sequence_witness :
  run_route Demo.ambient (fun resp => resp_errors (json_body resp))
    [validate Demo.createResourceSchema; validate (fun _ _ _ => ZodError [mkZodIssue [] "never seen"])]
    (fun _ => None) (Demo.with_body Demo.bad_body)
  = Some ["body.title: Title must be at least 3 characters";
          "body.tags: Expected array, received string"].
Proof.
  apply (validators_in_sequence Demo.createResourceSchema
           (fun _ _ _ => ZodError [mkZodIssue [] "never seen"]) (fun _ _ _ => Parsed)
           Demo.ambient (Demo.with_body Demo.bad_body)
           [mkZodIssue [PKey "body"; PKey "title"] "Title must be at least 3 characters";
            mkZodIssue [PKey "body"; PKey "tags"] "Expected array, received string"]
           eq_refl _ (fun resp => resp_errors (json_body resp)) (fun _ => None) (fun _ => None)).
Defined.

End BoundaryFacts.

(** ** The sums on negative input *)
Module SumToNEdgeFacts.
Import Number SumToN.



Example sum_to_n_a_below :
  sum_to_n_a (Num (-134217730)) = Num 9007199456067584 /\
  (-134217730) * (-134217730 + 1) / 2 = 9007199456067585.
Proof. split; reflexivity. Qed.

End SumToNEdgeFacts.

(** ** The body sanitizer applied twice, and on arrays *)
Module SanitizerMoreFacts.
Import Sanitizer SanitizerSpec SanitizerFacts SanitizerMoreSpec.

Lemma assign_fresh (props : list (string * json)) (key : string) (value : json) :
  key ∉ props.*1 -> assign props key value = props ++ [(key, value)].
Proof.
  induction props as [|[k x] rest IH]; [reflexivity |].
  cbn. intros [Hne Hrest]%not_elem_of_cons.
  destruct (decide (k = key)); [congruence |]. rewrite IH by assumption. reflexivity.
Qed.

Lemma assign_keys_mem (props : list (string * json)) (key k : string) (value : json) :
  k ∈ (assign props key value).*1 <-> k = key \/ k ∈ props.*1.
Proof.
  induction props as [|[k' x] rest IH]; cbn.
  - rewrite list_elem_of_singleton. split; [auto | intros [H | H]; [auto | inversion H]].
  - destruct (decide (k' = key)) as [-> |]; cbn; rewrite !elem_of_cons; [tauto |].
    rewrite IH. tauto.
Qed.

Lemma assign_settled (props : list (string * json)) (key : string) (value : json) :
  settled props -> dangerous key = false -> key <> "__proto__" ->
  sanitized_value value = value -> settled (assign props key value).
Proof.
  intros [Hnodup Hall] Hk Hp Hv. split.
  - induction props as [|[k x] rest IH]; cbn.
    + apply NoDup_singleton.
    + cbn in Hnodup. apply NoDup_cons in Hnodup as [Hfresh Hnodup].
      apply Forall_cons in Hall as [_ Hall].
      destruct (decide (k = key)) as [-> |]; cbn.
      * apply NoDup_cons. split; assumption.
      * apply NoDup_cons. split; [| apply IH; assumption].
        rewrite assign_keys_mem. intros [-> | Hin]; [congruence | contradiction].
  - clear Hnodup. induction props as [|[k x] rest IH]; cbn.
    + apply Forall_cons. split; [cbn; auto | apply Forall_nil_2].
    + apply Forall_cons in Hall as [Hkx Hall].
      destruct (decide (k = key)) as [-> |].
      * apply Forall_cons. split; [cbn; auto | assumption].
      * apply Forall_cons. split; [assumption | apply IH; assumption].
Qed.

Lemma step_settled (acc : list (string * json)) (k : string) (x : json) :
  settled acc -> sanitized_value (sanitized_value x) = sanitized_value x ->
  settled (step acc (k, x)).
Proof.
  intros Hacc Hx. unfold step. cbn [fst snd]. rewrite sanitize_entry_value.
  destruct (dangerous k) eqn:Hk; [assumption |]. unfold set_property.
  destruct (decide (k = "__proto__")); [assumption |].
  apply assign_settled; assumption.
Qed.

Lemma foldl_step_settled (entries acc : list (string * json)) :
  settled acc ->
  (forall k x, (k, x) ∈ entries -> sanitized_value (sanitized_value x) = sanitized_value x) ->
  settled (foldl step acc entries).
Proof.
  revert acc. induction entries as [|[k x] rest IH]; intros acc Hacc Hvalues; [assumption |].
  cbn [foldl]. apply IH.
  - apply step_settled; [assumption |]. apply (Hvalues k x), list_elem_of_here.
  - intros k' x' Hin. apply (Hvalues k' x'), list_elem_of_further, Hin.
Qed.

(** Sanitizing settled properties rebuilds them one by one. *)
Lemma foldl_step_rebuilds (props acc : list (string * json)) :
  NoDup (acc.*1 ++ props.*1) ->
  Forall (fun kv => dangerous kv.1 = false /\ kv.1 <> "__proto__" /\
                    sanitized_value kv.2 = kv.2) props ->
  foldl step acc props = acc ++ props.
Proof.
  revert acc. induction props as [|[k x] rest IH]; intros acc Hnodup Hall.
  - cbn. rewrite app_nil_r. reflexivity.
  - apply Forall_cons in Hall as [(Hk & Hp & Hx) Hall]. cbn [fst snd] in Hk, Hp, Hx.
    cbn [foldl]. unfold step at 2. cbn [fst snd].
    rewrite sanitize_entry_value, Hk, Hx. unfold set_property.
    destruct (decide (k = "__proto__")); [congruence |].
    assert (Hfresh : k ∉ acc.*1).
    { apply NoDup_app in Hnodup as (_ & Hdisj & _). intros Hin.
      apply (Hdisj k Hin). cbn. apply list_elem_of_here. }
    rewrite (assign_fresh _ _ _ Hfresh), IH.
    + rewrite <- app_assoc. reflexivity.
    + rewrite fmap_app, <- app_assoc. exact Hnodup.
    + exact Hall.
Qed.

Lemma settled_nil : settled [].
Proof. split; [apply NoDup_nil_2 | apply Forall_nil_2]. Qed.

Lemma sanitizeObject_is_object (v : json) :
  exists props, sanitizeObject v = JObj props.
Proof. destruct v; cbn [sanitizeObject]; eauto. Qed.

(** On the own properties, which are all that the embedding holds of an
    object, a second pass changes nothing. *)
Lemma sanitize_own_properties_twice :
  (forall v : json, sanitizeObject (sanitizeObject v) = sanitizeObject v) /\
  (forall body : option json, sanitizeBody (sanitizeBody body) = sanitizeBody body).
Proof.
  assert (Hobj : forall v : json, sanitizeObject (sanitizeObject v) = sanitizeObject v).
  { intros v. remember (json_size v) as n eqn:Hn. revert v Hn.
    induction n as [n IH] using lt_wf_ind. intros v ->.
    assert (Hitem : forall x, (json_size x < json_size v)%nat ->
              sanitized_value (sanitizeObject x) = sanitizeObject x).
    { intros x Hx. destruct (sanitizeObject_is_object x) as [props Hprops].
      rewrite Hprops. cbn [sanitized_value]. rewrite <- Hprops.
      eapply IH; [| reflexivity]. exact Hx. }
    assert (Hvalue : forall x, (json_size x < json_size v)%nat ->
              sanitized_value (sanitized_value x) = sanitized_value x).
    { intros x Hx. destruct x as [| | | |items|props]; try reflexivity.
      - cbn [sanitized_value]. f_equal. rewrite <- list_fmap_compose.
        apply list_fmap_ext. intros i item Hi. cbn.
        apply list_elem_of_lookup_2 in Hi. pose proof (size_item _ _ Hi) as Hsize.
        destruct item as [| | | |items'|props']; try reflexivity; cbn [is_object].
        + destruct (sanitizeObject_is_object (JArr items')) as [q Hq]. rewrite Hq.
          cbn [is_object]. rewrite <- Hq. eapply IH; [| reflexivity]. lia.
        + destruct (sanitizeObject_is_object (JObj props')) as [q Hq]. rewrite Hq.
          cbn [is_object]. rewrite <- Hq. eapply IH; [| reflexivity]. lia.
      - cbn [sanitized_value]. apply Hitem. exact Hx. }
    assert (Hentries : forall entries,
              (forall k x, (k, x) ∈ entries -> (json_size x < json_size v)%nat) ->
              sanitizeObject (JObj (foldl step [] entries)) = JObj (foldl step [] entries)).
    { intros entries Hsize.
      assert (Hsettled : settled (foldl step [] entries)).
      { apply foldl_step_settled; [apply settled_nil |].
        intros k x Hin. apply Hvalue. eapply Hsize. exact Hin. }
      destruct Hsettled as [Hnodup Hall].
      rewrite sanitizeObject_object. f_equal.
      apply (foldl_step_rebuilds _ []); assumption. }
    destruct v as [| | | |items|props]; try reflexivity.
    - rewrite sanitizeObject_array. apply Hentries.
      intros k x Hin. apply size_item. eapply size_array_entry. exact Hin.
    - rewrite sanitizeObject_object. apply Hentries.
      intros k x Hin. eapply size_entry. exact Hin. }
  split; [exact Hobj |].
  intros [b|]; [| reflexivity]. cbn [sanitizeBody].
  destruct (is_object b) eqn:Hb.
  - cbn [sanitizeBody]. destruct (sanitizeObject_is_object b) as [props Hprops].
    rewrite Hprops. cbn [is_object]. rewrite <- Hprops, Hobj. reflexivity.
  - cbn [sanitizeBody]. rewrite Hb. reflexivity.
Qed.

(** X23. Sanitizing twice is sanitizing once, for a body in which no
    property is named [__proto__]: [sanitizeObject] returns its own result
    unchanged, and so does [sanitizeBody]. (With a property of that name the
    first pass gives the result a prototype of its own, which a second pass
    does not keep.) *)
Theorem sanitize_idempotent (v : json) :
  proto_free v = true ->
  sanitizeObject (sanitizeObject v) = sanitizeObject v /\
  sanitizeBody (sanitizeBody (Some v)) = sanitizeBody (Some v).
Proof.
  intros _. destruct sanitize_own_properties_twice as [Hobject Hbody].
  split; [apply Hobject | apply Hbody].
Qed.

Lemma sanitize_idempotent_witness :
  sanitizeBody (sanitizeBody (Some (JObj [("$where", JStr "1"); ("tags", JArr [JStr "a"])])))
  = Some (JObj [("tags", JArr [JStr "a"])]).
Proof.
  destruct (sanitize_idempotent (JObj [("$where", JStr "1"); ("tags", JArr [JStr "a"])])
              eq_refl) as [_ Hbody].
  rewrite Hbody. reflexivity.
Defined.

Import Ttl.

Lemma pretty_N_char_digit (x : N) : is_digit (pretty_N_char x) = true.
Proof. unfold pretty_N_char. repeat case_match; reflexivity. Qed.

Lemma pretty_N_go_digits (x : N) (s : string) :
  decimal_name s = true -> decimal_name (pretty_N_go x s) = true.
Proof.
  revert s. induction (N.lt_wf_0 x) as [x _ IH]. intros s Hs.
  destruct (decide (x = 0)%N) as [-> | Hx]; [exact Hs |].
  rewrite pretty_N_go_step by lia. apply IH.
  - apply N.div_lt; lia.
  - cbn. rewrite pretty_N_char_digit. exact Hs.
Qed.

Lemma pretty_nat_digits (n : nat) : decimal_name (pretty n) = true.
Proof.
  unfold pretty, pretty_nat, pretty, pretty_N.
  destruct (decide (N.of_nat n = 0%N)); [reflexivity |].
  apply pretty_N_go_digits. reflexivity.
Qed.

Lemma prefix_head_ne (d c : ascii) (p s : string) :
  d <> c -> String.prefix (String d p) (String c s) = false.
Proof.
  intros Hne. cbn [String.prefix]. destruct (ascii_dec d c); [contradiction | reflexivity].
Qed.

Lemma digits_not_dangerous (s : string) :
  decimal_name s = true -> dangerous s = false /\ s <> "__proto__".
Proof.
  intros Hs. split.
  - unfold dangerous. apply orb_false_iff. split.
    + destruct s as [|c s]; [reflexivity |]. cbn in Hs. apply andb_true_iff in Hs as [Hc _].
      apply prefix_head_ne. intros <-. discriminate Hc.
    + induction s as [|c s IH]; [reflexivity |].
      cbn in Hs. apply andb_true_iff in Hs as [Hc Hs].
      cbn [includes]. rewrite (IH Hs), orb_false_r.
      apply prefix_head_ne. intros <-. discriminate Hc.
  - intros ->. discriminate Hs.
Qed.

Lemma foldl_step_array (items : list json) :
  forall (n : nat) (acc : list (string * json)),
    acc.*1 = pretty <$> seq 0 n ->
    foldl step acc (imap (fun i x => (pretty (n + i)%nat, x)) items)
    = acc ++ imap (fun i x => (pretty (n + i)%nat, sanitized_value x)) items.
Proof.
  induction items as [|x rest IH]; intros n acc Hkeys.
  - cbn. rewrite app_nil_r. reflexivity.
  - cbn [imap foldl]. unfold step at 2. cbn [fst snd]. rewrite Nat.add_0_r.
    destruct (digits_not_dangerous _ (pretty_nat_digits n)) as [Hsafe Hproto].
    rewrite sanitize_entry_value, Hsafe. unfold set_property.
    destruct (decide (pretty n = "__proto__")); [congruence |].
    assert (Hfresh : pretty n ∉ acc.*1).
    { rewrite Hkeys. intros Hin. apply list_elem_of_fmap in Hin as (m & Hm & Hin).
      apply (inj pretty) in Hm as <-. apply elem_of_seq in Hin. lia. }
    rewrite (assign_fresh _ _ _ Hfresh).
    rewrite (imap_ext _ (fun i x => (pretty (S n + i)%nat, x)) rest)
      by (intros i y _; cbn; do 2 f_equal; lia).
    rewrite (IH (S n)).
    + rewrite <- app_assoc. cbn [app]. do 2 f_equal.
      apply imap_ext. intros i y _. cbn. do 2 f_equal. lia.
    + rewrite fmap_app, Hkeys, seq_S, fmap_app. reflexivity.
Qed.

(** X24. An array handed to [sanitizeObject] comes back as an object: one
    property per element, named by the element's index in decimal, holding
    the element sanitized; so a body that is an array, and an array directly
    inside an array, change their shape, and no element is lost. *)
Theorem sanitizeObject_of_array (items : list json) :
  sanitizeObject (JArr items)
  = JObj (imap (fun i x => (pretty i, sanitized_value x)) items) /\
  sanitizeBody (Some (JArr items))
  = Some (JObj (imap (fun i x => (pretty i, sanitized_value x)) items)) /\
  length (own_properties (sanitizeObject (JArr items))) = length items.
Proof.
  assert (Heq : sanitizeObject (JArr items)
                = JObj (imap (fun i x => (pretty i, sanitized_value x)) items)).
  { rewrite sanitizeObject_array. unfold array_entries. f_equal.
    apply (foldl_step_array items 0%nat []). reflexivity. }
  split; [exact Heq |]. split.
  - cbn [sanitizeBody is_object]. rewrite Heq. reflexivity.
  - rewrite Heq. cbn [own_properties]. apply length_imap.
Qed.

End SanitizerMoreFacts.

(** ** The XSS sanitizer of the service layer, and parseArray *)
Module HelperMoreFacts.
Import Helpers SanitizerSpec HelperSpec.

Lemma helpers_sanitizeObject_object (A : Ambient) (props : list (string * json)) :
  sanitizeObject A (JObj props) = JObj (foldl (xss_step A) [] props).
Proof.
  cbn [sanitizeObject]. f_equal. generalize (@nil (string * json)) as acc.
  induction props as [|[k v] rest IH]; intros acc; [reflexivity |].
  cbn [foldl]. rewrite <- IH. unfold xss_step. cbn [fst snd].
  destruct v; reflexivity.
Qed.

Lemma get_foldl_xss (A : Ambient) (entries acc : list (string * json)) (key : string) :
  NoDup entries.*1 -> key <> "__proto__" ->
  get (foldl (xss_step A) acc entries) key =
  match get entries key with
  | Some value => Some (xss_value A value)
  | None => get acc key
  end.
Proof.
  intros Hnodup Hproto. revert acc.
  induction entries as [|[k x] rest IH]; intros acc; [reflexivity |].
  cbn in Hnodup. apply NoDup_cons in Hnodup as [Hfresh Hnodup].
  cbn [foldl get]. rewrite (IH Hnodup). unfold xss_step. cbn [fst snd].
  unfold set_property.
  destruct (decide (k = key)) as [-> | Hne].
  - rewrite (SanitizerFacts.get_None _ _ Hfresh).
    destruct (decide (key = "__proto__")); [congruence |].
    rewrite SanitizerFacts.get_assign. destruct (decide (key = key)); [reflexivity | congruence].
  - destruct (decide (k = "__proto__")); [reflexivity |].
    rewrite SanitizerFacts.get_assign. destruct (decide (k = key)); [congruence | reflexivity].
Qed.

Lemma get_sanitizeObject (A : Ambient) (props : list (string * json)) (key : string) :
  NoDup props.*1 -> key <> "__proto__" ->
  get (own_properties (sanitizeObject A (JObj props))) key = xss_value A <$> get props key.
Proof.
  intros Hnodup Hproto.
  rewrite helpers_sanitizeObject_object. cbn [own_properties].
  rewrite get_foldl_xss by assumption. destruct (get props key); reflexivity.
Qed.

(** X25. The XSS sanitizer of the service layer reaches the strings that
    are values of properties, at every depth of nested objects, and the
    strings that are elements of an array; an element of an array that is
    not a string is returned as it is, so the strings inside an object that
    sits in an array never pass through the filter. Property names are kept,
    except [__proto__]. *)
Theorem xss_sanitizer_reach (A : Ambient) (props : list (string * json)) (key : string) :
  NoDup props.*1 -> key <> "__proto__" ->
  get (own_properties (sanitizeObject A (JObj props))) key = xss_value A <$> get props key /\
  (forall s, xss_value A (JStr s) = JStr (xss A s)) /\
  (forall items, xss_value A (JArr items) = JArr (xss_item A <$> items)) /\
  (forall inner, xss_item A (JObj inner) = JObj inner) /\
  (forall inner, xss_item A (JArr inner) = JArr inner).
Proof.
  intros Hnodup Hproto. split; [| repeat split].
  apply get_sanitizeObject; assumption.
Qed.

Lemma xss_sanitizer_reach_witness :
  get (own_properties
         (sanitizeObject Demo.ambient
            (JObj [("title", JStr "Guide");
                   ("blocks", JArr [JStr "intro"; JObj [("html", JStr "<script>")]])])))
      "blocks"
  = Some (JArr [JStr "intro"; JObj [("html", JStr "<script>")]]).
Proof.
  destruct (xss_sanitizer_reach Demo.ambient
              [("title", JStr "Guide");
               ("blocks", JArr [JStr "intro"; JObj [("html", JStr "<script>")]])]
              "blocks") as [Hget _].
  - repeat (apply NoDup_cons; split;
            [intros H; repeat (apply elem_of_cons in H as [H | H]; [discriminate H |]);
             inversion H |]).
    apply NoDup_nil_2.
  - discriminate.
  - rewrite Hget. reflexivity.
Defined.

Lemma split_commas_cons (s : string) : exists piece pieces, split_commas s = piece :: pieces.
Proof.
  destruct s as [|c rest]; cbn; [eauto |].
  destruct (Ascii.eqb c ","); [eauto |]. destruct (split_commas rest); eauto.
Qed.

Lemma split_commas_no_comma (s : string) :
  Forall (fun piece => has_comma piece = false) (split_commas s).
Proof.
  induction s as [|c rest IH]; cbn.
  - apply Forall_cons. split; [reflexivity | apply Forall_nil_2].
  - destruct (Ascii.eqb c ",") eqn:Hc.
    + apply Forall_cons. split; [reflexivity | exact IH].
    + destruct (split_commas rest) as [|piece pieces].
      * apply Forall_cons. split; [cbn; rewrite Hc; reflexivity | apply Forall_nil_2].
      * apply Forall_cons in IH as [Hpiece Hpieces].
        apply Forall_cons. split; [cbn; rewrite Hc; exact Hpiece | exact Hpieces].
Qed.

Lemma split_commas_join (s : string) : String.concat "," (split_commas s) = s.
Proof.
  induction s as [|c rest IH]; [reflexivity |]. cbn [split_commas].
  destruct (Ascii.eqb c ",") eqn:Hc.
  - apply Ascii.eqb_eq in Hc as ->.
    destruct (split_commas_cons rest) as (piece & pieces & Hsplit).
    rewrite Hsplit in IH |- *. cbn [String.concat]. cbv [String.append]. fold String.append.
    change (String.append "," ?x) with (String "," x). rewrite <- IH. reflexivity.
  - destruct (split_commas rest) as [|piece pieces] eqn:Hsplit.
    + destruct (split_commas_cons rest) as (? & ? & H). congruence.
    + rewrite <- IH. destruct pieces; reflexivity.
Qed.

Lemma trimStart_spec (s : string) :
  starts_blank (trimStart s) = false /\
  (has_comma s = false -> has_comma (trimStart s) = false).
Proof.
  induction s as [|c rest [IH1 IH2]]; cbn [trimStart]; [split; reflexivity |].
  destruct (is_space c) eqn:Hc.
  - split; [exact IH1 |]. cbn. intros H. apply orb_false_iff in H as [_ H]. auto.
  - split; [cbn; exact Hc | auto].
Qed.

Lemma trimEnd_spec (s : string) :
  ends_blank (trimEnd s) = false /\
  (has_comma s = false -> has_comma (trimEnd s) = false) /\
  (starts_blank s = false -> starts_blank (trimEnd s) = false).
Proof.
  induction s as [|c rest (IH1 & IH2 & IH3)]; cbn [trimEnd]; [repeat split |].
  destruct (trimEnd rest) as [|k kept] eqn:Hrest.
  - destruct (is_space c) eqn:Hc.
    + repeat split.
    + split; [cbn; exact Hc |]. split.
      * cbn. intros H. apply orb_false_iff in H as [-> _]. reflexivity.
      * intros _. cbn. exact Hc.
  - split; [cbn [ends_blank]; exact IH1 |]. split.
    + cbn [has_comma]. intros H. apply orb_false_iff in H as [-> H]. cbn. auto.
    + cbn. auto.
Qed.

(** X26. [parseArray] gives nothing for a missing or empty value, and
    otherwise the pieces between the commas, trimmed, without the empty
    ones: no item is empty, holds a comma, or starts or ends with white
    space. Cutting at the commas loses nothing: the pieces joined by commas
    are the value again. A value made of commas and blanks gives an empty
    list, not nothing. *)
Theorem parseArray_items (value : string) :
  parseArray None = None /\ parseArray (Some "") = None /\
  (value <> "" ->
   exists items,
     parseArray (Some value) = Some items /\
     items = filter (fun item => item <> EmptyString) (trim <$> split_commas value) /\
     Forall (fun item => item <> "" /\ has_comma item = false /\
                         starts_blank item = false /\ ends_blank item = false) items) /\
  String.concat "," (split_commas value) = value /\
  parseArray (Some " , ,") = Some [].
Proof.
  split; [reflexivity |]. split; [reflexivity |]. split; [| split; [apply split_commas_join | reflexivity]].
  intros Hne. destruct value as [|c rest]; [congruence |].
  eexists. split; [reflexivity |]. split; [reflexivity |].
  apply Forall_forall. intros item Hin.
  apply list_elem_of_filter in Hin as [Hitem Hin].
  apply list_elem_of_fmap in Hin as (piece & -> & Hpiece).
  pose proof (split_commas_no_comma (String c rest)) as Hno.
  rewrite Forall_forall in Hno. specialize (Hno piece Hpiece).
  unfold trim in *.
  destruct (trimStart_spec piece) as [Hs1 Hs2].
  destruct (trimEnd_spec (trimStart piece)) as (He1 & He2 & He3).
  auto.
Qed.

Lemma parseArray_items_witness :
  parseArray (Some "guide, api ,,tutorial ") = Some ["guide"; "api"; "tutorial"].
Proof.
  destruct (parseArray_items "guide, api ,,tutorial ") as (_ & _ & Hitems & _).
  destruct (Hitems ltac:(discriminate)) as (items & Hparse & -> & _).
  exact Hparse.
Defined.

End HelperMoreFacts.

(** ** Reading one resource, from the header to the response *)
Module RouteFacts.
Import AuthService AuthMiddleware Rbac Validate ResourceService ResourceController ErrorHandler DemoQueries.

(** X27. [GET /:id] answers with a success exactly when every check on the
    way has passed: the header carries a bearer token that the library
    verifies, the principal it names is in the store and active, its role is
    USER or ADMIN, the schema of the route accepts the request, the resource
    exists, and the principal is an ADMIN or owns it. The status is then 200
    and the data is that resource. In every other case the client receives
    an error response and no resource. *)
Theorem get_resource_route_success (A : Ambient) (resourceIdSchema : AnyZodObject)
    (db : gmap string Resource) (req : Request) (code : Z) (sent : ApiResponse Resource) :
  get_resource_route A resourceIdSchema db req = Sent code sent <->
  exists (h : string) (decoded : JwtPayload) (u : User) (rid : string) (resource : Resource),
    authorization req = Some h /\
    String.prefix "Bearer " h = true /\
    jwt_verify A (substring_from 7 h) (jwtSecret A) = Decoded decoded /\
    findById A (userId decoded) = Some u /\
    user_isActive u = true /\
    (user_role u = USER \/ user_role u = ADMIN) /\
    resourceIdSchema (body req) (query req) (params req) = Parsed /\
    (list_to_map (params req) : gmap string string) !! "id" = Some rid /\
    db !! rid = Some resource /\
    (user_role u = ADMIN \/ ownerId resource = user_id u) /\
    code = 200 /\
    sent = createResponse "success" (Some resource) (Some "Resource retrieved successfully").
Proof.
  unfold get_resource_route. cbn [run_route]. split.
  - unfold authenticate, verifyToken.
    destruct (authorization req) as [h|] eqn:Hh; [| discriminate].
    destruct (bool_decide (h = "")) eqn:Hempty; [discriminate |].
    destruct (String.prefix "Bearer " h) eqn:Hprefix; [| discriminate]. cbn [negb orb].
    destruct (jwt_verify A (substring_from 7 h) (jwtSecret A)) as [decoded|err] eqn:Hv.
    2: { destruct (instanceof_TokenExpiredError err); [discriminate |].
         destruct (instanceof_JsonWebTokenError err); discriminate. }
    destruct (findById A (userId decoded)) as [u|] eqn:Hf; [| discriminate].
    destruct (user_isActive u) eqn:Hact; [| discriminate]. cbn [negb].
    unfold requireUserOrAdmin, requireRole. cbn [user set_user role].
    destruct (decide (user_role u ∈ [USER; ADMIN])) as [Hrole | Hrole].
    2: { rewrite (bool_decide_eq_false_2 _ Hrole). discriminate. }
    rewrite (bool_decide_eq_true_2 _ Hrole). cbn [negb].
    unfold validate. cbn [body query params set_user].
    destruct (resourceIdSchema (body req) (query req) (params req)) eqn:Hschema;
      [| discriminate | discriminate].
    unfold getResource. cbn [user params set_user id role].
    destruct ((list_to_map (params req) : gmap string string) !! "id") as [rid|] eqn:Hid;
      [| discriminate].
    unfold getById. destruct (db !! rid) as [resource|] eqn:Hrow; [| discriminate].
    destruct (bool_decide (user_role u ≠ ADMIN) && bool_decide (ownerId resource ≠ user_id u))
      eqn:Howner; [discriminate |].
    intros [= <- <-]. exists h, decoded, u, rid, resource.
    repeat (split; [first [assumption | reflexivity] |]).
    split.
    { apply elem_of_cons in Hrole as [Hr | Hr]; [left; exact Hr |].
      apply list_elem_of_singleton in Hr. right. exact Hr. }
    repeat (split; [first [assumption | reflexivity] |]).
    split; [| split; reflexivity].
    apply andb_false_iff in Howner as [Ho | Ho]; apply bool_decide_eq_false in Ho;
      [left | right]; apply dec_stable; exact Ho.
  - intros (h & decoded & u & rid & resource & Hh & Hprefix & Hv & Hf & Hact & Hrole
            & Hschema & Hid & Hrow & Howner & -> & ->).
    unfold authenticate, verifyToken. rewrite Hh.
    rewrite bool_decide_eq_false_2 by (intros ->; discriminate Hprefix).
    rewrite Hprefix. cbn [negb orb]. rewrite Hv, Hf, Hact. cbn [negb].
    unfold requireUserOrAdmin, requireRole. cbn [user set_user role].
    rewrite bool_decide_eq_true_2.
    2: { destruct Hrole as [-> | ->];
           [apply list_elem_of_here | apply list_elem_of_further, list_elem_of_here]. }
    cbn [negb]. unfold validate. cbn [body query params set_user]. rewrite Hschema.
    unfold getResource. cbn [user params set_user id role]. rewrite Hid.
    unfold getById. rewrite Hrow.
    replace (bool_decide (user_role u ≠ ADMIN) && bool_decide (ownerId resource ≠ user_id u))
      with false; [reflexivity |].
    symmetry. apply andb_false_iff.
    destruct Howner as [Ha | Ho]; [left | right]; apply bool_decide_eq_false; auto.
Qed.

Lemma get_resource_route_success_witness :
  get_resource_route (Accounts.ambient_on Demo2.rows Demo2.base [Demo2.ann]) demo_id_schema
    {[ "r-3" := mkResource "r-3" "id:ann@example.com" (JObj [("title", JStr "API Reference")]) ]}
    (Demo2.with_header "Bearer jwt:id:ann@example.com")
  = Sent 200 (createResponse "success"
                (Some (mkResource "r-3" "id:ann@example.com"
                         (JObj [("title", JStr "API Reference")])))
                (Some "Resource retrieved successfully")).
Proof.
  apply get_resource_route_success.
  exists "Bearer jwt:id:ann@example.com",
         (mkJwtPayload "id:ann@example.com" "" GUEST None None),
         Demo2.ann, "r-3",
         (mkResource "r-3" "id:ann@example.com" (JObj [("title", JStr "API Reference")])).
  repeat (split; [reflexivity |]).
  split; [left; reflexivity |].
  repeat (split; [reflexivity |]).
  split; [right; reflexivity |]. split; reflexivity.
Defined.

End RouteFacts.

(** ** What an update hands to the database *)
Module UpdateDataFacts.
Import ResourceService SanitizerSpec HelperSpec HelperMoreFacts.

(** X28. [update] hands every property of the body to Prisma: in the data
    of a successful update each property of the body other than [__proto__]
    is present, under its name, with its value after the XSS sanitizer.
    Nothing is filtered by name, so a property [ownerId] in the body reaches
    the [update] of the database like any other. *)
Theorem update_hands_over_every_property (A : Ambient)
    (prisma_update : Resource -> json -> Resource) (db : gmap string Resource)
    (rid : string) (props : list (string * json)) (userId : string) (userRole : Role)
    (updated : Resource) (key : string) :
  NoDup props.*1 -> key <> "__proto__" ->
  (update A prisma_update db rid (JObj props) userId userRole).1 = Ok updated ->
  exists resource : Resource,
    db !! rid = Some resource /\
    updated = prisma_update resource (Helpers.sanitizeObject A (JObj props)) /\
    get (own_properties (Helpers.sanitizeObject A (JObj props))) key
    = xss_value A <$> get props key.
Proof.
  intros Hnodup Hkey Hupdate.
  destruct (ResourceFacts.update_ok_inv A prisma_update db rid (JObj props) userId userRole
              updated Hupdate) as (resource & Hrow & ->).
  exists resource.
  split; [exact Hrow |]. split; [reflexivity |].
  apply (get_sanitizeObject A props key Hnodup Hkey).
Qed.

Lemma update_hands_over_every_property_witness :
  exists resource,
    Demo.resources !! "r-3" = Some resource /\
    get (own_properties
           (Helpers.sanitizeObject Demo.ambient
              (JObj [("title", JStr "Mine now"); ("ownerId", JStr "u-user")]))) "ownerId"
    = Some (JStr "u-user").
Proof.
  destruct (update_hands_over_every_property Demo.ambient Demo.replace_columns Demo.resources
              "r-3" [("title", JStr "Mine now"); ("ownerId", JStr "u-user")] "u-user" USER
              (Demo.replace_columns
                 (mkResource "r-3" "u-user" (JObj [("title", JStr "API Reference")]))
                 (JObj [("title", JStr "Mine now"); ("ownerId", JStr "u-user")]))
              "ownerId")
    as (resource & Hrow & _ & Hget).
  - repeat (apply NoDup_cons; split;
            [intros H; repeat (apply elem_of_cons in H as [H | H]; [discriminate H |]);
             inversion H |]).
    apply NoDup_nil_2.
  - discriminate.
  - reflexivity.
  - exists resource. split; [exact Hrow | exact Hget].
Defined.

End UpdateDataFacts.
